(** * Finance-Sorter: CSV adapter, categorizer and reassignment handler

    A shallow embedding of [src/script.js] and the properties of its
    specification.

    Conventions of the embedding.
    - A JavaScript string is a [string]: a sequence of 8-bit characters read
      as ASCII.  Characters above 127 are carried along unchanged and belong
      to no character class; the bank exports the program reads are ASCII.
    - A JavaScript number is a binary64 value, [spec_float] with precision 53
      and maximal exponent 1024; decimal literals are rounded to nearest,
      ties to even.
    - A call that can throw returns a [completion].
    - An object used as a dictionary is a property list in enumeration order.
    - The patterns written in the program are values of a small pattern type,
      run by a backtracking matcher with the priorities of the host's.  The
      pattern built from a keyword is parsed here when the keyword holds
      pattern characters and parentheses only; for any other keyword the
      host's engine is a parameter, [hostRegExp], of which nothing is
      assumed.
    - The base table [CATEGORIES] is defined outside the program and is a
      parameter as well; so are the collation order [localeCompare] of the
      host and the rows the CSV parser reads from a file.

    The file has the host's functions first, then the program, then the
    notions the properties are stated with, then the properties. *)

From Stdlib Require Import Bool Arith ZArith List Lia.
From Stdlib Require Import Strings.Ascii Strings.String.
From Stdlib Require Import Floats.SpecFloat.
From Stdlib Require Import Sorting.Sorted Sorting.Permutation.
Import ListNotations.

Local Open Scope string_scope.
Local Open Scope bool_scope.
Local Open Scope nat_scope.

(* ===================================================================== *)
(** * The host: characters and strings                                    *)
(* ===================================================================== *)

Module JS.

(** ** Characters *)

Definition code (c : ascii) : nat := nat_of_ascii c.

Definition between (lo hi : nat) (c : ascii) : bool :=
  (lo <=? code c) && (code c <=? hi).

(** [\d] *)
Definition isDigit (c : ascii) : bool := between 48 57 c.

Definition isUpper (c : ascii) : bool := between 65 90 c.

Definition isLower (c : ascii) : bool := between 97 122 c.

(** LineTerminator: LF and CR. *)
Definition isLineTerminator (c : ascii) : bool :=
  (code c =? 10) || (code c =? 13).

(** WhiteSpace and LineTerminator, the class of [\s], of [trim] and of the
    prefix [parseFloat] skips: TAB, LF, VT, FF, CR, SP. *)
Definition isWhiteSpace (c : ascii) : bool :=
  between 9 13 c || (code c =? 32).

(** [\w], which decides [\b]. *)
Definition isWordChar (c : ascii) : bool :=
  isUpper c || isLower c || isDigit c || (code c =? 95).

(** [toUpperCase] and [toLowerCase] on one ASCII character; the host maps
    letters above 127 as well, some of them to two characters. *)
Definition toUpperChar (c : ascii) : ascii :=
  if isLower c then ascii_of_nat (code c - 32) else c.

Definition toLowerChar (c : ascii) : ascii :=
  if isUpper c then ascii_of_nat (code c + 32) else c.

Definition eqc (a b : ascii) : bool := Ascii.eqb a b.

(** Equality of characters under the [i] flag (Canonicalize). *)
Definition eqc_i (a b : ascii) : bool :=
  Ascii.eqb (toUpperChar a) (toUpperChar b).

(** ** Strings *)

Fixpoint smap (f : ascii -> ascii) (s : string) : string :=
  match s with
  | EmptyString => EmptyString
  | String c r => String (f c) (smap f r)
  end.

Fixpoint sfilter (p : ascii -> bool) (s : string) : string :=
  match s with
  | EmptyString => EmptyString
  | String c r => if p c then String c (sfilter p r) else sfilter p r
  end.

Fixpoint sforall (p : ascii -> bool) (s : string) : bool :=
  match s with
  | EmptyString => true
  | String c r => p c && sforall p r
  end.

Definition toUpperCase : string -> string := smap toUpperChar.

Definition toLowerCase : string -> string := smap toLowerChar.

Fixpoint trimStart (s : string) : string :=
  match s with
  | String c r => if isWhiteSpace c then trimStart r else s
  | EmptyString => EmptyString
  end.

Fixpoint trimEnd (s : string) : string :=
  match s with
  | EmptyString => EmptyString
  | String c r =>
      match trimEnd r with
      | EmptyString => if isWhiteSpace c then EmptyString else String c EmptyString
      | r' => String c r'
      end
  end.

Definition trim (s : string) : string := trimEnd (trimStart s).

(** Longest prefix of characters in [p], and what follows it. *)
Fixpoint span (p : ascii -> bool) (s : string) : string * string :=
  match s with
  | String c r =>
      if p c then let (a, b) := span p r in (String c a, b) else (EmptyString, s)
  | EmptyString => (EmptyString, EmptyString)
  end.

Fixpoint stake (n : nat) (s : string) : string :=
  match n, s with
  | S k, String c r => String c (stake k r)
  | _, _ => EmptyString
  end.

Fixpoint sdrop (n : nat) (s : string) : string :=
  match n, s with
  | S k, String _ r => sdrop k r
  | _, _ => s
  end.

Definition isEmpty (s : string) : bool :=
  match s with EmptyString => true | _ => false end.

(** [s.padStart(2, '0')] *)
Definition padStart2 (s : string) : string :=
  match length s with
  | 0 => "00"
  | 1 => "0" ++ s
  | _ => s
  end.

(** [s.split(sep)] for a one-character separator: never empty. *)
Fixpoint split (sep : ascii) (s : string) : list string :=
  match s with
  | EmptyString => [EmptyString]
  | String c r =>
      if Ascii.eqb c sep then EmptyString :: split sep r
      else match split sep r with
           | w :: ws => String c w :: ws
           | [] => [String c EmptyString]
           end
  end.

(** ** Completions *)

Inductive error := SyntaxError | TypeError.

Inductive completion (A : Type) :=
| Normal (a : A)
| Throw (e : error).

Arguments Normal {A} a.
Arguments Throw {A} e.

Definition bind {A B} (m : completion A) (k : A -> completion B) : completion B :=
  match m with
  | Normal a => k a
  | Throw e => Throw e
  end.

(** ** Numbers *)

Definition number := spec_float.

Definition NaN : number := S754_nan.

Definition zero : number := S754_zero false.

Definition Infinity (neg : bool) : number := S754_infinity neg.

(** [a > b]: false when either is NaN. *)
Definition gt (a b : number) : bool := SFltb b a.

Definition isNaN (n : number) : bool :=
  match n with S754_nan => true | _ => false end.

(** [-Math.abs(n)] *)
Definition negAbs (n : number) : number := SFopp (SFabs n).

(** The binary64 nearest to [(-1)^neg * m * 10^e], ties to even: the value
    the host gives a decimal literal. *)
Definition ofDecimal (neg : bool) (m : N) (e : Z) : number :=
  match m with
  | N0 => S754_zero neg
  | Npos p =>
      if (0 <=? e)%Z
      then binary_round 53 1024 neg (p * Z.to_pos (10 ^ e)) 0
      else SFdiv 53 1024 (S754_finite neg p 0)
                         (S754_finite false (Z.to_pos (10 ^ (- e))) 0)
  end.

Definition digitVal (c : ascii) : N := N.of_nat (code c - 48).

(** Value of a string of decimal digits. *)
Definition digitsVal (s : string) : N :=
  (fix go (acc : N) (s : string) : N :=
     match s with
     | EmptyString => acc
     | String c r => go (acc * 10 + digitVal c)%N r
     end) 0%N s.

Definition signOf (s : string) : bool * string :=
  match s with
  | String "-" r => (true, r)
  | String "+" r => (false, r)
  | _ => (false, s)
  end.

Fixpoint startsWith (p s : string) : bool :=
  match p, s with
  | EmptyString, _ => true
  | String a p', String b s' => Ascii.eqb a b && startsWith p' s'
  | _, _ => false
  end.

(** Exponent part [e] or [E], an optional sign and at least one digit;
    anything else is not part of the literal. *)
Definition exponentOf (s : string) : Z :=
  match s with
  | String c r =>
      if Ascii.eqb c "e" || Ascii.eqb c "E" then
        let (neg, r1) := signOf r in
        let (ds, _) := span isDigit r1 in
        if isEmpty ds then 0%Z
        else if neg then (- Z.of_N (digitsVal ds))%Z else Z.of_N (digitsVal ds)
      else 0%Z
  | EmptyString => 0%Z
  end.

(** [parseFloat(s)]: skip leading white space, read the longest prefix that
    is a StrDecimalLiteral, NaN when there is none. *)
Definition parseFloat (s : string) : number :=
  let (neg, s0) := signOf (trimStart s) in
  if startsWith "Infinity" s0 then Infinity neg
  else
    let (ip, s1) := span isDigit s0 in
    let (fp, s2) :=
      match s1 with
      | String "." r => span isDigit r
      | _ => (EmptyString, s1)
      end in
    if isEmpty ip && isEmpty fp then NaN
    else ofDecimal neg (digitsVal (ip ++ fp))
                   (exponentOf s2 - Z.of_nat (length fp)).

(** [parseFloat(n)] for a number [n], and [parseFloat(el.dataset.x)] after
    [el.dataset.x = n]: the number is first printed by Number::toString,
    whose output reads back as the same number, with [-0] printed as "0". *)
Definition parseFloatOfNumber (n : number) : number :=
  match n with
  | S754_zero _ => zero
  | _ => n
  end.

End JS.

(* ===================================================================== *)
(** * The host: regular expressions                                       *)
(* ===================================================================== *)

Module RegExp.
Import JS.

(** A pattern is a sequence of assertions and of quantified one-character
    atoms, which is the shape of every pattern of the program.  A plain atom
    is quantified [{1,1}].  The parentheses of a capture group around one
    quantified atom are not kept: the text of the group is the piece that
    item matched. *)
Inductive item :=
| Bol                                               (* ^ *)
| Eol                                               (* $ *)
| WordB                                             (* \b *)
| Rep (cls : ascii -> bool) (lo : nat) (hi : option nat).  (* atom{lo,hi} *)

Definition regex := list item.

Definition Cls (p : ascii -> bool) : item := Rep p 1 (Some 1).

Definition Chr (c : ascii) : item := Cls (eqc c).

(** A literal character under the [i] flag. *)
Definition Chr_i (c : ascii) : item := Cls (eqc_i c).

Fixpoint lit_i (s : string) : regex :=
  match s with
  | EmptyString => []
  | String c r => Chr_i c :: lit_i r
  end.

(** [.] matches everything but a line terminator. *)
Definition dot (c : ascii) : bool := negb (isLineTerminator c).

(** Number of leading characters of [s] in [cls], at most [hi]. *)
Fixpoint runLength (cls : ascii -> bool) (hi : option nat) (s : string) : nat :=
  match s with
  | String c r =>
      if cls c then
        match hi with
        | Some 0 => 0
        | Some (S h) => S (runLength cls (Some h) r)
        | None => S (runLength cls None r)
        end
      else 0
  | EmptyString => 0
  end.

(** The character before the position reached after [k] more characters. *)
Fixpoint prevAfter (k : nat) (prev : option ascii) (s : string) : option ascii :=
  match k, s with
  | S k', String c r => prevAfter k' (Some c) r
  | _, _ => prev
  end.

Definition wordBefore (prev : option ascii) : bool :=
  match prev with Some c => isWordChar c | None => false end.

Definition wordAfter (s : string) : bool :=
  match s with String c _ => isWordChar c | EmptyString => false end.

Definition zeroWidth (m : option (list string * string)) : option (list string * string) :=
  match m with
  | Some (ps, rest) => Some (EmptyString :: ps, rest)
  | None => None
  end.

(** A greedy quantifier: try [k] characters, then fewer, down to [lo];
    [cont j] matches the rest of the pattern after [j] characters. *)
Fixpoint tryCounts (k lo : nat) (cont : nat -> option (list string * string))
    (s : string) : option (list string * string) :=
  if k <? lo then None
  else match cont k with
       | Some (ps, rest) => Some (stake k s :: ps, rest)
       | None => match k with 0 => None | S k' => tryCounts k' lo cont s end
       end.

(** Match [r] at the current position: [prev] is the character before it
    ([None] at the start of the input), [s] the input from it on.  The result
    is the text matched by each item and the input left.  Quantifiers are
    greedy: the longest run is tried first, then shorter ones. *)
Fixpoint matchAt (r : regex) (prev : option ascii) (s : string) {struct r}
  : option (list string * string) :=
  match r with
  | [] => Some ([], s)
  | Bol :: r' =>
      match prev with
      | None => zeroWidth (matchAt r' prev s)
      | Some _ => None
      end
  | Eol :: r' => if isEmpty s then zeroWidth (matchAt r' prev s) else None
  | WordB :: r' =>
      if xorb (wordBefore prev) (wordAfter s)
      then zeroWidth (matchAt r' prev s) else None
  | Rep cls lo hi :: r' =>
      tryCounts (runLength cls hi s) lo
                (fun k => matchAt r' (prevAfter k prev s) (sdrop k s)) s
  end.

(** Leftmost match: the text before it, the pieces, the text after it. *)
Fixpoint search (r : regex) (prev : option ascii) (s : string)
  : option (string * list string * string) :=
  match matchAt r prev s with
  | Some (ps, rest) => Some (EmptyString, ps, rest)
  | None =>
      match s with
      | EmptyString => None
      | String c s' =>
          match search r (Some c) s' with
          | Some (pre, ps, rest) => Some (String c pre, ps, rest)
          | None => None
          end
      end
  end.

(** [r.test(s)] *)
Definition test (r : regex) (s : string) : bool :=
  match search r None s with Some _ => true | None => false end.

(** [r.exec(s)]: the pieces of the leftmost match. *)
Definition exec (r : regex) (s : string) : option (list string) :=
  match search r None s with Some (_, ps, _) => Some ps | None => None end.

(** [s.replace(r, by)] without the [g] flag: the leftmost match only. *)
Definition replace (r : regex) (by_ : string) (s : string) : string :=
  match search r None s with
  | Some (pre, _, rest) => pre ++ by_ ++ rest
  | None => s
  end.

(** [s.replace(r, by)] with the [g] flag.  [skip] counts the characters
    still inside the last match; after an empty match the scan moves on by
    one character. *)
Fixpoint replaceFrom (r : regex) (by_ : string) (prev : option ascii)
    (s : string) (skip : nat) {struct s} : string :=
  match skip with
  | S k =>
      match s with
      | EmptyString => EmptyString
      | String c s' => replaceFrom r by_ (Some c) s' k
      end
  | 0 =>
      match matchAt r prev s with
      | Some (_, rest) =>
          by_ ++
          match s with
          | EmptyString => EmptyString
          | String c s' =>
              match length s - length rest with
              | 0 => String c (replaceFrom r by_ (Some c) s' 0)
              | S k => replaceFrom r by_ (Some c) s' k
              end
          end
      | None =>
          match s with
          | EmptyString => EmptyString
          | String c s' => String c (replaceFrom r by_ (Some c) s' 0)
          end
      end
  end.

Definition replaceAll (r : regex) (by_ : string) (s : string) : string :=
  replaceFrom r by_ None s 0.

End RegExp.

(* ===================================================================== *)
(** * The host: objects used as dictionaries                              *)
(* ===================================================================== *)

Module Obj.
Import JS.

(** Own enumerable properties with string keys, in the order [Object.keys]
    and [for ... in] list them: array-index keys first, by ascending value,
    then the other keys by creation. *)
Definition obj (V : Type) := list (string * V).

Section Ops.
Context {V : Type}.

Fixpoint get (o : obj V) (k : string) : option V :=
  match o with
  | [] => None
  | (k', v) :: o' => if String.eqb k' k then Some v else get o' k
  end.

Definition keys (o : obj V) : list string := map fst o.

Definition values (o : obj V) : list V := map snd o.

(** A key is an array index when it is the canonical decimal form of an
    integer below 2^32 - 1. *)
Definition arrayIndex (k : string) : option N :=
  match k with
  | EmptyString => None
  | String c r =>
      if sforall isDigit k && (negb (Ascii.eqb c "0") || isEmpty r)
         && (digitsVal k <? 4294967295)%N
      then Some (digitsVal k) else None
  end.

Fixpoint insertIndex (n : N) (k : string) (v : V) (o : obj V) : obj V :=
  match o with
  | [] => [(k, v)]
  | (k', v') :: o' =>
      match arrayIndex k' with
      | Some n' => if (n' <? n)%N then (k', v') :: insertIndex n k v o'
                   else (k, v) :: o
      | None => (k, v) :: o
      end
  end.

Fixpoint update (o : obj V) (k : string) (v : V) : obj V :=
  match o with
  | [] => []
  | (k', v') :: o' =>
      if String.eqb k' k then (k', v) :: o' else (k', v') :: update o' k v
  end.

(** [o[k] = v] *)
Definition set (o : obj V) (k : string) (v : V) : obj V :=
  match get o k with
  | Some _ => update o k v
  | None =>
      match arrayIndex k with
      | Some n => insertIndex n k v o
      | None => (o ++ [(k, v)])%list
      end
  end.

(** [{ ...a, ...b }] *)
Definition spread (a b : obj V) : obj V :=
  fold_left (fun o kv => set o (fst kv) (snd kv)) (a ++ b)%list [].

End Ops.

(** Names every object inherits from [Object.prototype]; reading one of
    them on an object without such an own property gives a function (or,
    for [__proto__], the prototype), not [undefined]. *)
Definition prototypeNames : list string :=
  [ "constructor"; "__defineGetter__"; "__defineSetter__"; "hasOwnProperty";
    "__lookupGetter__"; "__lookupSetter__"; "isPrototypeOf";
    "propertyIsEnumerable"; "toString"; "valueOf"; "__proto__";
    "toLocaleString" ].

Definition inherited (k : string) : bool :=
  existsb (String.eqb k) prototypeNames.

End Obj.

(* ===================================================================== *)
(** * src/script.js                                                       *)
(* ===================================================================== *)

Import JS RegExp Obj.

(** ** CSV adapter helpers *)

(** [/^\(.*\)$/] *)
Definition re_parenNeg : regex :=
  [Bol; Chr "("; Rep dot 0 None; Chr ")"; Eol].

(** [/[,$]/g] *)
Definition re_commaDollar : regex :=
  [Cls (fun c => eqc c "," || eqc c "$")].

(** [/[()]/g] *)
Definition re_parens : regex :=
  [Cls (fun c => eqc c "(" || eqc c ")")].

(** [/^\d{4}-\d{2}-\d{2}$/] *)
Definition re_iso : regex :=
  [Bol; Rep isDigit 4 (Some 4); Chr "-"; Rep isDigit 2 (Some 2); Chr "-";
   Rep isDigit 2 (Some 2); Eol].

(** [/^(\d{1,2})\/(\d{1,2})\/(\d{4})$/]: the groups are items 1, 3 and 5. *)
Definition re_mdy : regex :=
  [Bol; Rep isDigit 1 (Some 2); Chr "/"; Rep isDigit 1 (Some 2); Chr "/";
   Rep isDigit 4 (Some 4); Eol].

(** [/PURCHASE AUTHORIZED ON \d{2}\/\d{2}/i] *)
Definition re_purchase : regex :=
  (lit_i "PURCHASE AUTHORIZED ON " ++
   [Rep isDigit 2 (Some 2); Chr_i "/"; Rep isDigit 2 (Some 2)])%list.

(** [/CARD \d+/i] *)
Definition re_card : regex :=
  (lit_i "CARD " ++ [Rep isDigit 1 None])%list.

(** [/\s{2,}/g] *)
Definition re_spaces : regex := [Rep isWhiteSpace 2 None].

Definition dquote : ascii := Eval cbv in ascii_of_nat 34.

(** The pattern that is one double-quote character, with the [g] flag. *)
Definition re_quote : regex := [Chr dquote].

(** [/[^A-Z0-9 ]/g] *)
Definition re_notAlnumSpace : regex :=
  [Cls (fun c => negb (isUpper c || isDigit c || eqc c " "))].

(** [/^\d+$/] *)
Definition re_allDigits : regex := [Bol; Rep isDigit 1 None; Eol].

(** [raw] is a cell, [None] when it is [null] or [undefined]. *)
Definition normalizeAmount (raw : option string) : number :=
  match raw with
  | None => zero
  | Some raw =>
      let s := trim raw in
      let parenNeg := test re_parenNeg s in
      let s := replaceAll re_parens "" (replaceAll re_commaDollar "" s) in
      let n := parseFloat (if isEmpty s then "0" else s) in
      if isNaN n then zero
      else if parenNeg then negAbs n else n
  end.

Definition normalizeDate (raw : option string) : string :=
  match raw with
  | None => ""
  | Some raw =>
      if isEmpty raw then ""
      else
        let s := trim raw in
        if test re_iso s then s
        else match exec re_mdy s with
             | Some m =>
                 let mm := padStart2 (nth 1 m "") in
                 let dd := padStart2 (nth 3 m "") in
                 let yyyy := nth 5 m "" in
                 yyyy ++ "-" ++ mm ++ "-" ++ dd
             | None => s
             end
  end.

(** [String(desc || '')] *)
Definition orEmpty (x : option string) : string :=
  match x with Some s => s | None => "" end.

Definition cleanDesc (desc : option string) : string :=
  toUpperCase
    (trim
       (replaceAll re_spaces " "
          (replace re_card ""
             (replace re_purchase "" (orEmpty desc))))).

Inductive Profile :=
| YourBank_NoHeader_5Cols
| USBank_WithHeaders
| USBank_NoHeaderBody
| Unknown.

(** [String(firstRow[i] || '')] with every double quote removed, trimmed. *)
Definition cell (firstRow : list string) (i : nat) : string :=
  trim (replaceAll re_quote "" (orEmpty (nth_error firstRow i))).

(** [firstRow] is [None] when the preview parse gave no row. *)
Definition detectProfile (firstRow : option (list string)) : Profile :=
  match firstRow with
  | None => Unknown
  | Some firstRow =>
      if List.length firstRow <? 3 then Unknown
      else
        let c0 := cell firstRow 0 in
        let c1 := cell firstRow 1 in
        let c2 := cell firstRow 2 in
        let c3 := cell firstRow 3 in
        let c4 := cell firstRow 4 in
        if String.eqb (toLowerCase c0) "date"
           && String.eqb (toLowerCase c1) "transaction"
           && String.eqb (toLowerCase c2) "name"
           && String.eqb (toLowerCase c3) "memo"
           && String.eqb (toLowerCase c4) "amount"
        then USBank_WithHeaders
        else
          let looksMDY := test re_mdy c0 in
          if looksMDY && String.eqb c2 "*" then YourBank_NoHeader_5Cols
          else
            let looksISO := test re_iso c0 in
            if looksISO && (5 <=? List.length firstRow) then USBank_NoHeaderBody
            else Unknown
  end.

(** ** Canonical transactions and the row mapper of [handleCSV] *)

(** A row as the mapper builds it: the Amount is a number. *)
Record Transaction := mkTransaction {
  Date : string;
  Amount : number;
  Description : string
}.

Definition mapRow (profile : Profile) (r : list string) : Transaction :=
  let c0 := nth_error r 0 in
  let c1 := nth_error r 1 in
  let c2 := nth_error r 2 in
  let c3 := nth_error r 3 in
  let c4 := nth_error r 4 in
  match profile with
  | YourBank_NoHeader_5Cols =>
      mkTransaction (normalizeDate c0) (normalizeAmount c1) (cleanDesc c4)
  | USBank_WithHeaders | USBank_NoHeaderBody =>
      let name := orEmpty c2 in
      let memo := orEmpty c3 in
      mkTransaction (normalizeDate c0) (normalizeAmount c4)
                    (cleanDesc (Some (trim (name ++ " " ++ memo))))
  | Unknown =>
      mkTransaction (normalizeDate c0) (normalizeAmount c1)
                    (cleanDesc (Some (orEmpty c2 ++ " " ++ orEmpty c3 ++ " " ++ orEmpty c4)))
  end.

(** ** Categorizer *)

(** SyntaxCharacter of the pattern grammar. *)
Definition isSyntaxChar (c : ascii) : bool :=
  existsb (eqc c)
    ["^"; "$"; "\"; "."; "*"; "+"; "?"; "("; ")"; "["; "]"; "{"; "}"; "|"]%char.

Definition isParen (c : ascii) : bool := eqc c "(" || eqc c ")".

(** Every [(] has its [)] and no [)] comes first. *)
Fixpoint balanced (depth : nat) (s : string) : bool :=
  match s with
  | EmptyString => depth =? 0
  | String c r =>
      if eqc c "(" then balanced (S depth) r
      else if eqc c ")" then
        match depth with 0 => false | S d => balanced d r end
      else balanced depth r
  end.

(** The stricter cleaning pass of [categorizeTransactions]. *)
Definition strictClean (description : string) : string :=
  trim
    (replaceAll re_notAlnumSpace ""
       (toUpperCase
          (replaceAll re_spaces " "
             (replace re_card ""
                (replace re_purchase "" description))))).

(** Stable sort by descending length: [sort((a, b) => b.length - a.length)]. *)
Fixpoint insertByLength (k : string) (l : list string) : list string :=
  match l with
  | [] => [k]
  | k' :: l' =>
      if length k <? length k' then k' :: insertByLength k l'
      else k :: l
  end.

Definition sortByLengthDesc (l : list string) : list string :=
  fold_right insertByLength [] l.

Definition Groups := obj (list Transaction).

(** [if (!categorized[category]) categorized[category] = [];
     categorized[category].push(t)].  When [category] names a member of
    [Object.prototype] and no group, the test reads that member, no group is
    created, and calling its missing [push] throws. *)
Definition pushTo (categorized : Groups) (category : string) (t : Transaction)
  : completion Groups :=
  match get categorized category with
  | Some l => Normal (set categorized category (l ++ [t])%list)
  | None =>
      if inherited category then Throw TypeError
      else Normal (set categorized category [t])
  end.

Section Categorizer.

(** [new RegExp(p, 'i')] followed by [test], for the patterns this file does
    not parse itself: [None] is a SyntaxError. *)
Variable hostRegExp : string -> option (string -> bool).

(** The base table [CATEGORIES], defined by the embedding page. *)
Variable CATEGORIES : obj string.

(** [new RegExp(`\\b${body}\\b`, 'i')].  A body of pattern characters and
    parentheses is parsed here: it is a syntax error unless the parentheses
    balance, and the groups then match what they enclose.  A body with any
    other syntax character is left to the host. *)
Definition newRegExp_wordBounded (body : string) : completion (string -> bool) :=
  if sforall (fun c => negb (isSyntaxChar c) || isParen c) body then
    if balanced 0 body
    then Normal (test ([WordB] ++ lit_i (sfilter (fun c => negb (isParen c)) body)
                         ++ [WordB])%list)
    else Throw SyntaxError
  else
    match hostRegExp ("\b" ++ body ++ "\b") with
    | Some t => Normal t
    | None => Throw SyntaxError
    end.

(** [allCats[keyword]] *)
Definition categoryAt (allCats : obj string) (keyword : string) : string :=
  match get allCats keyword with Some c => c | None => "undefined" end.

(** The [for (const keyword of sortedKeywords)] loop. *)
Fixpoint firstMatch (allCats : obj string) (sortedKeywords : list string)
    (desc : string) : completion string :=
  match sortedKeywords with
  | [] => Normal "Uncategorized"
  | keyword :: rest =>
      let keywordUpper := toUpperCase keyword in
      bind (newRegExp_wordBounded keywordUpper) (fun pattern =>
        if pattern desc then Normal (categoryAt allCats keyword)
        else firstMatch allCats rest desc)
  end.

(** The category chosen for one row. *)
Definition categoryOf (allCats : obj string) (sortedKeywords : list string)
    (desc : string) (amount : number) : completion string :=
  if gt amount zero then Normal "Income"
  else firstMatch allCats sortedKeywords desc.

(** The category of a row, as [categorizeRow] computes it. *)
Definition rowCategory (allCats : obj string) (sortedKeywords : list string)
    (row : Transaction) : completion string :=
  categoryOf allCats sortedKeywords
             (strictClean (Description row)) (parseFloatOfNumber (Amount row)).

(** The body of [data.forEach]. *)
Definition categorizeRow (allCats : obj string) (sortedKeywords : list string)
    (categorized : Groups) (row : Transaction) : completion Groups :=
  let desc := strictClean (Description row) in
  let amount := parseFloatOfNumber (Amount row) in
  bind (categoryOf allCats sortedKeywords desc amount) (fun category =>
    pushTo categorized category (mkTransaction (Date row) amount desc)).

Fixpoint forEach {S A} (f : S -> A -> completion S) (l : list A) (s : S)
  : completion S :=
  match l with
  | [] => Normal s
  | a :: l' => bind (f s a) (forEach f l')
  end.

(** [custom] is what [getCustomCategories()] returns. *)
Definition categorizeTransactions (custom : obj string) (data : list Transaction)
  : completion Groups :=
  let allCats := spread CATEGORIES custom in
  let sortedKeywords := sortByLengthDesc (keys allCats) in
  forEach (categorizeRow allCats sortedKeywords) data [].

End Categorizer.

(** ** The handler of the Assign Selected button *)

(** The [dataset] of a checked [txn-select] box; [amt] is the number the
    renderer stored there. *)
Record Checkbox := mkCheckbox {
  desc : string;
  date : string;
  amt : number
}.

(** What the handler reads from the page, and the reply to [prompt]
    ([None] when the dialog is dismissed). *)
Record Page := mkPage {
  selectedRows : list Checkbox;
  dropdown_value : string;
  input_value : string;
  prompt_reply : option string
}.

(** What the handler can change: the [customCategories] item of
    [localStorage] ([None] when never written), held as the object its JSON
    text encodes, and the groups on display. *)
Record State := mkState {
  customCategories : option (obj string);
  categorized : Groups
}.

Inductive Outcome :=
| Alerted (msg : string)
| Displayed
| Uncaught (e : error).

Definition getCustomCategories (st : State) : obj string :=
  match customCategories st with Some o => o | None => [] end.

Definition saveCustomCategories (data : obj string) (st : State) : State :=
  mkState (Some data) (categorized st).

(** The keywords kept from the reply. *)
Definition keywordOk (k : string) : bool :=
  (3 <=? length k) && negb (test re_allDigits k).

Definition keywordsOf (rawInput : string) : list string :=
  filter keywordOk (map (fun k => toUpperCase (trim k)) (split "," rawInput)).

(** The [some] test of the removal loop. *)
Definition selectedHas (rows : list Checkbox) (txn : Transaction) : bool :=
  existsb (fun input => String.eqb (desc input) (Description txn)
                        && String.eqb (date input) (Date txn)) rows.

(** The record pushed for a checked box. *)
Definition pushed (input : Checkbox) : Transaction :=
  mkTransaction (date input) (parseFloatOfNumber (amt input)) (desc input).

(** Move selected transactions. *)
Definition pushSelected (chosenCategory : string) (rows : list Checkbox)
    (g : Groups) : completion Groups :=
  forEach (fun g input => pushTo g chosenCategory (pushed input)) rows g.

(** Remove from old category. *)
Definition removeSelected (chosenCategory : string) (rows : list Checkbox)
    (g : Groups) : Groups :=
  map (fun kv =>
         if String.eqb (fst kv) chosenCategory then kv
         else (fst kv, filter (fun txn => negb (selectedHas rows txn)) (snd kv)))
      g.

(** The two loops that move the selection, the reassignment proper. *)
Definition reassign (chosenCategory : string) (rows : list Checkbox)
    (g : Groups) : completion Groups :=
  bind (pushSelected chosenCategory rows g) (fun g =>
    Normal (removeSelected chosenCategory rows g)).

(** [assignBtn.onclick].  The phrases suggested in the prompt are computed
    from the selection and change no state; the reply is the user's.
    [populateDropdown] and [displayResults] redraw the page from the state. *)
Definition assignBtn_onclick (page : Page) (st : State) : Outcome * State :=
  match selectedRows page with
  | [] => (Alerted "Please select at least one transaction.", st)
  | _ =>
      let isNew := String.eqb (dropdown_value page) "New Category..." in
      let newCatName := trim (input_value page) in
      if isNew && isEmpty newCatName
      then (Alerted "Please enter a new category name.", st)
      else
        let chosenCategory := if isNew then newCatName else dropdown_value page in
        match prompt_reply page with
        | None => (Alerted "You must enter at least one keyword.", st)
        | Some rawInput =>
            if isEmpty rawInput
            then (Alerted "You must enter at least one keyword.", st)
            else
              let keywords := keywordsOf rawInput in
              let custom :=
                fold_left (fun custom keyword => set custom keyword chosenCategory)
                          keywords (getCustomCategories st) in
              let st1 := saveCustomCategories custom st in
              match reassign chosenCategory (selectedRows page) (categorized st1) with
              | Throw e => (Uncaught e, st1)
              | Normal g => (Displayed, mkState (customCategories st1) g)
              end
        end
  end.

(** ** The merged table *)

Section Tables.
Variable CATEGORIES : obj string.

Definition getAllCategories (st : State) : obj string :=
  let baseCategories := CATEGORIES in
  let custom := getCustomCategories st in
  spread baseCategories custom.

End Tables.

(** ** The phrases suggested in the prompt of the handler *)

(** [l.join(sep)] *)
Fixpoint join (sep : string) (l : list string) : string :=
  match l with
  | [] => ""
  | x :: r => match r with
              | [] => x
              | _ => x ++ sep ++ join sep r
              end
  end.

(** [desc.split(' ').slice(0, 3).join(' ')]: the first three words. *)
Definition phraseOf (desc : string) : string :=
  join " " (firstn 3 (split " " desc)).

(** [phrase.length >= 4 && !/^\d+$/.test(phrase)] *)
Definition phraseOk (phrase : string) : bool :=
  (4 <=? length phrase) && negb (test re_allDigits phrase).

(** [phraseCounts[phrase] = (phraseCounts[phrase] || 0) + 1].  The counts
    are whole numbers far below 2^53, held here as natural numbers.  For a
    phrase that names a member of [Object.prototype] and has no count yet,
    the value read is that member, the sum is a text and the order of the
    later sort is the implementation's: this is [None], outside what is
    modelled. *)
Definition countPhrase (phraseCounts : obj nat) (phrase : string)
  : option (obj nat) :=
  match get phraseCounts phrase with
  | Some n => Some (set phraseCounts phrase (n + 1))
  | None =>
      if inherited phrase then None
      else Some (set phraseCounts phrase 1)
  end.

(** The body of [selectedRows.forEach] that counts the phrases. *)
Definition countRow (phraseCounts : option (obj nat)) (input : Checkbox)
  : option (obj nat) :=
  match phraseCounts with
  | None => None
  | Some pc =>
      let phrase := phraseOf (desc input) in
      if phraseOk phrase then countPhrase pc phrase else Some pc
  end.

Definition phraseCountsOf (rows : list Checkbox) : option (obj nat) :=
  fold_left countRow rows (Some []).

(** Stable sort by descending count: [sort((a, b) => b[1] - a[1])]. *)
Fixpoint insertByCount (e : string * nat) (l : list (string * nat))
  : list (string * nat) :=
  match l with
  | [] => [e]
  | e' :: l' =>
      if snd e <? snd e' then e' :: insertByCount e l'
      else e :: l
  end.

Definition sortByCountDesc (l : list (string * nat)) : list (string * nat) :=
  fold_right insertByCount [] l.

(** [Object.entries(phraseCounts).sort(...).map(entry => entry[0]).slice(0, 5)] *)
Definition topPhrases (rows : list Checkbox) : option (list string) :=
  match phraseCountsOf rows with
  | Some phraseCounts => Some (firstn 5 (map fst (sortByCountDesc phraseCounts)))
  | None => None
  end.

(** The text the prompt is filled with: [topPhrases[0] || '']. *)
Definition promptDefault (topPhrases : list string) : string :=
  match topPhrases with
  | p :: _ => p
  | [] => ""
  end.

(** ** displayResults: the dropdown, the order of the groups, the sums *)

(** [[...new Set(l)]]: the first occurrence of each value, in order. *)
Fixpoint uniq (seen : list string) (l : list string) : list string :=
  match l with
  | [] => []
  | x :: r =>
      if existsb (String.eqb x) seen then uniq seen r
      else x :: uniq (x :: seen) r
  end.

Section Display.

Variable CATEGORIES : obj string.

(** [populateDropdown]: the values of the options. *)
Definition populateDropdown (st : State) : list string :=
  uniq [] (values (getAllCategories CATEGORIES st) ++ ["New Category..."])%list.

(** [a.localeCompare(b)], the collation order of the host's locale: a
    parameter. *)
Variable localeCompare : string -> string -> Z.

(** The comparison function of the sort of the categories. *)
Definition compareCategories (a b : string) : Z :=
  if String.eqb a "Uncategorized" then 1%Z
  else if String.eqb b "Uncategorized" then (-1)%Z
  else localeCompare a b.

(** [Object.keys(categorized).sort(compareCategories)], the stable sort the
    host makes with a comparison that orders the keys. *)
Fixpoint insertCategory (c : string) (l : list string) : list string :=
  match l with
  | [] => [c]
  | c' :: l' =>
      if (0 <? compareCategories c c')%Z then c' :: insertCategory c l'
      else c :: l
  end.

Definition sortCategories (l : list string) : list string :=
  fold_right insertCategory [] l.

Definition displayedCategories (categorized : Groups) : list string :=
  sortCategories (keys categorized).

End Display.

(** [a + b] and [a < b] on numbers. *)
Definition num_add (a b : number) : number := SFadd 53 1024 a b.

Definition num_lt (a b : number) : bool := SFltb a b.

Record Summary := mkSummary {
  income : number;
  expenses : number
}.

(** [if (txn.Amount > 0) summary.income += txn.Amount;
     if (txn.Amount < 0) summary.expenses += txn.Amount;] *)
Definition addToSummary (summary : Summary) (txn : Transaction) : Summary :=
  let summary :=
    if gt (Amount txn) zero
    then mkSummary (num_add (income summary) (Amount txn)) (expenses summary)
    else summary in
  if num_lt (Amount txn) zero
  then mkSummary (income summary) (num_add (expenses summary) (Amount txn))
  else summary.

(** The summary after the tables of [categories] were drawn, in that
    order. *)
Definition summaryOf (categories : list string) (categorized : Groups) : Summary :=
  fold_left
    (fun summary category =>
       fold_left addToSummary
                 (match get categorized category with Some l => l | None => [] end)
                 summary)
    categories (mkSummary zero zero).

(** [summary.income + summary.expenses] *)
Definition net (summary : Summary) : number :=
  num_add (income summary) (expenses summary).

(** ** handleCSV *)

(** What an import ends with: the alert that no rows were found, or the
    mapped rows, stored as last-transactions, and what the categorizer made
    of them, which is put on display when it returns. *)
Inductive Import :=
| NoRows
| Imported (mapped : list Transaction) (categorized : completion Groups).

Section HandleCSV.

Variable hostRegExp : string -> option (string -> bool).
Variable CATEGORIES : obj string.

(** [previewData] and [fullData] are the rows the two runs of the CSV
    parser give, the first on one row, the second on the file without its
    empty lines. *)
Definition handleCSV (previewData fullData : list (list string)) (st : State)
  : Import :=
  let firstRow := hd_error previewData in
  let profile := detectProfile firstRow in
  let rows := fullData in
  match rows with
  | [] => NoRows
  | _ =>
      let rows :=
        match profile with
        | USBank_WithHeaders => tl rows
        | _ => rows
        end in
      let mapped := map (mapRow profile) rows in
      Imported mapped
               (categorizeTransactions hostRegExp CATEGORIES
                                       (getCustomCategories st) mapped)
  end.

End HandleCSV.

(** The checkbox [displayResults] draws in the row of a transaction: its
    [dataset] holds the description, the date and the amount. *)
Definition checkboxOf (txn : Transaction) : Checkbox :=
  mkCheckbox (Description txn) (Date txn) (Amount txn).


(* ===================================================================== *)
(** * Notions used by the properties                                      *)
(* ===================================================================== *)

(** [t] is listed in the group of [c]. *)
Definition InGroup (g : Groups) (c : string) (t : Transaction) : Prop :=
  exists l, get g c = Some l /\ In t l.

(** The record [categorizeTransactions] files for a row. *)
Definition cleaned (row : Transaction) : Transaction :=
  mkTransaction (Date row) (parseFloatOfNumber (Amount row))
                (strictClean (Description row)).

(** Building the pattern of one keyword and running it on a description:
    the test the keyword loop makes. *)
Definition keywordTest (hostRegExp : string -> option (string -> bool))
    (keyword desc : string) : completion bool :=
  bind (newRegExp_wordBounded hostRegExp (toUpperCase keyword))
       (fun pattern => Normal (pattern desc)).

(** Order of the sorted keywords: no later keyword is longer. *)
Definition lengthDesc (a b : string) : Prop := length b <= length a.

(** Sample data: a base table, a purchase and a salary. *)
Definition noHost : string -> option (string -> bool) := fun _ => None.

Definition sampleCategories : obj string :=
  [ ("FOODS", "Dining");
    ("WHOLE FOODS", "Groceries");
    ("WHOLE FOODS MARKET", "Supermarket") ].

Definition samplePurchase : Transaction :=
  mkTransaction "2024-03-04" (parseFloat "-54.10") "WHOLE FOODS MARKET 0412".

Definition sampleSalary : Transaction :=
  mkTransaction "2024-03-01" (parseFloat "1500.00") "PAYROLL DEPOSIT".

Definition sampleCoffee : Transaction :=
  mkTransaction "2024-03-05" (parseFloat "-4.50") "ACME COFFEE SHOP".

Definition twoKeywords : obj string :=
  [ ("FOODS", "Dining"); ("WHOLE FOODS", "Groceries") ].

(** The custom table after the reply "(ab" to the prompt of the handler:
    the keyword is kept by the filter and saved in upper case. *)
Definition parenStore : obj string := [ ("(AB", "Misc") ].

(** The two keywords, and a longer one with a parenthesis left open. *)
Definition organicStore : obj string :=
  [ ("FOODS", "Dining");
    ("WHOLE FOODS", "Groceries");
    ("WHOLE FOODS (ORGANIC", "Organic") ].

(** A reassignment whose reply to the prompt is an opening parenthesis and
    two letters. *)
Definition parenPage : Page :=
  mkPage [mkCheckbox "ACME COFFEE SHOP" "2024-03-05" (parseFloat "-4.50")]
         "Misc" "" (Some "(ab").

Definition freshState : State :=
  mkState None [("Uncategorized", [sampleCoffee])].

(** The pair by which the removal loop recognises a transaction. *)
Definition key (t : Transaction) : string * string := (Date t, Description t).

Definition boxKey (input : Checkbox) : string * string := (date input, desc input).

(** No transaction is listed in two groups. *)
Definition oneGroupPerTransaction (g : Groups) : Prop :=
  forall t c c', InGroup g c t -> InGroup g c' t -> c = c'.

(** C3 as the specification words it: after the reassignment every
    transaction that was in some group is in exactly one. *)
Definition staysInOneGroup (g : Groups) (rows : list Checkbox)
    (target : string) : Prop :=
  rows <> [] ->
  forall g', reassign target rows g = Normal g' ->
  forall t, (exists c, InGroup g c t) ->
            exists c, InGroup g' c t /\ forall c', InGroup g' c' t -> c' = c.

(** A (Date, Description) pair belongs to one transaction, listed in one
    group: two listed transactions with the same pair are the same
    transaction in the same group. *)
Definition onePlacePerPair (g : Groups) : Prop :=
  forall c c' t t',
    InGroup g c t -> InGroup g c' t' -> key t = key t' -> t = t' /\ c = c'.

(** No Amount listed is the negative zero.  The categorizer and the
    reassignment store what [parseFloat] reads from the printed number,
    and a zero is printed without its sign. *)
Definition noNegativeZero (g : Groups) : Prop :=
  forall c t, InGroup g c t -> Amount t <> S754_zero true.

(** Every transaction of [sel] is listed in some group. *)
Definition listed (g : Groups) (sel : list Transaction) : Prop :=
  forall t, In t sel -> exists c, InGroup g c t.

(** A deposit and a withdrawal of the same day with the same description,
    as the categorizer groups them. *)
Definition transferIn : Transaction :=
  mkTransaction "2024-03-07" (parseFloat "100.00") "TRANSFER".

Definition transferOut : Transaction :=
  mkTransaction "2024-03-07" (parseFloat "-100.00") "TRANSFER".

Definition transferGroups : Groups :=
  [("Income", [transferIn]); ("Transfers", [transferOut])].

Definition transferInBox : Checkbox :=
  mkCheckbox "TRANSFER" "2024-03-07" (parseFloat "100.00").

Definition coffeeBox : Checkbox :=
  mkCheckbox "ACME COFFEE SHOP" "2024-03-05" (parseFloat "-4.50").

(** The purchase, the salary and the coffee, as the categorizer groups
    them with the sample table. *)
Definition threeGroups : Groups :=
  [ ("Supermarket", [samplePurchase]);
    ("Income", [sampleSalary]);
    ("Uncategorized", [sampleCoffee]) ].

(** ** What a pattern matches *)

(** The character before the position reached after the text [m]. *)
Fixpoint lastOr (prev : option ascii) (m : string) : option ascii :=
  match m with
  | EmptyString => prev
  | String c r => lastOr (Some c) r
  end.

Definition within (n : nat) (hi : option nat) : Prop :=
  match hi with Some h => n <= h | None => True end.

(** [Matches r prev s ps rest]: at a position preceded by [prev], the input
    [s] starts with a text matching [r] item by item, the pieces being [ps],
    and [rest] follows it.  No priority among the ways to match. *)
Inductive Matches : regex -> option ascii -> string -> list string -> string -> Prop :=
| M_end prev s : Matches [] prev s [] s
| M_Bol r s ps rest :
    Matches r None s ps rest ->
    Matches (Bol :: r) None s (EmptyString :: ps) rest
| M_Eol r prev ps rest :
    Matches r prev EmptyString ps rest ->
    Matches (Eol :: r) prev EmptyString (EmptyString :: ps) rest
| M_WordB r prev s ps rest :
    xorb (wordBefore prev) (wordAfter s) = true ->
    Matches r prev s ps rest ->
    Matches (WordB :: r) prev s (EmptyString :: ps) rest
| M_Rep cls lo hi r prev m s ps rest :
    sforall cls m = true ->
    lo <= length m ->
    within (length m) hi ->
    Matches r (lastOr prev m) s ps rest ->
    Matches (Rep cls lo hi :: r) prev (m ++ s) (m :: ps) rest.

(** The pattern [r] occurs in [pre ++ m ++ post] as the text [m]. *)
Definition OccursAt (r : regex) (pre m post : string) : Prop :=
  exists ps, Matches r (lastOr None pre) (m ++ post) ps post.

(** [r] occurs nowhere in [s]. *)
Definition Absent (r : regex) (s : string) : Prop :=
  forall pre m post, s = pre ++ m ++ post -> ~ OccursAt r pre m post.

(** The text of a match, from its pieces. *)
Fixpoint sconcat (ps : list string) : string :=
  match ps with
  | [] => EmptyString
  | p :: ps' => p ++ sconcat ps'
  end.

(** [pre ++ m ++ post] has its leftmost occurrence of [r] at [m]. *)
Definition Leftmost (r : regex) (pre m post : string) : Prop :=
  OccursAt r pre m post /\
  forall pre' m' post',
    pre ++ m ++ post = pre' ++ m' ++ post' ->
    OccursAt r pre' m' post' -> length pre <= length pre'.

(** ** Shapes of dates *)

Definition digits (s : string) : Prop := sforall isDigit s = true.

(** YYYY-MM-DD *)
Definition isoShape (s : string) : Prop :=
  exists y m d,
    s = y ++ "-" ++ m ++ "-" ++ d /\
    digits y /\ length y = 4 /\ digits m /\ length m = 2 /\ digits d /\ length d = 2.

(** M/D/YYYY or MM/DD/YYYY: a month [m] and a day [d] of one or two digits
    each, with or without a leading zero, and a year [y] of four. *)
Definition mdyShape (s m d y : string) : Prop :=
  s = m ++ "/" ++ d ++ "/" ++ y /\
  digits m /\ 1 <= length m <= 2 /\
  digits d /\ 1 <= length d <= 2 /\
  digits y /\ length y = 4.

(** A month or day padded with a zero to two digits. *)
Definition zeroPadded (m mm : string) : Prop :=
  (length m = 1 -> mm = "0" ++ m) /\ (length m = 2 -> mm = m).

(** C7 as the specification words it, for an input [raw] and the result. *)
Definition normalizeDateAsStated (raw result : string) : Prop :=
  (raw = "" -> result = "") /\
  (isoShape raw -> result = raw) /\
  (forall m d y, mdyShape raw m d y ->
     exists mm dd, zeroPadded m mm /\ zeroPadded d dd /\
                   result = y ++ "-" ++ mm ++ "-" ++ dd) /\
  (raw <> "" -> ~ isoShape raw -> (forall m d y, ~ mdyShape raw m d y) ->
   result = raw).

(** The same with the shapes read on the trimmed input, which is also what
    is returned when no shape applies. *)
Definition normalizeDateTrimmed (raw result : string) : Prop :=
  (raw = "" -> result = "") /\
  (raw <> "" -> isoShape (trim raw) -> result = trim raw) /\
  (raw <> "" -> forall m d y, mdyShape (trim raw) m d y ->
     exists mm dd, zeroPadded m mm /\ zeroPadded d dd /\
                   result = y ++ "-" ++ mm ++ "-" ++ dd) /\
  (raw <> "" -> ~ isoShape (trim raw) -> (forall m d y, ~ mdyShape (trim raw) m d y) ->
   result = trim raw).

(** ** The rules of the profile detector *)

Definition equalsIgnoreCase (a b : string) : Prop :=
  toLowerCase a = toLowerCase b.

(** Cell [i] of a row as the file has it, a missing cell being empty. *)
Definition rawCell (row : list string) (i : nat) : string := nth i row "".

(** The text of the cells the rules are applied to. *)
Definition Reading := list string -> nat -> string.

Definition isQuoteOrSpace (c : ascii) : bool := eqc c dquote || isWhiteSpace c.

Fixpoint stripStart (p : ascii -> bool) (s : string) : string :=
  match s with
  | EmptyString => EmptyString
  | String c r => if p c then stripStart p r else s
  end.

Fixpoint stripEnd (p : ascii -> bool) (s : string) : string :=
  match s with
  | EmptyString => EmptyString
  | String c r =>
      match stripEnd p r with
      | EmptyString => if p c then EmptyString else String c EmptyString
      | r' => String c r'
      end
  end.

(** The cells as the specification reads them: the double quotes and the
    white space around the text of the cell are stripped, at both ends. *)
Definition surroundingStripped : Reading :=
  fun row i => stripEnd isQuoteOrSpace (stripStart isQuoteOrSpace (rawCell row i)).

(** The cells with every double quote deleted, wherever it stands in the
    cell, and the white space then stripped at both ends. *)
Definition quotesDeleted : Reading :=
  fun row i => trim (sfilter (fun c => negb (eqc c dquote)) (rawCell row i)).

(** Rule 1: the five header names. *)
Definition headerRow (c : nat -> string) : Prop :=
  equalsIgnoreCase (c 0) "date" /\
  equalsIgnoreCase (c 1) "transaction" /\
  equalsIgnoreCase (c 2) "name" /\
  equalsIgnoreCase (c 3) "memo" /\
  equalsIgnoreCase (c 4) "amount".

(** Rule 2: a month/day/year date and a star in the third cell. *)
Definition yourBankRow (c : nat -> string) : Prop :=
  (exists m d y, mdyShape (c 0) m d y) /\ c 2 = "*".

(** Rule 3: an ISO date and at least five cells. *)
Definition usBankBodyRow (c : nat -> string) (n : nat) : Prop :=
  isoShape (c 0) /\ 5 <= n.

(** C6: the profile [p] the rules give a row whose cells are read by
    [reading], the first rule that applies. *)
Definition detectProfileRules (reading : Reading) (row : list string)
    (p : Profile) : Prop :=
  let c := reading row in
  let n := List.length row in
  (n < 3 -> p = Unknown) /\
  (3 <= n ->
     (headerRow c -> p = USBank_WithHeaders) /\
     (~ headerRow c -> yourBankRow c -> p = YourBank_NoHeader_5Cols) /\
     (~ headerRow c -> ~ yourBankRow c -> usBankBodyRow c n ->
      p = USBank_NoHeaderBody) /\
     (~ headerRow c -> ~ yourBankRow c -> ~ usBankBodyRow c n ->
      p = Unknown)).

(** A body row of the first bank with a double quote inside its date. *)
Definition interiorQuoteRow : list string :=
  [ "3/4/20" ++ String dquote "24"; "-12.00"; "*"; ""; "COFFEE SHOP" ].

(** The same row as a file quotes it: the quotes around the cells. *)
Definition quotedRow : list string :=
  [ String dquote ("3/4/2024" ++ String dquote ""); "-12.00";
    String dquote ("*" ++ String dquote ""); ""; "COFFEE SHOP" ].

(** ** The amount normalizer, in words *)

Definition lf : ascii := Eval cbv in ascii_of_nat 10.

(** Commas, dollar signs and parentheses removed. *)
Definition stripped (s : string) : string :=
  sfilter (fun c => negb (eqc c "," || eqc c "$" || eqc c "(" || eqc c ")")) s.

(** Fully wrapped in parentheses. *)
Definition wrapped (s : string) : Prop :=
  exists body, s = "(" ++ body ++ ")".

(** Fully wrapped in parentheses, with no line break inside. *)
Definition wrappedOnOneLine (s : string) : Prop :=
  exists body, s = "(" ++ body ++ ")" /\ sforall dot body = true.

(** Zero of either sign, the number that equals 0. *)
Definition isZero (n : number) : Prop := SFeqb n zero = true.

(** C8 as the specification words it, for a present input and the result:
    zero when what is left after stripping is empty or does not parse; else
    the number parsed, made negative when the value is wrapped in
    parentheses. *)
Definition normalizeAmountAsStated (raw : string) (result : number) : Prop :=
  let s := stripped (trim raw) in
  let n := parseFloat s in
  (isEmpty s = true \/ isNaN n = true -> isZero result) /\
  (isEmpty s = false -> isNaN n = false -> wrapped (trim raw) -> result = negAbs n) /\
  (isEmpty s = false -> isNaN n = false -> ~ wrapped (trim raw) -> result = n).

(** The same with the test for parentheses as the program makes it: on the
    trimmed value, before anything is stripped, and within one line. *)
Definition normalizeAmountRule (raw : string) (result : number) : Prop :=
  let s := stripped (trim raw) in
  let n := parseFloat s in
  (isEmpty s = true \/ isNaN n = true -> isZero result) /\
  (isEmpty s = false -> isNaN n = false -> wrappedOnOneLine (trim raw) ->
   result = negAbs n) /\
  (isEmpty s = false -> isNaN n = false -> ~ wrappedOnOneLine (trim raw) ->
   result = n).

(** An amount in parentheses that runs over two lines. *)
Definition twoLineAmount : string := "(1" ++ String lf "2)".

(** ** The cleaning passes, in words *)

(** A letter A to Z, a digit or a space: what the stricter pass keeps. *)
Definition isAlnumSpace (c : ascii) : bool :=
  isUpper c || isDigit c || eqc c " ".

(** The purchase boilerplate: the words, in any case, and a date of two
    digits, a slash and two digits. *)
Definition purchaseText (m : string) : Prop :=
  exists w d1 d2,
    m = w ++ d1 ++ "/" ++ d2 /\
    toUpperCase w = "PURCHASE AUTHORIZED ON " /\
    digits d1 /\ length d1 = 2 /\ digits d2 /\ length d2 = 2.

(** The card boilerplate: the word, in any case, a space and digits. *)
Definition cardText (m : string) : Prop :=
  exists w ds,
    m = w ++ ds /\ toUpperCase w = "CARD " /\ digits ds /\ 1 <= length ds.

(** [text] occurs somewhere in [s]. *)
Definition Contains (text : string -> Prop) (s : string) : Prop :=
  exists pre m post, s = pre ++ m ++ post /\ text m.

(** Two white-space characters in a row. *)
Definition twoSpaces (m : string) : Prop :=
  exists a b, m = String a (String b "") /\
              isWhiteSpace a = true /\ isWhiteSpace b = true.

(** C5 as the specification words it. *)
Definition strictCleanIdempotent : Prop :=
  forall s, strictClean (strictClean s) = strictClean s.

(** Not starting with white space. *)
Definition notStartsWs (s : string) : Prop :=
  match s with String c _ => isWhiteSpace c = false | EmptyString => True end.

(** [s'] is [s] without the first occurrence of [text]: the leftmost one
    and, where it starts, the longest; or [s] itself when there is none. *)
Definition RemovesFirst (text : string -> Prop) (s s' : string) : Prop :=
  (~ Contains text s /\ s' = s) \/
  (exists pre m post,
      s = pre ++ m ++ post /\ text m /\ s' = pre ++ post /\
      (forall pre' m' post', s = pre' ++ m' ++ post' -> text m' ->
                             length pre <= length pre') /\
      (forall m' post', m ++ post = m' ++ post' -> text m' ->
                        length m' <= length m)).

Definition wsHead (s : string) : bool :=
  match s with String c _ => isWhiteSpace c | EmptyString => false end.

(** Every run of two or more white-space characters replaced by one space;
    [inRun] tells that the run being read has been replaced already. *)
Fixpoint collapseRuns (inRun : bool) (s : string) : string :=
  match s with
  | EmptyString => EmptyString
  | String c r =>
      if isWhiteSpace c then
        if inRun then collapseRuns true r
        else if wsHead r then String " " (collapseRuns true r)
        else String c (collapseRuns false r)
      else String c (collapseRuns false r)
  end.

(** C9 as the specification words it: every occurrence of the two
    boilerplate patterns removed, then the runs collapsed, the ends trimmed
    and the whole put in upper case. *)
Definition cleanDescAllOccurrences (desc : string) : string :=
  toUpperCase
    (trim
       (replaceAll re_spaces " "
          (replaceAll re_card ""
             (replaceAll re_purchase "" desc)))).

Definition notStartsDigit (s : string) : Prop :=
  match s with String c _ => isDigit c = false | EmptyString => True end.

(** A reassignment whose reply to the prompt holds no keyword the filter
    keeps. *)
Definition shortReplyPage : Page :=
  mkPage [coffeeBox] "Misc" "" (Some "ab").

(** ** A keyword as a whole word *)

(** A word boundary between [prev] and the start of [s]. *)
Definition boundary (prev : option ascii) (s : string) : Prop :=
  xorb (wordBefore prev) (wordAfter s) = true.

(** [keyword] occurs in [desc], letters compared without regard to case,
    with a word boundary before and after it. *)
Definition wholeWord (keyword desc : string) : Prop :=
  exists pre m post,
    desc = pre ++ m ++ post /\
    toUpperCase m = toUpperCase keyword /\
    boundary (lastOr None pre) (m ++ post) /\
    boundary (lastOr None (pre ++ m)) post.

(** No character of the pattern syntax. *)
Definition plain (s : string) : bool :=
  sforall (fun c => negb (isSyntaxChar c)) s.

(** The final form of a description: letters A to Z, digits and single
    spaces, no space at either end, no boilerplate. *)
Definition finalForm (y : string) : Prop :=
  sforall isAlnumSpace y = true /\ trim y = y /\
  ~ Contains purchaseText y /\ ~ Contains cardText y /\ ~ Contains twoSpaces y.

(** ** Amounts in decimal notation *)

(** A digit, a comma or a dollar sign. *)
Definition isAmountChar (c : ascii) : bool :=
  isDigit c || eqc c "," || eqc c "$".

(** An amount as a bank writes it: an optional minus sign, an integer part
    [a] of digits with commas and dollar signs among them, an optional point
    and fraction digits, the whole in parentheses or not. *)
Definition fractionOf (frac : option string) : string :=
  match frac with Some fp => fp | None => "" end.

Definition amountText (paren neg : bool) (a : string) (frac : option string)
  : string :=
  let body :=
    (if neg then "-" else "") ++ a ++
    match frac with Some fp => "." ++ fp | None => "" end in
  if paren then "(" ++ body ++ ")" else body.

(** Not greater than zero: [n <= 0]. *)
Definition num_le (a b : number) : bool := SFleb a b.

(** A character of the ASCII set, which is what the bank exports hold. *)
Definition isAscii (c : ascii) : bool := code c <? 128.

(** Two white-space characters in a row somewhere in [s]. *)
Fixpoint adjacentWs (s : string) : bool :=
  match s with
  | String a ((String b _) as r) =>
      (isWhiteSpace a && isWhiteSpace b) || adjacentWs r
  | _ => false
  end.

(** The first cell of a row holds no double quote. *)
Definition firstCellUnquoted (r : list string) : Prop :=
  forall c0, nth_error r 0 = Some c0 ->
             sforall (fun c => negb (eqc dquote c)) c0 = true.

(** The shapes of the date the import recognises. *)
Definition recognisedDate (s : string) : Prop :=
  isoShape s \/ exists m d y, mdyShape s m d y.

(** ** The sign of a number *)

(** [x] is a zero, a finite number or an infinity of sign [sx] ([true] for
    minus); NaN has no sign. *)
Definition signed (sx : bool) (x : number) : Prop :=
  match x with
  | S754_zero s | S754_infinity s | S754_finite s _ _ => s = sx
  | S754_nan => False
  end.

(** [x] with the sign [sx]. *)
Definition withSign (sx : bool) (x : number) : number :=
  match x with
  | S754_zero _ => S754_zero sx
  | S754_infinity _ => S754_infinity sx
  | S754_finite _ m e => S754_finite sx m e
  | S754_nan => S754_nan
  end.

(** A row read as five cells: a missing cell counts as an empty one and
    the cells after the fifth are dropped. *)
Definition fiveCells (r : list string) : list string :=
  firstn 5 (r ++ repeat "" 5)%list.

(** ** Groups, as lists *)

(** The choice made for a row is the category [c]. *)
Definition hasCategory (c : string) (r : completion string) : bool :=
  match r with
  | Normal c' => String.eqb c' c
  | Throw _ => false
  end.

(** The rows of [data] that are given the category [c]. *)
Definition rowsOf (hostRegExp : string -> option (string -> bool))
    (allCats : obj string) (sortedKeywords : list string)
    (c : string) (data : list Transaction) : list Transaction :=
  filter (fun row => hasCategory c (rowCategory hostRegExp allCats sortedKeywords row))
         data.

(** The transactions listed under [c], none when there is no such group. *)
Definition groupOf (g : Groups) (c : string) : list Transaction :=
  match get g c with Some l => l | None => [] end.

(** All the transactions of all the groups. *)
Definition allListed (g : Groups) : list Transaction := List.concat (values g).

(** An object has each key once. *)
Definition wellFormed {V} (o : obj V) : Prop := NoDup (keys o).

(** A group after [rows] were pushed to it: created by the first push. *)
Definition extended (old : option (list Transaction)) (rows : list Transaction)
  : option (list Transaction) :=
  match old with
  | Some l => Some (l ++ rows)%list
  | None => match rows with [] => None | _ => Some rows end
  end.

(** ** The handler, in parts *)

(** The category the handler assigns to: the one of the dropdown, or the
    trimmed name typed for a new one. *)
Definition chosenCategoryOf (page : Page) : string :=
  if String.eqb (dropdown_value page) "New Category..."
  then trim (input_value page) else dropdown_value page.

(** The custom table after [keywords.forEach(keyword => custom[keyword] =
    category)]. *)
Definition learned (custom : obj string) (keywords : list string)
    (category : string) : obj string :=
  fold_left (fun custom keyword => set custom keyword category) keywords custom.

(** A keyword as the handler commits it: in upper case, trimmed, of three
    characters or more, not made of digits only, without a comma. *)
Definition goodKeyword (k : string) : Prop :=
  toUpperCase k = k /\ trim k = k /\ 3 <= length k /\ ~ digits k /\
  sforall (fun c => negb (eqc c ",")) k = true.

(** A reassignment to a new category named constructor. *)
Definition constructorPage : Page :=
  mkPage [coffeeBox] "New Category..." "constructor" (Some "acme coffee").

(** The reassignment that teaches the keyword ACME COFFEE. *)
Definition coffeePage : Page :=
  mkPage [coffeeBox] "New Category..." " Coffee " (Some "acme coffee").

(** ** The suggested phrases, in words *)

(** The number of selected boxes whose description starts with the phrase
    [p], as its first three words. *)
Definition occurrences (p : string) (rows : list Checkbox) : nat :=
  List.length (filter (fun input => String.eqb (phraseOf (desc input)) p) rows).

(** The number of spaces of a text. *)
Definition spaces (s : string) : nat := length (sfilter (eqc " ") s).

(** No phrase after [p] in the list is counted more often than [p]. *)
Definition countDesc (rows : list Checkbox) (p q : string) : Prop :=
  occurrences q rows <= occurrences p rows.

(** ** The sums of the summary *)

(** The income summed so far is no NaN and not negative; the expenses are
    the 0 they start from, or negative. *)
Definition summarySigns (s : Summary) : Prop :=
  signed false (income s) /\ (expenses s = zero \/ signed true (expenses s)).

(** The first row of the preview is the header of the second bank: it has
    at least three cells and the five header names, read without their
    double quotes. *)
Definition headerPreview (previewData : list (list string)) : Prop :=
  exists row, hd_error previewData = Some row /\
              3 <= List.length row /\ headerRow (quotesDeleted row).

(** The number of rows of a file that are data: all of them, or all but
    the first when that one is the header of the second bank. *)
Definition dataRows (profile : Profile) (fullData : list (list string)) : nat :=
  match profile with
  | USBank_WithHeaders => List.length fullData - 1
  | _ => List.length fullData
  end.


(* ===================================================================== *)
(** * Properties                                                          *)
(* ===================================================================== *)

(** ** Strings *)

Lemma app_nil_r (s : string) : s ++ "" = s.
Proof. induction s as [|c s IH]; simpl; [reflexivity|rewrite IH; reflexivity]. Qed.

Lemma app_assoc (a b c : string) : (a ++ b) ++ c = a ++ b ++ c.
Proof. induction a as [|x a IH]; simpl; [reflexivity|rewrite IH; reflexivity]. Qed.

Lemma length_app (a b : string) : length (a ++ b) = length a + length b.
Proof. induction a as [|x a IH]; simpl; [reflexivity|rewrite IH; reflexivity]. Qed.

Lemma app_inv_head (a b c : string) : a ++ b = a ++ c -> b = c.
Proof.
  induction a as [|x a IH]; simpl; intros H; [exact H|].
  injection H as H. exact (IH H).
Qed.

Lemma length_zero (s : string) : length s = 0 -> s = "".
Proof. destruct s; [reflexivity|discriminate]. Qed.

Lemma sforall_app p (a b : string) :
  sforall p (a ++ b) = sforall p a && sforall p b.
Proof.
  induction a as [|x a IH]; simpl; [reflexivity|].
  rewrite IH, andb_assoc. reflexivity.
Qed.

Lemma stake_sdrop k (s : string) : stake k s ++ sdrop k s = s.
Proof.
  revert s; induction k as [|k IH]; intros [|c s]; simpl; try reflexivity.
  rewrite IH. reflexivity.
Qed.

Lemma length_stake k (s : string) : k <= length s -> length (stake k s) = k.
Proof.
  revert s; induction k as [|k IH]; intros [|c s]; simpl; intros H;
    try reflexivity; try lia.
  rewrite IH; [reflexivity|lia].
Qed.

Lemma stake_app (m s : string) : stake (length m) (m ++ s) = m.
Proof. induction m as [|c m IH]; simpl; [destruct s; reflexivity|rewrite IH; reflexivity]. Qed.

Lemma sdrop_app (m s : string) : sdrop (length m) (m ++ s) = s.
Proof. induction m as [|c m IH]; simpl; [reflexivity|exact IH]. Qed.

Lemma lastOr_app prev (a b : string) : lastOr prev (a ++ b) = lastOr (lastOr prev a) b.
Proof. revert prev; induction a as [|c a IH]; intros prev; simpl; [reflexivity|apply IH]. Qed.

(** ** The matcher and what a pattern matches *)

Section Matcher.

Lemma prevAfter_app prev (m s : string) :
  prevAfter (length m) prev (m ++ s) = lastOr prev m.
Proof.
  revert prev; induction m as [|c m IH]; intros prev; simpl.
  - destruct s; reflexivity.
  - apply IH.
Qed.

Lemma runLength_le cls hi (s : string) : runLength cls hi s <= length s.
Proof.
  revert hi; induction s as [|c s IH]; intros hi; simpl; [lia|].
  destruct (cls c); [|lia].
  destruct hi as [[|h]|]; [lia|specialize (IH (Some h))|specialize (IH None)]; lia.
Qed.

Lemma runLength_within cls hi (s : string) : within (runLength cls hi s) hi.
Proof.
  revert hi; induction s as [|c s IH]; intros hi; simpl.
  - destruct hi; simpl; [lia|exact I].
  - destruct (cls c).
    + destruct hi as [[|h]|]; simpl; [lia| |exact I].
      specialize (IH (Some h)). simpl in IH. lia.
    + destruct hi; simpl; [lia|exact I].
Qed.

Lemma runLength_stake cls hi (s : string) k :
  k <= runLength cls hi s -> sforall cls (stake k s) = true.
Proof.
  revert hi k; induction s as [|c s IH]; intros hi [|k]; simpl; intros H;
    try reflexivity; try lia.
  destruct (cls c) eqn:E; [|lia]. simpl.
  destruct hi as [[|h]|]; [lia| |]; eapply IH with (k := k); apply le_S_n, H.
Qed.

(** A text of characters in the class, within the upper bound, is no
    longer than the greedy run. *)
Lemma runLength_ge cls hi (m s : string) :
  sforall cls m = true -> within (length m) hi ->
  length m <= runLength cls hi (m ++ s).
Proof.
  revert hi; induction m as [|c m IH]; intros hi Hm Hw; simpl; [lia|].
  simpl in Hm. apply andb_true_iff in Hm as [Hc Hm]. rewrite Hc.
  destruct hi as [[|h]|]; simpl in Hw; [lia| |].
  - apply le_n_S, IH; [exact Hm|simpl; lia].
  - apply le_n_S, IH; [exact Hm|exact I].
Qed.

Lemma tryCounts_Some k lo cont s ps rest :
  tryCounts k lo cont s = Some (ps, rest) ->
  exists j ps', lo <= j <= k /\ cont j = Some (ps', rest) /\
                ps = stake j s :: ps' /\
                forall j', j < j' <= k -> cont j' = None.
Proof.
  induction k as [|k IH]; simpl.
  - destruct lo; simpl; [|discriminate].
    destruct (cont 0) as [[ps' rest']|] eqn:C; [|discriminate].
    intros H; injection H as <- <-. exists 0, ps'.
    repeat split; auto. intros j' Hj; lia.
  - destruct (S k <? lo) eqn:E; [discriminate|].
    change (S k <? lo) with (Nat.ltb (S k) lo) in E. apply Nat.ltb_ge in E.
    destruct (cont (S k)) as [[ps' rest']|] eqn:C.
    + intros H; injection H as <- <-. exists (S k), ps'.
      repeat split; auto. intros j' Hj; lia.
    + intros H. destruct (IH H) as (j & ps' & Hj & Hc & Hp & Hmax).
      exists j, ps'. repeat split; auto; try lia.
      intros j' Hj'. destruct (Nat.eq_dec j' (S k)) as [->|Hne]; [exact C|].
      apply Hmax. lia.
Qed.

Lemma tryCounts_None k lo cont s :
  tryCounts k lo cont s = None -> forall j, lo <= j <= k -> cont j = None.
Proof.
  induction k as [|k IH]; simpl.
  - destruct lo; simpl.
    + destruct (cont 0) as [[ps' rest']|] eqn:C; [discriminate|].
      intros _ j Hj. assert (j = 0) as -> by lia. exact C.
    + intros _ j Hj. lia.
  - destruct (S k <? lo) eqn:E.
    + change (S k <? lo) with (Nat.ltb (S k) lo) in E. apply Nat.ltb_lt in E.
      intros _ j Hj. lia.
    + destruct (cont (S k)) as [[ps' rest']|] eqn:C; [discriminate|].
      intros H j Hj. destruct (Nat.eq_dec j (S k)) as [->|Hne]; [exact C|].
      apply (IH H). lia.
Qed.

(** What the matcher returns is a match. *)
Lemma matchAt_sound r :
  forall prev s ps rest,
    matchAt r prev s = Some (ps, rest) -> Matches r prev s ps rest.
Proof.
  induction r as [|it r IH]; intros prev s ps rest H.
  - simpl in H. injection H as <- <-. constructor.
  - destruct it as [| | |cls lo hi]; simpl in H.
    + destruct prev; [discriminate|].
      destruct (matchAt r None s) as [[ps' rest']|] eqn:M; [|discriminate].
      injection H as <- <-. constructor. apply IH, M.
    + destruct s; simpl in H; [|discriminate].
      destruct (matchAt r prev "") as [[ps' rest']|] eqn:M; [|discriminate].
      injection H as <- <-. constructor. apply IH, M.
    + destruct (xorb (wordBefore prev) (wordAfter s)) eqn:X; [|discriminate].
      destruct (matchAt r prev s) as [[ps' rest']|] eqn:M; [|discriminate].
      injection H as <- <-. constructor; [exact X|apply IH, M].
    + apply tryCounts_Some in H as (j & ps' & Hj & Hc & -> & _).
      assert (Hlen : j <= length s)
        by (pose proof (runLength_le cls hi s); lia).
      rewrite <- (stake_sdrop j s) at 1.
      constructor.
      * apply (runLength_stake cls hi). lia.
      * rewrite length_stake by exact Hlen. lia.
      * rewrite length_stake by exact Hlen.
        pose proof (runLength_within cls hi s) as W.
        destruct hi; simpl in *; [lia|exact I].
      * apply IH.
        rewrite <- (stake_sdrop j s) in Hc at 1.
        rewrite <- (length_stake j s Hlen) in Hc at 1.
        rewrite prevAfter_app in Hc. exact Hc.
Qed.

(** Where there is a match the matcher returns one. *)
Lemma matchAt_complete r :
  forall prev s ps rest,
    Matches r prev s ps rest -> matchAt r prev s <> None.
Proof.
  intros prev s ps rest H.
  induction H as [prev s|r s ps rest H IH|r prev ps rest H IH
                  |r prev s ps rest X H IH|cls lo hi r prev m s ps rest Hm Hlo Hhi H IH];
    simpl.
  - discriminate.
  - destruct (matchAt r None s) as [[? ?]|]; [discriminate|congruence].
  - destruct (matchAt r prev "") as [[? ?]|]; [discriminate|congruence].
  - rewrite X. destruct (matchAt r prev s) as [[? ?]|]; [discriminate|congruence].
  - intros Hn.
    assert (C := tryCounts_None _ _ _ _ Hn (length m)
                   (conj Hlo (runLength_ge cls hi m s Hm Hhi))).
    simpl in C. rewrite prevAfter_app, sdrop_app in C. exact (IH C).
Qed.

End Matcher.

Section Searching.

Lemma Matches_concat r prev s ps rest :
  Matches r prev s ps rest -> s = sconcat ps ++ rest.
Proof.
  induction 1; simpl; try assumption; try reflexivity.
  rewrite app_assoc. f_equal. assumption.
Qed.

(** A successful search: where the match is, and that no earlier position
    has one. *)
Lemma search_Some r :
  forall s prev pre ps rest,
    search r prev s = Some (pre, ps, rest) ->
    s = pre ++ sconcat ps ++ rest /\
    matchAt r (lastOr prev pre) (sconcat ps ++ rest) = Some (ps, rest) /\
    forall pre1 s1, s = pre1 ++ s1 -> length pre1 < length pre ->
                    matchAt r (lastOr prev pre1) s1 = None.
Proof.
  induction s as [|c s IH]; intros prev pre ps rest H; simpl in H.
  - destruct (matchAt r prev "") as [[ps' rest']|] eqn:M; [|discriminate].
    injection H as <- <- <-. simpl.
    pose proof (Matches_concat _ _ _ _ _ (matchAt_sound _ _ _ _ _ M)) as E.
    rewrite <- E. repeat split; auto. intros pre1 s1 _ Hl. simpl in Hl. lia.
  - destruct (matchAt r prev (String c s)) as [[ps' rest']|] eqn:M.
    + injection H as <- <- <-. simpl.
      pose proof (Matches_concat _ _ _ _ _ (matchAt_sound _ _ _ _ _ M)) as E.
      rewrite <- E. repeat split; auto. intros pre1 s1 _ Hl. simpl in Hl. lia.
    + destruct (search r (Some c) s) as [[[pre' ps'] rest']|] eqn:S; [|discriminate].
      injection H as <- <- <-.
      destruct (IH _ _ _ _ S) as (E & Hm & Hmin).
      split; [simpl; rewrite <- E; reflexivity|].
      split; [exact Hm|].
      intros pre1 s1 E1 Hl. destruct pre1 as [|c1 pre1]; simpl in *.
      * subst s1. exact M.
      * injection E1 as <- E1. apply Hmin; [exact E1|lia].
Qed.

Lemma search_None r :
  forall s prev,
    search r prev s = None ->
    forall pre s1, s = pre ++ s1 -> matchAt r (lastOr prev pre) s1 = None.
Proof.
  induction s as [|c s IH]; intros prev H pre s1 E; simpl in H.
  - destruct pre; [|discriminate]. simpl in *. subst s1.
    destruct (matchAt r prev "") as [[? ?]|]; [discriminate|reflexivity].
  - destruct (matchAt r prev (String c s)) as [[? ?]|] eqn:M; [discriminate|].
    destruct (search r (Some c) s) as [[[? ?] ?]|] eqn:S; [discriminate|].
    destruct pre as [|c1 pre]; simpl in *.
    + subst s1. exact M.
    + injection E as <- E. apply (IH _ S _ _ E).
Qed.

Lemma OccursAt_matchAt r pre m post :
  OccursAt r pre m post -> matchAt r (lastOr None pre) (m ++ post) <> None.
Proof. intros (ps & H). exact (matchAt_complete _ _ _ _ _ H). Qed.

(** [test] decides whether the pattern occurs. *)
Lemma test_true r s :
  test r s = true <->
  exists pre m post, s = pre ++ m ++ post /\ OccursAt r pre m post.
Proof.
  unfold test. split.
  - destruct (search r None s) as [[[pre ps] rest]|] eqn:S; [|discriminate].
    intros _. destruct (search_Some _ _ _ _ _ _ S) as (E & M & _).
    exists pre, (sconcat ps), rest. split; [exact E|].
    exists ps. apply matchAt_sound, M.
  - intros (pre & m & post & E & Ho).
    destruct (search r None s) as [[[? ?] ?]|] eqn:S; [reflexivity|].
    exfalso. apply (OccursAt_matchAt _ _ _ _ Ho).
    apply (search_None _ _ _ S). exact E.
Qed.

Lemma test_false r s : test r s = false <-> Absent r s.
Proof.
  split.
  - intros H pre m post E Ho.
    assert (T : test r s = true) by (apply test_true; eauto).
    rewrite T in H; discriminate.
  - intros H. destruct (test r s) eqn:T; [|reflexivity].
    apply test_true in T as (pre & m & post & E & Ho).
    destruct (H _ _ _ E Ho).
Qed.

(** Replacing without the [g] flag: nothing changes when the pattern is
    absent; otherwise its leftmost occurrence is replaced. *)
Lemma replace_spec r by_ s :
  (Absent r s /\ replace r by_ s = s) \/
  (exists pre ps post,
      s = pre ++ sconcat ps ++ post /\ Leftmost r pre (sconcat ps) post /\
      matchAt r (lastOr None pre) (sconcat ps ++ post) = Some (ps, post) /\
      replace r by_ s = pre ++ by_ ++ post).
Proof.
  unfold replace.
  destruct (search r None s) as [[[pre ps] rest]|] eqn:S.
  - right. destruct (search_Some _ _ _ _ _ _ S) as (E & M & Hmin).
    exists pre, ps, rest. split; [exact E|]. split; [split|].
    + exists ps. apply matchAt_sound, M.
    + intros pre' m' post' E' Ho.
      destruct (Nat.le_gt_cases (length pre) (length pre')) as [Hle|Hgt]; [exact Hle|].
      exfalso. apply (OccursAt_matchAt _ _ _ _ Ho).
      apply Hmin; [|exact Hgt]. rewrite E. exact E'.
    + split; [exact M|reflexivity].
  - left. split; [|reflexivity]. apply test_false. unfold test. rewrite S. reflexivity.
Qed.

(** With the [g] flag nothing changes either when the pattern is absent. *)
Lemma replaceFrom_absent r by_ :
  forall s prev,
    (forall pre s1, s = pre ++ s1 -> matchAt r (lastOr prev pre) s1 = None) ->
    replaceFrom r by_ prev s 0 = s.
Proof.
  induction s as [|c s IH]; intros prev H; simpl.
  - pose proof (H "" "" eq_refl) as H0. simpl in H0. rewrite H0. reflexivity.
  - pose proof (H "" (String c s) eq_refl) as H0. simpl in H0. rewrite H0.
    f_equal. apply IH.
    intros pre s1 E. apply (H (String c pre) s1). simpl. rewrite E. reflexivity.
Qed.

Lemma replaceAll_absent r by_ s : test r s = false -> replaceAll r by_ s = s.
Proof.
  unfold test, replaceAll. intros H.
  destruct (search r None s) as [[[? ?] ?]|] eqn:S; [discriminate|].
  apply replaceFrom_absent. intros pre s1 E. apply (search_None _ _ _ S _ _ E).
Qed.

Lemma replace_absent r by_ s : test r s = false -> replace r by_ s = s.
Proof.
  unfold test, replace.
  destruct (search r None s) as [[[? ?] ?]|]; [discriminate|reflexivity].
Qed.

Lemma runLength_zero p (s : string) : runLength p (Some 0) s = 0.
Proof. destruct s as [|c s]; simpl; [reflexivity|destruct (p c); reflexivity]. Qed.

(** A plain atom takes one character of its class. *)
Lemma matchAt_Cls p r prev s :
  matchAt (Cls p :: r) prev s =
  match s with
  | String c s' =>
      if p c then
        match matchAt r (Some c) s' with
        | Some (ps, rest) => Some (String c "" :: ps, rest)
        | None => None
        end
      else None
  | EmptyString => None
  end.
Proof.
  unfold Cls. destruct s as [|c s]; [reflexivity|].
  cbn [matchAt runLength]. destruct (p c); [|reflexivity].
  rewrite runLength_zero. cbn.
  destruct (matchAt r (Some c) s) as [[ps rest]|]; reflexivity.
Qed.

Lemma replaceFrom_zero r by_ prev s :
  replaceFrom r by_ prev s 0 =
  match matchAt r prev s with
  | Some (_, rest) =>
      by_ ++
      match s with
      | EmptyString => EmptyString
      | String c s' =>
          match length s - length rest with
          | 0 => String c (replaceFrom r by_ (Some c) s' 0)
          | S k => replaceFrom r by_ (Some c) s' k
          end
      end
  | None =>
      match s with
      | EmptyString => EmptyString
      | String c s' => String c (replaceFrom r by_ (Some c) s' 0)
      end
  end.
Proof. destruct s; reflexivity. Qed.

(** Removing the characters of a class, one by one. *)
Lemma replaceFrom_Cls p :
  forall s prev, replaceFrom [Cls p] "" prev s 0 = sfilter (fun c => negb (p c)) s.
Proof.
  induction s as [|c s IH]; intros prev; [reflexivity|].
  rewrite replaceFrom_zero, matchAt_Cls. cbn [matchAt sfilter].
  destruct (p c) eqn:E; cbn [negb].
  - cbn [length append]. replace (S (length s) - length s) with 1 by lia. apply IH.
  - f_equal. apply IH.
Qed.

Lemma replaceAll_Cls p s :
  replaceAll [Cls p] "" s = sfilter (fun c => negb (p c)) s.
Proof. apply replaceFrom_Cls. Qed.

End Searching.

(** ** Anchored patterns and the shapes of dates *)

Section Anchored.

Lemma search_Bol_later r s : forall c, search (Bol :: r) (Some c) s = None.
Proof.
  induction s as [|c' s IH]; intros c; simpl; [reflexivity|].
  rewrite IH. reflexivity.
Qed.

(** A pattern that starts with [^] is tried at the start only. *)
Lemma search_Bol r s :
  search (Bol :: r) None s =
  match matchAt (Bol :: r) None s with
  | Some (ps, rest) => Some (EmptyString, ps, rest)
  | None => None
  end.
Proof.
  destruct s as [|c s]; simpl.
  - destruct (matchAt r None "") as [[? ?]|]; reflexivity.
  - destruct (matchAt r None (String c s)) as [[? ?]|]; simpl; [reflexivity|].
    rewrite search_Bol_later. reflexivity.
Qed.

Lemma test_Bol r s :
  test (Bol :: r) s = true <-> exists ps rest, Matches (Bol :: r) None s ps rest.
Proof.
  unfold test. rewrite search_Bol. split.
  - destruct (matchAt (Bol :: r) None s) as [[ps rest]|] eqn:M; [|discriminate].
    intros _. exists ps, rest. apply matchAt_sound, M.
  - intros (ps & rest & H). apply matchAt_complete in H.
    destruct (matchAt (Bol :: r) None s) as [[? ?]|]; [reflexivity|congruence].
Qed.

Lemma exec_Bol r s ps :
  exec (Bol :: r) s = Some ps -> exists rest, Matches (Bol :: r) None s ps rest.
Proof.
  unfold exec. rewrite search_Bol.
  destruct (matchAt (Bol :: r) None s) as [[ps' rest]|] eqn:M; [|discriminate].
  intros H; injection H as <-. exists rest. apply matchAt_sound, M.
Qed.

Lemma exec_None_test r s : exec r s = None <-> test r s = false.
Proof.
  unfold exec, test. destruct (search r None s) as [[[? ?] ?]|]; split;
    intros; try discriminate; reflexivity.
Qed.

Lemma one_char c (m : string) :
  sforall (eqc c) m = true -> 1 <= length m -> within (length m) (Some 1) ->
  m = String c "".
Proof.
  destruct m as [|x [|y m]]; simpl; intros H H1 H2; try lia.
  rewrite andb_true_r in H. apply Ascii.eqb_eq in H. subst x. reflexivity.
Qed.

End Anchored.

(** Invert a match of a pattern written out item by item. *)
Ltac inv_matches :=
  repeat match goal with
  | H : Matches (_ :: _) _ _ _ _ |- _ => inversion H; clear H; subst
  | H : Matches [] _ _ _ _ |- _ => inversion H; clear H; subst
  | H : sforall (eqc ?c) ?m = true, H1 : 1 <= length ?m,
    H2 : within (length ?m) (Some 1) |- _ =>
      pose proof (one_char c m H H1 H2); clear H H1 H2; subst m
  end.

Lemma test_re_iso s : test re_iso s = true <-> isoShape s.
Proof.
  unfold re_iso. rewrite test_Bol. split.
  - intros (ps & rest & H). unfold Chr, Cls in H. inv_matches.
    simpl in *. exists m, m1, m3. rewrite app_nil_r.
    repeat split; auto; lia.
  - intros (y & m & d & -> & Hy & Ly & Hm & Lm & Hd & Ld).
    replace (y ++ "-" ++ m ++ "-" ++ d) with (y ++ "-" ++ m ++ "-" ++ d ++ "")
      by (rewrite app_nil_r; reflexivity).
    exists [""; y; "-"; m; "-"; d; ""]%list, "".
    constructor.
    apply M_Rep; [exact Hy|lia|simpl; lia|].
    apply (M_Rep _ _ _ _ _ "-"); [reflexivity|simpl; lia|simpl; lia|].
    apply M_Rep; [exact Hm|lia|simpl; lia|].
    apply (M_Rep _ _ _ _ _ "-"); [reflexivity|simpl; lia|simpl; lia|].
    apply M_Rep; [exact Hd|lia|simpl; lia|].
    constructor. constructor.
Qed.

(** A run of characters of a class ends where the first character outside
    it stands. *)
Lemma run_unique p (a a' : string) c c' (r r' : string) :
  sforall p a = true -> sforall p a' = true -> p c = false -> p c' = false ->
  a ++ String c r = a' ++ String c' r' -> a = a' /\ c = c' /\ r = r'.
Proof.
  revert a'; induction a as [|x a IH]; intros [|x' a'] Ha Ha' Hc Hc' E; simpl in *.
  - injection E as -> ->. auto.
  - injection E as -> _. apply andb_true_iff in Ha' as [Hx _]. congruence.
  - injection E as -> _. apply andb_true_iff in Ha as [Hx _]. congruence.
  - injection E as -> E.
    apply andb_true_iff in Ha as [_ Ha]. apply andb_true_iff in Ha' as [_ Ha'].
    destruct (IH a' Ha Ha' Hc Hc' E) as (-> & -> & ->). auto.
Qed.

Lemma Matches_re_mdy s ps rest :
  Matches re_mdy None s ps rest ->
  exists m d y, mdyShape s m d y /\ ps = [""; m; "/"; d; "/"; y; ""]%list /\ rest = "".
Proof.
  unfold re_mdy, Chr, Cls. intros H. inv_matches. simpl in *.
  exists m, m1, m3. rewrite app_nil_r.
  split; [|split; reflexivity].
  unfold mdyShape, digits. repeat split; auto; lia.
Qed.

Lemma mdyShape_Matches s m d y :
  mdyShape s m d y -> Matches re_mdy None s [""; m; "/"; d; "/"; y; ""]%list "".
Proof.
  intros (-> & Hm & Lm & Hd & Ld & Hy & Ly).
  replace (m ++ "/" ++ d ++ "/" ++ y) with (m ++ "/" ++ d ++ "/" ++ y ++ "")
    by (rewrite app_nil_r; reflexivity).
  unfold re_mdy. constructor.
  apply M_Rep; [exact Hm|lia|simpl; lia|].
  apply (M_Rep _ _ _ _ _ "/"); [reflexivity|simpl; lia|simpl; lia|].
  apply M_Rep; [exact Hd|lia|simpl; lia|].
  apply (M_Rep _ _ _ _ _ "/"); [reflexivity|simpl; lia|simpl; lia|].
  apply M_Rep; [exact Hy|lia|simpl; lia|].
  constructor. constructor.
Qed.

Lemma mdyShape_unique s m d y m' d' y' :
  mdyShape s m d y -> mdyShape s m' d' y' -> m = m' /\ d = d' /\ y = y'.
Proof.
  intros (-> & Hm & _ & Hd & _ & _ & _) (E & Hm' & _ & Hd' & _ & _ & _).
  change (m ++ String "/" (d ++ String "/" y)
          = m' ++ String "/" (d' ++ String "/" y')) in E.
  assert (Hs : isDigit "/" = false) by reflexivity.
  destruct (run_unique isDigit _ _ _ _ _ _ Hm Hm' Hs Hs E) as (-> & _ & E1).
  destruct (run_unique isDigit _ _ _ _ _ _ Hd Hd' Hs Hs E1) as (-> & _ & ->).
  auto.
Qed.

Lemma exec_re_mdy s m d y :
  mdyShape s m d y -> exec re_mdy s = Some [""; m; "/"; d; "/"; y; ""]%list.
Proof.
  intros Hs. destruct (exec re_mdy s) as [ps|] eqn:X.
  - apply exec_Bol in X as (rest & HM).
    apply Matches_re_mdy in HM as (m' & d' & y' & Hs' & -> & _).
    destruct (mdyShape_unique _ _ _ _ _ _ _ Hs Hs') as (-> & -> & ->). reflexivity.
  - exfalso. apply exec_None_test in X.
    assert (T : test re_mdy s = true).
    { apply test_Bol. eexists. eexists. apply (mdyShape_Matches _ _ _ _ Hs). }
    rewrite T in X. discriminate.
Qed.

Lemma test_re_mdy s : test re_mdy s = true <-> exists m d y, mdyShape s m d y.
Proof.
  unfold re_mdy at 1. rewrite test_Bol. split.
  - intros (ps & rest & H). apply Matches_re_mdy in H as (m & d & y & H & _). eauto.
  - intros (m & d & y & H). eexists. eexists. apply (mdyShape_Matches _ _ _ _ H).
Qed.

(** No string has both shapes. *)
Lemma iso_mdy_disjoint s m d y : isoShape s -> mdyShape s m d y -> False.
Proof.
  intros (y0 & m0 & d0 & E & Hy & Ly & _) (E' & Hm & Lm & _).
  rewrite E in E'.
  change (y0 ++ String "-" (m0 ++ "-" ++ d0) = m ++ String "/" (d ++ "/" ++ y)) in E'.
  assert (H1 : isDigit "-" = false) by reflexivity.
  assert (H2 : isDigit "/" = false) by reflexivity.
  destruct (run_unique isDigit _ _ _ _ _ _ Hy Hm H1 H2 E') as (-> & _ & _).
  lia.
Qed.

Lemma padStart2_zeroPadded m : zeroPadded m (padStart2 m).
Proof.
  unfold zeroPadded, padStart2. split; intros ->; reflexivity.
Qed.

Lemma isEmpty_false (s : string) : isEmpty s = false <-> s <> "".
Proof. destruct s; simpl; split; intros; try congruence; discriminate. Qed.

(** ** normalizeDate *)

(** C7, as amended.  normalizeDate returns the empty string on an absent or
    empty input.  Otherwise it trims the input and returns it trimmed when it
    then has the shape YYYY-MM-DD, returns YYYY-MM-DD with month and day
    zero-padded when it then has the shape M/D/YYYY or MM/DD/YYYY, and
    returns it trimmed in every other case. *)
Theorem C7_normalizeDate :
  normalizeDate None = "" /\
  forall raw, normalizeDateTrimmed raw (normalizeDate (Some raw)).
Proof.
  split; [reflexivity|]. intros raw. unfold normalizeDateTrimmed, normalizeDate.
  destruct (isEmpty raw) eqn:Eraw.
  - destruct raw; [|discriminate]. repeat split; intros; try reflexivity; congruence.
  - split; [intros ->; discriminate|].
    split; [|split].
    + intros _ Hiso. apply test_re_iso in Hiso. rewrite Hiso. reflexivity.
    + intros _ m d y Hs.
      assert (Hni : test re_iso (trim raw) = false).
      { destruct (test re_iso (trim raw)) eqn:T; [|reflexivity].
        apply test_re_iso in T. destruct (iso_mdy_disjoint _ _ _ _ T Hs). }
      rewrite Hni, (exec_re_mdy _ _ _ _ Hs). simpl.
      exists (padStart2 m), (padStart2 d).
      split; [apply padStart2_zeroPadded|]. split; [apply padStart2_zeroPadded|reflexivity].
    + intros _ Hni Hnm.
      destruct (test re_iso (trim raw)) eqn:T; [destruct (Hni (proj1 (test_re_iso _) T))|].
      destruct (exec re_mdy (trim raw)) as [ps|] eqn:X; [|reflexivity].
      exfalso. apply exec_Bol in X as (rest & HM).
      apply Matches_re_mdy in HM as (m & d & y & Hs & _). exact (Hnm m d y Hs).
Qed.

(** C7 fails as stated.  The input N/A with a space before it has none of
    the shapes, and it is not returned unchanged: the space is gone. *)
Lemma C7_counterexample :
  ~ normalizeDateAsStated " N/A" (normalizeDate (Some " N/A")).
Proof.
  intros (_ & _ & _ & H).
  assert (E : normalizeDate (Some " N/A") = " N/A").
  { apply H.
    - discriminate.
    - intros Hi. apply test_re_iso in Hi. discriminate Hi.
    - intros m d y Hs.
      assert (T : test re_mdy " N/A" = true) by (apply test_re_mdy; eauto).
      discriminate T. }
  discriminate E.
Qed.

(** The fourth of March, written the American way. *)
Lemma C7_witness : normalizeDate (Some "3/4/2024") = "2024-03-04".
Proof.
  destruct C7_normalizeDate as [_ H].
  destruct (H "3/4/2024") as (_ & _ & Hmdy & _).
  destruct (Hmdy ltac:(discriminate) "3" "4" "2024") as (mm & dd & [Hm _] & [Hd _] & E).
  - unfold mdyShape, digits. repeat split; simpl; try reflexivity; lia.
  - rewrite E, (Hm eq_refl), (Hd eq_refl). reflexivity.
Defined.

(** ** detectProfile *)

Lemma cell_spec row i :
  cell row i = trim (sfilter (fun c => negb (eqc dquote c)) (orEmpty (nth_error row i))).
Proof. unfold cell, re_quote, Chr. rewrite replaceAll_Cls. reflexivity. Qed.

Lemma orEmpty_nth_error (row : list string) i :
  orEmpty (nth_error row i) = rawCell row i.
Proof.
  unfold rawCell. revert i. induction row as [|x row IH]; intros [|i]; simpl;
    try reflexivity. apply IH.
Qed.

(** The cell the program tests is the cell without its double quotes,
    trimmed. *)
Lemma cell_quotesDeleted row i : cell row i = quotesDeleted row i.
Proof.
  rewrite cell_spec, orEmpty_nth_error. unfold quotesDeleted.
  apply (f_equal trim). generalize (rawCell row i). intros s.
  induction s as [|c s IH]; cbn [sfilter]; [reflexivity|].
  rewrite IH. unfold eqc. rewrite (Ascii.eqb_sym dquote c). reflexivity.
Qed.

Lemma eqb_lower_spec (c lit : string) :
  toLowerCase lit = lit ->
  (String.eqb (toLowerCase c) lit = true <-> equalsIgnoreCase c lit).
Proof.
  intros Hl. unfold equalsIgnoreCase. rewrite Hl. apply String.eqb_eq.
Qed.

Lemma headerRow_dec (c : nat -> string) :
  String.eqb (toLowerCase (c 0)) "date"
  && String.eqb (toLowerCase (c 1)) "transaction"
  && String.eqb (toLowerCase (c 2)) "name"
  && String.eqb (toLowerCase (c 3)) "memo"
  && String.eqb (toLowerCase (c 4)) "amount" = true
  <-> headerRow c.
Proof.
  unfold headerRow. rewrite !andb_true_iff.
  rewrite !eqb_lower_spec by reflexivity. tauto.
Qed.

Lemma yourBankRow_dec (c : nat -> string) :
  test re_mdy (c 0) && String.eqb (c 2) "*" = true <-> yourBankRow c.
Proof.
  unfold yourBankRow. rewrite andb_true_iff, test_re_mdy, String.eqb_eq. tauto.
Qed.

Lemma usBankBodyRow_dec (c : nat -> string) n :
  test re_iso (c 0) && (5 <=? n) = true <-> usBankBodyRow c n.
Proof.
  unfold usBankBodyRow. rewrite andb_true_iff, test_re_iso, Nat.leb_le. tauto.
Qed.

(** The tests of detectProfile, made on the cells without their double
    quotes. *)
Lemma detectProfile_quotesDeleted row :
  detectProfile (Some row) =
  let c := quotesDeleted row in
  if List.length row <? 3 then Unknown
  else if String.eqb (toLowerCase (c 0)) "date"
          && String.eqb (toLowerCase (c 1)) "transaction"
          && String.eqb (toLowerCase (c 2)) "name"
          && String.eqb (toLowerCase (c 3)) "memo"
          && String.eqb (toLowerCase (c 4)) "amount"
  then USBank_WithHeaders
  else if test re_mdy (c 0) && String.eqb (c 2) "*" then YourBank_NoHeader_5Cols
  else if test re_iso (c 0) && (5 <=? List.length row) then USBank_NoHeaderBody
  else Unknown.
Proof. unfold detectProfile. rewrite !cell_quotesDeleted. reflexivity. Qed.

(** The header of the second bank is recognised by the first rule alone. *)
Lemma detectProfile_header row :
  detectProfile (Some row) = USBank_WithHeaders <->
  3 <= List.length row /\ headerRow (quotesDeleted row).
Proof.
  rewrite detectProfile_quotesDeleted. cbv zeta.
  pose proof (headerRow_dec (quotesDeleted row)) as Hh.
  destruct (List.length row <? 3) eqn:L.
  - apply Nat.ltb_lt in L. split; [discriminate|]. intros [H _]. lia.
  - apply Nat.ltb_ge in L.
    destruct (String.eqb (toLowerCase (quotesDeleted row 0)) "date"
              && String.eqb (toLowerCase (quotesDeleted row 1)) "transaction"
              && String.eqb (toLowerCase (quotesDeleted row 2)) "name"
              && String.eqb (toLowerCase (quotesDeleted row 3)) "memo"
              && String.eqb (toLowerCase (quotesDeleted row 4)) "amount").
    + split; [intros _|reflexivity]. split; [exact L|apply Hh; reflexivity].
    + split.
      * destruct (test re_mdy _ && String.eqb _ "*"); [discriminate|].
        destruct (test re_iso _ && (5 <=? _)); discriminate.
      * intros [_ H]. apply Hh in H. discriminate H.
Qed.

(** C6, as amended.  detectProfile answers Unknown for no row and for a row
    of fewer than 3 cells.  Otherwise it reads the first five cells, a
    missing one as empty, with every double quote deleted, wherever it
    stands in the cell, and the white space then trimmed; on these the first
    rule that applies decides: the header names, compared without regard to
    case, give USBank_WithHeaders; a month/day/year date in the first cell
    and a star in the third give YourBank_NoHeader_5Cols; an ISO date in the
    first cell of a row of at least 5 cells gives USBank_NoHeaderBody;
    anything else gives Unknown. *)
Theorem C6_detectProfile :
  detectProfile None = Unknown /\
  forall row, detectProfileRules quotesDeleted row (detectProfile (Some row)).
Proof.
  split; [reflexivity|]. intros row.
  rewrite detectProfile_quotesDeleted. unfold detectProfileRules. cbv zeta.
  set (c := quotesDeleted row). set (n := List.length row).
  split.
  - intros H. apply Nat.ltb_lt in H. rewrite H. reflexivity.
  - intros H. apply Nat.ltb_ge in H. rewrite H.
    pose proof (headerRow_dec c) as Hh.
    pose proof (yourBankRow_dec c) as Hy.
    pose proof (usBankBodyRow_dec c n) as Hu.
    destruct (String.eqb (toLowerCase (c 0)) "date"
              && String.eqb (toLowerCase (c 1)) "transaction"
              && String.eqb (toLowerCase (c 2)) "name"
              && String.eqb (toLowerCase (c 3)) "memo"
              && String.eqb (toLowerCase (c 4)) "amount").
    { repeat split; intros; try reflexivity.
      all: match goal with Hn : ~ headerRow _ |- _ =>
             destruct (Hn (proj1 Hh eq_refl)) end. }
    destruct (test re_mdy (c 0) && String.eqb (c 2) "*").
    { repeat split; intros; try reflexivity.
      - match goal with Hp : headerRow _ |- _ =>
          apply Hh in Hp; discriminate Hp end.
      - match goal with Hn : ~ yourBankRow _ |- _ =>
          destruct (Hn (proj1 Hy eq_refl)) end.
      - match goal with Hn : ~ yourBankRow _ |- _ =>
          destruct (Hn (proj1 Hy eq_refl)) end. }
    destruct (test re_iso (c 0) && (5 <=? n)).
    { repeat split; intros; try reflexivity.
      - match goal with Hp : headerRow _ |- _ =>
          apply Hh in Hp; discriminate Hp end.
      - match goal with Hp : yourBankRow _ |- _ =>
          apply Hy in Hp; discriminate Hp end.
      - match goal with Hn : ~ usBankBodyRow _ _ |- _ =>
          destruct (Hn (proj1 Hu eq_refl)) end. }
    repeat split; intros; try reflexivity.
    + match goal with Hp : headerRow _ |- _ =>
        apply Hh in Hp; discriminate Hp end.
    + match goal with Hp : yourBankRow _ |- _ =>
        apply Hy in Hp; discriminate Hp end.
    + match goal with Hp : usBankBodyRow _ _ |- _ =>
        apply Hu in Hp; discriminate Hp end.
Qed.

(** C6 fails as stated.  The specification has the quotes and the white
    space around a cell stripped.  A row whose first cell is a date with a
    double quote inside it has then no date in its first cell and no header
    name, so that the rules give Unknown; detectProfile deletes the quote
    and answers YourBank_NoHeader_5Cols. *)
Lemma C6_counterexample :
  surroundingStripped interiorQuoteRow 0 = rawCell interiorQuoteRow 0 /\
  detectProfile (Some interiorQuoteRow) = YourBank_NoHeader_5Cols /\
  detectProfileRules surroundingStripped interiorQuoteRow Unknown /\
  ~ detectProfileRules surroundingStripped interiorQuoteRow
      (detectProfile (Some interiorQuoteRow)).
Proof.
  assert (Hh : ~ headerRow (surroundingStripped interiorQuoteRow)).
  { intros (Hd & _). discriminate Hd. }
  assert (Hy : ~ yourBankRow (surroundingStripped interiorQuoteRow)).
  { intros H. apply yourBankRow_dec in H. discriminate H. }
  assert (Hu : ~ usBankBodyRow (surroundingStripped interiorQuoteRow)
                 (List.length interiorQuoteRow)).
  { intros H. apply usBankBodyRow_dec in H. discriminate H. }
  split; [reflexivity|]. split; [reflexivity|]. split.
  - split; [reflexivity|]. intros _. repeat split; intros; try reflexivity; contradiction.
  - intros [_ H].
    destruct (H ltac:(simpl; lia)) as (_ & _ & _ & H4).
    discriminate (H4 Hh Hy Hu).
Qed.

(** A body row of the first bank as a file quotes it: the quotes around the
    date and the star are deleted, and the date and the star decide. *)
Lemma C6_witness :
  detectProfile (Some quotedRow) = YourBank_NoHeader_5Cols.
Proof.
  destruct C6_detectProfile as [_ H].
  destruct (H quotedRow) as [_ H3].
  destruct (H3 ltac:(simpl; lia)) as (_ & Hy & _).
  apply Hy.
  - intros (Hd & _). discriminate Hd.
  - split; [|reflexivity]. exists "3", "4", "2024".
    unfold mdyShape, digits. repeat split; simpl; try reflexivity; lia.
Defined.

(** ** normalizeAmount *)

Lemma sfilter_sfilter p q (s : string) :
  sfilter p (sfilter q s) = sfilter (fun c => q c && p c) s.
Proof.
  induction s as [|c s IH]; simpl; [reflexivity|].
  destruct (q c); simpl; [destruct (p c); rewrite IH|]; try reflexivity. exact IH.
Qed.

Lemma sfilter_ext p q (s : string) :
  (forall c, p c = q c) -> sfilter p s = sfilter q s.
Proof.
  intros H. induction s as [|c s IH]; simpl; [reflexivity|].
  rewrite H, IH. reflexivity.
Qed.

(** The two removals of normalizeAmount. *)
Lemma strip_spec s :
  replaceAll re_parens "" (replaceAll re_commaDollar "" s) = stripped s.
Proof.
  unfold re_parens, re_commaDollar. rewrite !replaceAll_Cls, sfilter_sfilter.
  apply sfilter_ext. intros c.
  destruct (eqc c ","), (eqc c "$"), (eqc c "("), (eqc c ")"); reflexivity.
Qed.

Lemma test_re_parenNeg s : test re_parenNeg s = true <-> wrappedOnOneLine s.
Proof.
  unfold re_parenNeg. rewrite test_Bol. split.
  - intros (ps & rest & H). unfold Chr, Cls in H. inv_matches.
    exists m0. split; [reflexivity|assumption].
  - intros (body & -> & Hb).
    exists [""; "("; body; ")"; ""]%list, "".
    constructor.
    apply (M_Rep _ _ _ _ _ "("); [reflexivity|simpl; lia|simpl; lia|].
    apply M_Rep; [exact Hb|lia|exact I|].
    apply (M_Rep _ _ _ _ _ ")" ""); [reflexivity|simpl; lia|simpl; lia|].
    constructor. constructor.
Qed.

Lemma isZero_negAbs n : isZero n -> isZero (negAbs n).
Proof. destruct n as [[|]|[|]| |[|] m e]; simpl; intros H; try exact H; discriminate. Qed.

(** C8, as amended.  normalizeAmount returns 0 on an absent input.
    Otherwise it trims the value, strips commas, dollar signs and
    parentheses, and parses what is left as a floating-point number: the
    result is zero when nothing is left or nothing parses; else it is the
    number parsed, with its sign forced negative when the trimmed value,
    before the stripping, starts with an opening and ends with a closing
    parenthesis and has no line break between them.  The four amounts of the
    specification come out as 1234.56, -12, 0 and 0. *)
Theorem C8_normalizeAmount :
  normalizeAmount None = zero /\
  (forall raw, normalizeAmountRule raw (normalizeAmount (Some raw))) /\
  normalizeAmount (Some "$1,234.56") = S754_finite false 5429652300748554 (-42) /\
  normalizeAmount (Some "(12.00)") = S754_finite true 6755399441055744 (-49) /\
  normalizeAmount (Some "") = zero.
Proof.
  split; [reflexivity|]. split; [|repeat split; reflexivity].
  intros raw. unfold normalizeAmountRule, normalizeAmount.
  rewrite strip_spec.
  pose proof (test_re_parenNeg (trim raw)) as Hw.
  destruct (isEmpty (stripped (trim raw))) eqn:Es.
  - split; [|split; intros; discriminate].
    intros _. change (parseFloat "0") with zero. simpl.
    destruct (test re_parenNeg (trim raw)); reflexivity.
  - destruct (isNaN (parseFloat (stripped (trim raw)))) eqn:En.
    + split; [intros _; reflexivity|split; intros; discriminate].
    + split; [intros [H|H]; discriminate|]. split.
      * intros _ _ H. apply Hw in H. rewrite H. reflexivity.
      * intros _ _ H.
        destruct (test re_parenNeg (trim raw)); [destruct (H (proj1 Hw eq_refl))|reflexivity].
Qed.

(** C8 fails as stated.  An amount wrapped in parentheses whose digits run
    over two lines is not made negative. *)
Lemma C8_counterexample :
  ~ normalizeAmountAsStated twoLineAmount (normalizeAmount (Some twoLineAmount)).
Proof.
  intros (_ & H & _).
  assert (E : normalizeAmount (Some twoLineAmount)
              = negAbs (parseFloat (stripped (trim twoLineAmount)))).
  { apply H; try reflexivity. exists ("1" ++ String lf "2"). reflexivity. }
  discriminate E.
Qed.

(** Twelve dollars in accounting notation. *)
Lemma C8_witness :
  normalizeAmount (Some "(12.00)") = negAbs (parseFloat "12.00").
Proof.
  destruct C8_normalizeAmount as (_ & H & _).
  destruct (H "(12.00)") as (_ & Hneg & _).
  apply Hneg; try reflexivity.
  exists "12.00". split; reflexivity.
Defined.

(** ** Trimming and upper case *)

Lemma trimStart_notStartsWs s : notStartsWs (trimStart s).
Proof.
  induction s as [|c s IH]; simpl; [exact I|].
  destruct (isWhiteSpace c) eqn:E; [exact IH|exact E].
Qed.

Lemma trimStart_id s : notStartsWs s -> trimStart s = s.
Proof. destruct s as [|c s]; simpl; [reflexivity|]. intros ->. reflexivity. Qed.

Lemma trimEnd_notStartsWs s : notStartsWs s -> notStartsWs (trimEnd s).
Proof.
  destruct s as [|c s]; simpl; [auto|]. intros H.
  destruct (trimEnd s); [rewrite H|]; exact H.
Qed.

Lemma trimEnd_idem s : trimEnd (trimEnd s) = trimEnd s.
Proof.
  induction s as [|c s IH]; simpl; [reflexivity|].
  destruct (trimEnd s) as [|c' s'] eqn:E.
  - destruct (isWhiteSpace c) eqn:W; simpl; [reflexivity|rewrite W; reflexivity].
  - change (trimEnd (String c (String c' s'))) with
      (match trimEnd (String c' s') with
       | EmptyString => if isWhiteSpace c then EmptyString else String c EmptyString
       | r' => String c r'
       end).
    rewrite IH. reflexivity.
Qed.

Lemma trim_idem s : trim (trim s) = trim s.
Proof.
  unfold trim.
  rewrite (trimStart_id (trimEnd (trimStart s)))
    by apply trimEnd_notStartsWs, trimStart_notStartsWs.
  apply trimEnd_idem.
Qed.

Lemma sforall_trimStart p s : sforall p s = true -> sforall p (trimStart s) = true.
Proof.
  induction s as [|c s IH]; simpl; [auto|]. intros H.
  destruct (isWhiteSpace c); [|exact H].
  apply andb_true_iff in H as [_ H]. exact (IH H).
Qed.

Lemma sforall_trimEnd p s : sforall p s = true -> sforall p (trimEnd s) = true.
Proof.
  induction s as [|c s IH]; simpl; [auto|]. intros H.
  apply andb_true_iff in H as [Hc H]. specialize (IH H).
  destruct (trimEnd s) as [|c' s'].
  - destruct (isWhiteSpace c); simpl; [reflexivity|rewrite Hc; reflexivity].
  - simpl in IH |- *. rewrite Hc, IH. reflexivity.
Qed.

Lemma sforall_trim p s : sforall p s = true -> sforall p (trim s) = true.
Proof. intros H. apply sforall_trimEnd, sforall_trimStart, H. Qed.

Lemma sforall_sfilter p s : sforall p (sfilter p s) = true.
Proof.
  induction s as [|c s IH]; simpl; [reflexivity|].
  destruct (p c) eqn:E; simpl; [rewrite E|]; exact IH.
Qed.

Lemma sfilter_id p s : sforall p s = true -> sfilter p s = s.
Proof.
  induction s as [|c s IH]; simpl; [reflexivity|]. intros H.
  apply andb_true_iff in H as [-> H]. rewrite (IH H). reflexivity.
Qed.

Lemma toUpperChar_keeps c : isAlnumSpace c = true -> toUpperChar c = c.
Proof.
  destruct c as [[] [] [] [] [] [] [] []]; intros H; try reflexivity; discriminate H.
Qed.

Lemma toUpperCase_id s : sforall isAlnumSpace s = true -> toUpperCase s = s.
Proof.
  induction s as [|c s IH]; simpl; [reflexivity|]. intros H.
  apply andb_true_iff in H as [Hc H].
  unfold toUpperCase in *. simpl. rewrite (toUpperChar_keeps c Hc), (IH H). reflexivity.
Qed.

(** The last removal of the stricter pass keeps what [isAlnumSpace] holds of. *)
Lemma strip_notAlnumSpace s :
  replaceAll re_notAlnumSpace "" s = sfilter isAlnumSpace s.
Proof.
  unfold re_notAlnumSpace. rewrite replaceAll_Cls.
  apply sfilter_ext. intros c. unfold isAlnumSpace. apply negb_involutive.
Qed.

(** What the stricter pass returns is made of letters A to Z, digits and
    spaces, and has no space at either end. *)
Lemma strictClean_alphabet s : sforall isAlnumSpace (strictClean s) = true.
Proof.
  unfold strictClean. rewrite strip_notAlnumSpace.
  apply sforall_trim, sforall_sfilter.
Qed.

Lemma strictClean_trimmed s : trim (strictClean s) = strictClean s.
Proof. unfold strictClean. apply trim_idem. Qed.

(** ** The boilerplate patterns *)

Lemma app_inv_tail (a b c : string) : a ++ c = b ++ c -> a = b.
Proof.
  revert b; induction a as [|x a IH]; intros [|y b] H; simpl in *.
  - reflexivity.
  - exfalso. assert (L : length c = length (String y (b ++ c))) by (rewrite <- H; reflexivity).
    simpl in L. rewrite length_app in L. lia.
  - exfalso. assert (L : length (String x (a ++ c)) = length c) by (rewrite H; reflexivity).
    simpl in L. rewrite length_app in L. lia.
  - injection H as -> H. rewrite (IH b H). reflexivity.
Qed.

Lemma length_smap f (s : string) : length (smap f s) = length s.
Proof. induction s as [|c s IH]; simpl; [reflexivity|rewrite IH; reflexivity]. Qed.

Lemma smap_app f (a b : string) : smap f (a ++ b) = smap f a ++ smap f b.
Proof. induction a as [|c a IH]; simpl; [reflexivity|rewrite IH; reflexivity]. Qed.

Lemma one_char_i c (m : string) :
  sforall (eqc_i c) m = true -> 1 <= length m -> within (length m) (Some 1) ->
  exists x, m = String x "" /\ toUpperChar x = toUpperChar c.
Proof.
  destruct m as [|x [|y m]]; simpl; intros H H1 H2; try lia.
  rewrite andb_true_r in H. apply Ascii.eqb_eq in H. eauto.
Qed.

(** A literal under the [i] flag matches the texts that are the literal
    once both are put in upper case. *)
Lemma Matches_lit_i_inv w0 r :
  forall prev s ps rest,
    Matches (lit_i w0 ++ r)%list prev s ps rest ->
    exists w s' ps',
      s = w ++ s' /\ toUpperCase w = toUpperCase w0 /\
      sconcat ps = w ++ sconcat ps' /\
      Matches r (lastOr prev w) s' ps' rest.
Proof.
  induction w0 as [|c w0 IH]; intros prev s ps rest H.
  - exists "", s, ps. repeat split; auto.
  - simpl in H. unfold Chr_i, Cls in H.
    inversion H as [| | | |cls lo hi r0 prev0 m s0 ps0 rest0 Hm Hlo Hhi HM]; subst.
    destruct (one_char_i c m Hm Hlo Hhi) as (x & -> & Hx).
    destruct (IH _ _ _ _ HM) as (w & s' & ps' & -> & Hw & Hc & HM').
    exists (String x w), s', ps'. repeat split.
    + unfold toUpperCase in *. simpl. rewrite Hx, Hw. reflexivity.
    + simpl. rewrite Hc. reflexivity.
    + exact HM'.
Qed.

Lemma Matches_lit_i_intro w0 r :
  forall w prev s' ps' rest,
    toUpperCase w = toUpperCase w0 ->
    Matches r (lastOr prev w) s' ps' rest ->
    exists ps, Matches (lit_i w0 ++ r)%list prev (w ++ s') ps rest.
Proof.
  induction w0 as [|c w0 IH]; intros w prev s' ps' rest Hw HM.
  - destruct w; [|discriminate]. exists ps'. exact HM.
  - destruct w as [|x w]; [discriminate|].
    unfold toUpperCase in Hw. simpl in Hw. injection Hw as Hx Hw.
    destruct (IH w (Some x) s' ps' rest Hw HM) as (ps & HP).
    exists (String x "" :: ps). simpl.
    apply (M_Rep _ _ _ _ _ (String x "")); simpl; try lia; [|exact HP].
    unfold eqc_i. rewrite Hx, Ascii.eqb_refl. reflexivity.
Qed.

Lemma toUpperChar_slash x : toUpperChar x = "/"%char -> x = "/"%char.
Proof.
  destruct x as [[] [] [] [] [] [] [] []]; intros H; try reflexivity; discriminate H.
Qed.

Lemma Matches_re_purchase prev s ps rest :
  Matches re_purchase prev s ps rest -> purchaseText (sconcat ps).
Proof.
  unfold re_purchase. intros H.
  apply Matches_lit_i_inv in H as (w & s' & ps' & -> & Hw & Hc & HM).
  unfold Chr_i, Cls in HM.
  inversion HM as [| | | |? ? ? ? ? d1 s1 ps1 ? Hd1 L1 U1 HM1]; subst; clear HM.
  inversion HM1 as [| | | |? ? ? ? ? x s2 ps2 ? Hx Lx Ux HM2]; subst; clear HM1.
  inversion HM2 as [| | | |? ? ? ? ? d2 s3 ps3 ? Hd2 L2 U2 HM3]; subst; clear HM2.
  inversion HM3; subst; clear HM3.
  destruct (one_char_i _ _ Hx Lx Ux) as (c & -> & Hcx).
  apply toUpperChar_slash in Hcx. subst c.
  exists w, d1, d2. rewrite Hc. simpl in *. rewrite app_nil_r.
  repeat split; auto; lia.
Qed.

Lemma purchaseText_Matches prev m post :
  purchaseText m -> exists ps, Matches re_purchase prev (m ++ post) ps post.
Proof.
  intros (w & d1 & d2 & -> & Hw & Hd1 & L1 & Hd2 & L2).
  rewrite app_assoc.
  apply Matches_lit_i_intro with (ps' := [d1; "/"; d2]%list); [exact Hw|].
  rewrite !app_assoc.
  apply M_Rep; [exact Hd1|lia|simpl; lia|].
  apply (M_Rep _ _ _ _ _ "/"); [reflexivity|simpl; lia|simpl; lia|].
  apply M_Rep; [exact Hd2|lia|simpl; lia|].
  constructor.
Qed.

Lemma Matches_re_card prev s ps rest :
  Matches re_card prev s ps rest -> cardText (sconcat ps).
Proof.
  unfold re_card. intros H.
  apply Matches_lit_i_inv in H as (w & s' & ps' & -> & Hw & Hc & HM).
  inversion HM as [| | | |? ? ? ? ? ds s1 ps1 ? Hd L U HM1]; subst; clear HM.
  inversion HM1; subst; clear HM1.
  exists w, ds. rewrite Hc. simpl. rewrite app_nil_r. repeat split; auto.
Qed.

Lemma cardText_Matches prev m post :
  cardText m -> exists ps, Matches re_card prev (m ++ post) ps post.
Proof.
  intros (w & ds & -> & Hw & Hd & L).
  rewrite app_assoc.
  apply Matches_lit_i_intro with (ps' := [ds]%list); [exact Hw|].
  apply M_Rep; [exact Hd|lia|exact I|]. constructor.
Qed.

(** Where the patterns occur, in words. *)
Lemma OccursAt_purchase pre m post :
  OccursAt re_purchase pre m post <-> purchaseText m.
Proof.
  split.
  - intros (ps & H). pose proof (Matches_concat _ _ _ _ _ H) as E.
    apply app_inv_tail in E. rewrite E. exact (Matches_re_purchase _ _ _ _ H).
  - intros H. apply purchaseText_Matches, H.
Qed.

Lemma OccursAt_card pre m post :
  OccursAt re_card pre m post <-> cardText m.
Proof.
  split.
  - intros (ps & H). pose proof (Matches_concat _ _ _ _ _ H) as E.
    apply app_inv_tail in E. rewrite E. exact (Matches_re_card _ _ _ _ H).
  - intros H. apply cardText_Matches, H.
Qed.

Lemma OccursAt_spaces pre m post :
  OccursAt re_spaces pre m post -> exists a b m', m = String a (String b m') /\
    isWhiteSpace a = true /\ isWhiteSpace b = true.
Proof.
  intros (ps & H). pose proof (Matches_concat _ _ _ _ _ H) as E.
  apply app_inv_tail in E. subst m.
  unfold re_spaces in H.
  inversion H as [| | | |? ? ? ? ? ws s1 ps1 ? Hw L U HM1]; subst; clear H.
  inversion HM1; subst; clear HM1. simpl. rewrite app_nil_r.
  destruct ws as [|a [|b m']]; simpl in L; try lia.
  simpl in Hw. apply andb_true_iff in Hw as [Ha Hw].
  apply andb_true_iff in Hw as [Hb _].
  exists a, b, m'. repeat split; assumption.
Qed.

(** The tests of the program decide whether the texts occur. *)
Lemma test_re_purchase s : test re_purchase s = true <-> Contains purchaseText s.
Proof.
  rewrite test_true. unfold Contains. split.
  - intros (pre & m & post & E & H). apply OccursAt_purchase in H. eauto.
  - intros (pre & m & post & E & H).
    exists pre, m, post. split; [exact E|]. apply OccursAt_purchase, H.
Qed.

Lemma test_re_card s : test re_card s = true <-> Contains cardText s.
Proof.
  rewrite test_true. unfold Contains. split.
  - intros (pre & m & post & E & H). apply OccursAt_card in H. eauto.
  - intros (pre & m & post & E & H).
    exists pre, m, post. split; [exact E|]. apply OccursAt_card, H.
Qed.

Lemma test_re_spaces s : test re_spaces s = true <-> Contains twoSpaces s.
Proof.
  rewrite test_true. unfold Contains. split.
  - intros (pre & m & post & E & H).
    apply OccursAt_spaces in H as (a & b & m' & -> & Ha & Hb).
    exists pre, (String a (String b "")), (m' ++ post).
    split; [rewrite E; reflexivity|]. exists a, b. auto.
  - intros (pre & m & post & E & a & b & -> & Ha & Hb).
    exists pre, (String a (String b "")), post. split; [exact E|].
    exists [String a (String b "")]%list. unfold re_spaces.
    apply M_Rep; [simpl; rewrite Ha, Hb; reflexivity|simpl; lia|exact I|].
    constructor.
Qed.

Lemma not_true_false (b : bool) : b <> true -> b = false.
Proof. destruct b; [intros H; destruct (H eq_refl)|reflexivity]. Qed.

(** ** The stricter pass run again *)

(** A string of letters A to Z, digits and single spaces, with no space at
    either end and neither boilerplate in it, is left as it is. *)
Lemma strictClean_fixed y :
  sforall isAlnumSpace y = true -> trim y = y ->
  ~ Contains purchaseText y -> ~ Contains cardText y -> ~ Contains twoSpaces y ->
  strictClean y = y.
Proof.
  intros Ha Ht Hp Hc Hs. unfold strictClean.
  rewrite (replace_absent re_purchase "" y)
    by (apply not_true_false; intros T; apply Hp, test_re_purchase, T).
  rewrite (replace_absent re_card "" y)
    by (apply not_true_false; intros T; apply Hc, test_re_card, T).
  rewrite (replaceAll_absent re_spaces " " y)
    by (apply not_true_false; intros T; apply Hs, test_re_spaces, T).
  rewrite (toUpperCase_id y Ha), strip_notAlnumSpace, (sfilter_id _ _ Ha).
  exact Ht.
Qed.

(** ** What the matcher prefers *)

Section Greedy.

(** A quantified atom at the end of a pattern takes the whole run. *)
Lemma matchAt_last_Rep cls lo hi prev s :
  matchAt [Rep cls lo hi] prev s =
  let n := runLength cls hi s in
  if n <? lo then None else Some ([stake n s]%list, sdrop n s).
Proof.
  cbn [matchAt]. destruct (runLength cls hi s) as [|n]; cbn [tryCounts];
    destruct (_ <? lo); reflexivity.
Qed.

Lemma runLength_stop cls (s : string) :
  match sdrop (runLength cls None s) s with
  | String c _ => cls c = false
  | EmptyString => True
  end.
Proof.
  induction s as [|c s IH]; simpl; [exact I|].
  destruct (cls c) eqn:E; simpl; [exact IH|exact E].
Qed.

Lemma matchAt_lit_i w0 r :
  forall prev s ps rest,
    matchAt (lit_i w0 ++ r)%list prev s = Some (ps, rest) ->
    exists w s' ps',
      s = w ++ s' /\ length w = length w0 /\
      matchAt r (lastOr prev w) s' = Some (ps', rest).
Proof.
  induction w0 as [|c w0 IH]; intros prev s ps rest H.
  - exists "", s, ps. auto.
  - change (lit_i (String c w0) ++ r)%list with (Cls (eqc_i c) :: (lit_i w0 ++ r))%list in H.
    rewrite matchAt_Cls in H.
    destruct s as [|x s]; [discriminate|].
    destruct (eqc_i c x); [|discriminate].
    destruct (matchAt (lit_i w0 ++ r)%list (Some x) s) as [[ps1 rest1]|] eqn:M; [|discriminate].
    injection H as <- <-.
    destruct (IH _ _ _ _ M) as (w & s' & ps' & -> & L & M').
    exists (String x w), s', ps'. simpl. auto.
Qed.

(** The card pattern takes every digit there is. *)
Lemma matchAt_re_card_greedy prev s ps rest :
  matchAt re_card prev s = Some (ps, rest) -> notStartsDigit rest.
Proof.
  unfold re_card. intros H.
  apply matchAt_lit_i in H as (w & s' & ps' & _ & _ & M).
  rewrite matchAt_last_Rep in M. cbv zeta in M.
  destruct (_ <? 1); [discriminate|]. injection M as _ <-.
  apply (runLength_stop isDigit s').
Qed.

End Greedy.

Lemma purchaseText_length m : purchaseText m -> length m = 28.
Proof.
  intros (w & d1 & d2 & -> & Hw & _ & L1 & _ & L2).
  rewrite !length_app, L1, L2. simpl.
  unfold toUpperCase in Hw.
  rewrite <- (length_smap toUpperChar w), Hw. reflexivity.
Qed.

Lemma digits_prefix_le (ds' : string) :
  forall ds post post',
    digits ds' -> notStartsDigit post ->
    ds ++ post = ds' ++ post' -> length ds' <= length ds.
Proof.
  induction ds' as [|c ds' IH]; intros ds post post' Hd Hn E; simpl; [lia|].
  unfold digits in Hd. simpl in Hd. apply andb_true_iff in Hd as [Hc Hd].
  destruct ds as [|x ds]; simpl in *.
  - subst post. simpl in Hn. congruence.
  - injection E as -> E. apply le_n_S. exact (IH ds post post' Hd Hn E).
Qed.

Lemma app_eq_length (a b c d : string) :
  a ++ b = c ++ d -> length a = length c -> a = c /\ b = d.
Proof.
  revert c; induction a as [|x a IH]; intros [|y c] E L; simpl in *; try lia; auto.
  injection E as -> E. destruct (IH c E) as [-> ->]; [lia|]. auto.
Qed.

Lemma cardText_split m :
  cardText m -> exists w ds, m = w ++ ds /\ length w = 5 /\ digits ds /\ 1 <= length ds.
Proof.
  intros (w & ds & -> & Hw & Hd & L). exists w, ds. repeat split; auto.
  unfold toUpperCase in Hw. rewrite <- (length_smap toUpperChar w), Hw. reflexivity.
Qed.

(** ** cleanDesc *)

Lemma replace_purchase s : RemovesFirst purchaseText s (replace re_purchase "" s).
Proof.
  destruct (replace_spec re_purchase "" s) as [[Ha ->]|(pre & ps & post & E & [Ho Hl] & _ & ->)].
  - left. split; [|reflexivity]. intros Hc.
    apply test_re_purchase in Hc. apply test_false in Ha. congruence.
  - right. exists pre, (sconcat ps), post.
    split; [exact E|]. split; [apply OccursAt_purchase in Ho; exact Ho|].
    split; [reflexivity|]. split.
    + intros pre' m' post' E' Ht. apply (Hl pre' m' post').
      * rewrite <- E. exact E'.
      * apply OccursAt_purchase, Ht.
    + intros m' post' _ Ht. apply OccursAt_purchase in Ho.
      rewrite (purchaseText_length _ Ho), (purchaseText_length _ Ht). lia.
Qed.

Lemma replace_card s : RemovesFirst cardText s (replace re_card "" s).
Proof.
  destruct (replace_spec re_card "" s) as [[Ha ->]|(pre & ps & post & E & [Ho Hl] & M & ->)].
  - left. split; [|reflexivity]. intros Hc.
    apply test_re_card in Hc. apply test_false in Ha. congruence.
  - right. exists pre, (sconcat ps), post.
    split; [exact E|]. split; [apply OccursAt_card in Ho; exact Ho|].
    split; [reflexivity|]. split.
    + intros pre' m' post' E' Ht. apply (Hl pre' m' post').
      * rewrite <- E. exact E'.
      * apply OccursAt_card, Ht.
    + intros m' post' E' Ht. apply OccursAt_card in Ho.
      apply matchAt_re_card_greedy in M.
      apply cardText_split in Ho as (w & ds & Em & Lw & Hd & _).
      apply cardText_split in Ht as (w' & ds' & -> & Lw' & Hd' & _).
      rewrite Em in E' |- *. rewrite !app_assoc in E'.
      destruct (app_eq_length _ _ _ _ E') as [-> E2]; [lia|].
      rewrite !length_app.
      pose proof (digits_prefix_le ds' ds post post' Hd' M E2). lia.
Qed.

Lemma length_sdrop n (s : string) : length (sdrop n s) = length s - n.
Proof.
  revert s; induction n as [|n IH]; intros [|c s]; simpl; try reflexivity; try lia.
  apply IH.
Qed.

Lemma runLength_wsHead (r : string) :
  wsHead r = (0 <? runLength isWhiteSpace None r).
Proof. destruct r as [|c r]; simpl; [reflexivity|destruct (isWhiteSpace c); reflexivity]. Qed.

(** The replacement with the [g] flag of the runs of white space is the
    collapse of the runs. *)
Lemma replaceFrom_spaces s :
  (forall prev, replaceFrom re_spaces " " prev s 0 = collapseRuns false s) /\
  (forall prev, replaceFrom re_spaces " " prev s (runLength isWhiteSpace None s)
                = collapseRuns true s).
Proof.
  induction s as [|c r [IHB IHA]].
  - split; intros prev; reflexivity.
  - assert (B : forall prev, replaceFrom re_spaces " " prev (String c r) 0
                              = collapseRuns false (String c r)).
    { intros prev. rewrite replaceFrom_zero. unfold re_spaces.
      rewrite matchAt_last_Rep. cbv zeta. cbn [runLength collapseRuns].
      destruct (isWhiteSpace c) eqn:W.
      - rewrite (runLength_wsHead r).
        destruct (runLength isWhiteSpace None r) as [|k] eqn:R.
        + cbn. f_equal. apply IHB.
        + change (S (S k) <? 2) with false. change (0 <? S k) with true.
          cbv iota. change (sdrop (S (S k)) (String c r)) with (sdrop (S k) r).
          rewrite length_sdrop.
          pose proof (runLength_le isWhiteSpace None r) as Hle. rewrite R in Hle.
          change (length (String c r)) with (S (length r)).
          replace (S (length r) - (length r - S k)) with (S (S k)) by lia.
          cbn [append]. f_equal. apply IHA.
      - cbn. f_equal. apply IHB. }
    split; [exact B|].
    intros prev. cbn [runLength collapseRuns].
    destruct (isWhiteSpace c) eqn:W.
    + cbn [replaceFrom]. apply IHA.
    + rewrite B. cbn [collapseRuns]. rewrite W. reflexivity.
Qed.

Lemma replaceAll_spaces s : replaceAll re_spaces " " s = collapseRuns false s.
Proof. apply (proj1 (replaceFrom_spaces s)). Qed.



(** ** Lengths: the passes never lengthen *)

Lemma length_sfilter p (s : string) : length (sfilter p s) <= length s.
Proof.
  induction s as [|c s IH]; simpl; [lia|]. destruct (p c); simpl; lia.
Qed.

Lemma length_trimStart (s : string) : length (trimStart s) <= length s.
Proof.
  induction s as [|c s IH]; simpl; [lia|]. destruct (isWhiteSpace c); simpl; lia.
Qed.

Lemma length_trimEnd (s : string) : length (trimEnd s) <= length s.
Proof.
  induction s as [|c s IH]; simpl; [lia|].
  destruct (trimEnd s); [destruct (isWhiteSpace c)|]; simpl in *; lia.
Qed.

Lemma length_trim (s : string) : length (trim s) <= length s.
Proof.
  unfold trim. pose proof (length_trimEnd (trimStart s)).
  pose proof (length_trimStart s). lia.
Qed.

Lemma length_collapseRuns (s : string) :
  forall inRun, length (collapseRuns inRun s) <= length s.
Proof.
  induction s as [|c s IH]; intros inRun; simpl; [lia|].
  pose proof (IH true). pose proof (IH false).
  destruct (isWhiteSpace c); [destruct inRun; [|destruct (wsHead s)]|]; simpl; lia.
Qed.

Lemma length_collapseRuns_run (s : string) :
  wsHead s = true -> length (collapseRuns true s) < length s.
Proof.
  destruct s as [|c s]; simpl; [discriminate|]. intros ->.
  pose proof (length_collapseRuns s true). lia.
Qed.

(** Two white-space characters in a row make the collapse shorter. *)
Lemma length_collapseRuns_two (s : string) :
  Contains twoSpaces s -> forall inRun, length (collapseRuns inRun s) < length s.
Proof.
  intros (pre & m & post & -> & a & b & -> & Ha & Hb).
  change (String a (String b "") ++ post) with (String a (String b post)).
  induction pre as [|c pre IH]; intros inRun.
  - cbn [append collapseRuns wsHead]. rewrite Ha, Hb.
    pose proof (length_collapseRuns post true).
    destruct inRun; cbn [length]; lia.
  - cbn [append collapseRuns].
    pose proof (IH true). pose proof (IH false).
    destruct (isWhiteSpace c); [destruct inRun; [|destruct (wsHead _)]|];
      cbn [length]; lia.
Qed.

Lemma length_replace r (s : string) : length (replace r "" s) <= length s.
Proof.
  destruct (replace_spec r "" s) as [[_ ->]|(pre & ps & post & E & _ & _ & ->)]; [lia|].
  rewrite E, !length_app. simpl. lia.
Qed.

Lemma length_strictClean_tail (s : string) :
  length (trim (replaceAll re_notAlnumSpace "" (toUpperCase s))) <= length s.
Proof.
  rewrite strip_notAlnumSpace.
  pose proof (length_trim (sfilter isAlnumSpace (toUpperCase s))).
  pose proof (length_sfilter isAlnumSpace (toUpperCase s)).
  unfold toUpperCase in *. rewrite length_smap in *. lia.
Qed.

Lemma length_strictClean (s : string) : length (strictClean s) <= length s.
Proof.
  unfold strictClean.
  pose proof (length_strictClean_tail
                (replaceAll re_spaces " " (replace re_card "" (replace re_purchase "" s)))).
  rewrite replaceAll_spaces in *.
  pose proof (length_collapseRuns (replace re_card "" (replace re_purchase "" s)) false).
  pose proof (length_replace re_card (replace re_purchase "" s)).
  pose proof (length_replace re_purchase s). lia.
Qed.

(** The pass leaves a string as it is only when the string has the final
    form. *)
Lemma strictClean_fixed_inv y : strictClean y = y -> finalForm y.
Proof.
  intros Hfix. unfold finalForm.
  split; [rewrite <- Hfix; apply strictClean_alphabet|].
  split; [rewrite <- Hfix; apply strictClean_trimmed|].
  assert (Hlen : length (strictClean y) = length y) by (rewrite Hfix; reflexivity).
  unfold strictClean in Hlen.
  pose proof (length_strictClean_tail
                (replaceAll re_spaces " " (replace re_card "" (replace re_purchase "" y)))) as L1.
  rewrite replaceAll_spaces in *.
  pose proof (length_collapseRuns (replace re_card "" (replace re_purchase "" y)) false) as L2.
  pose proof (length_replace re_card (replace re_purchase "" y)) as L3.
  pose proof (length_replace re_purchase y) as L4.
  assert (Hp : ~ Contains purchaseText y).
  { intros Hc. destruct (replace_purchase y) as [[Hn _]|(pre & m & post & E & Ht & E' & _)];
      [exact (Hn Hc)|].
    rewrite E' in L3, L2, L1, Hlen. rewrite E in Hlen, L4.
    rewrite !length_app in *. pose proof (purchaseText_length _ Ht). lia. }
  assert (Ep : replace re_purchase "" y = y).
  { apply replace_absent, not_true_false. intros T. apply Hp, test_re_purchase, T. }
  rewrite Ep in *.
  assert (Hc : ~ Contains cardText y).
  { intros Hc. destruct (replace_card y) as [[Hn _]|(pre & m & post & E & Ht & E' & _)];
      [exact (Hn Hc)|].
    rewrite E' in L2, L1, Hlen. rewrite E in Hlen, L3.
    rewrite !length_app in *.
    apply cardText_split in Ht as (w & ds & -> & Lw & _ & Ld).
    rewrite length_app in *. lia. }
  assert (Ec : replace re_card "" y = y).
  { apply replace_absent, not_true_false. intros T. apply Hc, test_re_card, T. }
  rewrite Ec in *.
  split; [exact Hp|]. split; [exact Hc|].
  intros Hs. pose proof (length_collapseRuns_two y Hs false). lia.
Qed.

(** The strings the stricter pass leaves as they are, in words. *)
Lemma strictClean_fixed_iff y : strictClean y = y <-> finalForm y.
Proof.
  split; [apply strictClean_fixed_inv|].
  intros (Ha & Ht & Hp & Hc & Hs). apply strictClean_fixed; assumption.
Qed.

(** C5, as amended.  What the stricter pass returns is made of letters A to
    Z, digits and spaces and has no space at either end.  Applying the pass
    to its own output yields that output again exactly when the output
    contains neither boilerplate pattern nor two white-space characters in a
    row. *)
Theorem C5_strictClean_again :
  forall s,
    sforall isAlnumSpace (strictClean s) = true /\
    trim (strictClean s) = strictClean s /\
    (strictClean (strictClean s) = strictClean s <->
     ~ Contains purchaseText (strictClean s) /\
     ~ Contains cardText (strictClean s) /\
     ~ Contains twoSpaces (strictClean s)).
Proof.
  intros s.
  split; [apply strictClean_alphabet|]. split; [apply strictClean_trimmed|].
  rewrite strictClean_fixed_iff. unfold finalForm. split.
  - intros (_ & _ & H). exact H.
  - intros H. split; [apply strictClean_alphabet|].
    split; [apply strictClean_trimmed|exact H].
Qed.

(** C5 fails as stated.  The pass turns A - B into A, two spaces, B: the
    hyphen goes after the runs of spaces were collapsed.  Run again, it
    collapses the two spaces.  And of two card numbers it removes one at
    each run. *)
Lemma C5_counterexample :
  ~ strictCleanIdempotent /\
  strictClean "A - B" = "A  B" /\ strictClean "A  B" = "A B" /\
  strictClean "CARD 1 CARD 2" = "CARD 2" /\ strictClean "CARD 2" = "".
Proof.
  split; [|repeat split; reflexivity].
  intros H. specialize (H "A - B"). discriminate H.
Qed.

(** A card purchase at a coffee shop comes out of the pass in its final
    form. *)
Lemma C5_witness :
  let s := "Purchase authorized on 03/04 Coffee-Shop card 1234" in
  strictClean s = "COFFEESHOP" /\
  strictClean (strictClean s) = strictClean s.
Proof.
  split; [reflexivity|].
  apply (proj2 (proj2 (C5_strictClean_again _))). repeat split.
  - intros H. apply test_re_purchase in H. discriminate H.
  - intros H. apply test_re_card in H. discriminate H.
  - intros H. apply test_re_spaces in H. discriminate H.
Defined.


(** ** The first occurrence is one text *)

Lemma RemovesFirst_unique text s s1 s2 :
  RemovesFirst text s s1 -> RemovesFirst text s s2 -> s1 = s2.
Proof.
  intros [[Hn ->]|(pre & m & post & E & Ht & -> & Hl & Hg)]
         [[Hn' ->]|(pre' & m' & post' & E' & Ht' & -> & Hl' & Hg')].
  - reflexivity.
  - exfalso. apply Hn. exists pre', m', post'. auto.
  - exfalso. apply Hn'. exists pre, m, post. auto.
  - pose proof (Hl pre' m' post' E' Ht').
    pose proof (Hl' pre m post E Ht).
    rewrite E in E'.
    destruct (app_eq_length _ _ _ _ E') as [<- E2]; [lia|].
    pose proof (Hg m' post' E2 Ht').
    pose proof (Hg' m post (eq_sym E2) Ht).
    destruct (app_eq_length _ _ _ _ E2) as [<- <-]; [lia|]. reflexivity.
Qed.

(** C9, as amended.  cleanDesc gives the empty string for no description.
    Otherwise it removes the first occurrence of the purchase boilerplate
    (the words PURCHASE AUTHORIZED ON in any case and two digits, a slash,
    two digits), then from the result the first occurrence of the card
    boilerplate (the word CARD in any case, a space and all the digits that
    follow), one occurrence of each and no more; it then replaces every run
    of two or more white-space characters by one space, trims and puts in
    upper case.  The two removals exist for every description and fix the
    result. *)
Theorem C9_cleanDesc :
  cleanDesc None = "" /\
  forall desc,
    (exists s1 s2, RemovesFirst purchaseText desc s1 /\ RemovesFirst cardText s1 s2) /\
    (forall s1 s2,
        RemovesFirst purchaseText desc s1 -> RemovesFirst cardText s1 s2 ->
        cleanDesc (Some desc) = toUpperCase (trim (collapseRuns false s2))).
Proof.
  split; [reflexivity|]. intros desc. split.
  - exists (replace re_purchase "" desc), (replace re_card "" (replace re_purchase "" desc)).
    split; [apply replace_purchase|apply replace_card].
  - intros s1 s2 H1 H2.
    rewrite (RemovesFirst_unique _ _ _ _ H1 (replace_purchase desc)) in H2.
    rewrite (RemovesFirst_unique _ _ _ _ H2 (replace_card _)).
    unfold cleanDesc. rewrite replaceAll_spaces. reflexivity.
Qed.

(** C9 fails as stated.  Of two card numbers cleanDesc removes the first
    only. *)
Lemma C9_counterexample :
  cleanDescAllOccurrences "CARD 1 CARD 2" = "" /\
  cleanDesc (Some "CARD 1 CARD 2") = "CARD 2" /\
  cleanDesc (Some "CARD 1 CARD 2") <> cleanDescAllOccurrences "CARD 1 CARD 2".
Proof. repeat split; try reflexivity. discriminate. Qed.

(** Of two card numbers the second stays. *)
Lemma C9_witness : cleanDesc (Some "CARD 1 CARD 2") = "CARD 2".
Proof.
  destruct C9_cleanDesc as [_ H].
  apply (proj2 (H "CARD 1 CARD 2") "CARD 1 CARD 2" " CARD 2").
  - left. split; [|reflexivity].
    intros Hc. apply test_re_purchase in Hc. discriminate Hc.
  - right. exists "", "CARD 1", " CARD 2".
    split; [reflexivity|]. split; [|split; [reflexivity|split]].
    + exists "CARD ", "1". unfold digits. repeat split; simpl; lia.
    + intros; simpl; lia.
    + intros m' post' E Ht.
      apply cardText_split in Ht as (w & ds & -> & Lw & Hd & _).
      rewrite app_assoc in E.
      destruct (app_eq_length "CARD " ("1" ++ " CARD 2") w (ds ++ post') E) as [<- E2];
        [simpl; lia|].
      rewrite length_app.
      pose proof (digits_prefix_le ds "1" " CARD 2" post' Hd eq_refl E2).
      simpl in *. lia.
Defined.
(** ** Dictionaries *)

Section ObjFacts.
Context {V : Type}.
Implicit Types (o : obj V) (k : string) (v : V).

Lemma get_update o k v k' :
  get (update o k v) k' =
  match get o k with
  | Some _ => if String.eqb k k' then Some v else get o k'
  | None => get o k'
  end.
Proof.
  induction o as [|[k0 v0] o IH]; simpl; [reflexivity|].
  destruct (String.eqb k0 k) eqn:E0; simpl.
  - apply String.eqb_eq in E0; subst k0.
    destruct (String.eqb k k'); reflexivity.
  - destruct (String.eqb k0 k') eqn:E1.
    + apply String.eqb_eq in E1; subst k0.
      rewrite String.eqb_sym in E0.
      destruct (get o k); [rewrite E0|]; reflexivity.
    + exact IH.
Qed.

Lemma get_insertIndex n o k v k' :
  get o k = None ->
  get (insertIndex n k v o) k' = if String.eqb k k' then Some v else get o k'.
Proof.
  induction o as [|[k0 v0] o IH]; simpl; intros Hn.
  - reflexivity.
  - destruct (String.eqb k0 k) eqn:E0; [discriminate|].
    assert (Hcons : get ((k, v) :: (k0, v0) :: o) k' =
                    if String.eqb k k' then Some v
                    else if String.eqb k0 k' then Some v0 else get o k')
      by reflexivity.
    destruct (arrayIndex k0) as [n'|]; [destruct (n' <? n)%N|]; try exact Hcons.
    simpl. destruct (String.eqb k0 k') eqn:E1.
    + apply String.eqb_eq in E1; subst k0.
      rewrite String.eqb_sym, E0. reflexivity.
    + apply IH, Hn.
Qed.

Lemma get_snoc o k v k' :
  get (o ++ [(k, v)])%list k' =
  match get o k' with
  | Some x => Some x
  | None => if String.eqb k k' then Some v else None
  end.
Proof.
  induction o as [|[k0 v0] o IH]; simpl; [reflexivity|].
  destruct (String.eqb k0 k'); [reflexivity|exact IH].
Qed.

(** Reading after [o[k] = v]. *)
Lemma get_set o k v k' :
  get (set o k v) k' = if String.eqb k k' then Some v else get o k'.
Proof.
  unfold set. destruct (get o k) as [x|] eqn:G.
  - rewrite get_update, G. reflexivity.
  - destruct (arrayIndex k) as [n|].
    + apply get_insertIndex, G.
    + rewrite get_snoc. destruct (String.eqb k k') eqn:E.
      * apply String.eqb_eq in E; subst k'. rewrite G. reflexivity.
      * destruct (get o k'); reflexivity.
Qed.

Lemma get_set_same o k v : get (set o k v) k = Some v.
Proof. rewrite get_set, String.eqb_refl. reflexivity. Qed.

Lemma get_set_other o k v k' : k <> k' -> get (set o k v) k' = get o k'.
Proof.
  intros H. rewrite get_set.
  destruct (String.eqb k k') eqn:E; [apply String.eqb_eq in E; contradiction|reflexivity].
Qed.

End ObjFacts.

(** ** Groups *)

Lemma pushTo_InGroup g c t g' :
  pushTo g c t = Normal g' ->
  forall c' t', InGroup g' c' t' <-> InGroup g c' t' \/ (c' = c /\ t' = t).
Proof.
  unfold pushTo, InGroup. intros H c' t'.
  destruct (get g c) as [l|] eqn:G.
  - injection H as <-. split.
    + intros (l' & Hg & Hin). rewrite get_set in Hg.
      destruct (String.eqb c c') eqn:E.
      * apply String.eqb_eq in E; subst c'. injection Hg as <-.
        apply in_app_or in Hin as [Hin|[<-|[]]]; [left; eauto|right; auto].
      * left; eauto.
    + intros [(l' & Hg & Hin)|[-> ->]].
      * destruct (String.eqb c c') eqn:E.
        -- apply String.eqb_eq in E; subst c'. rewrite G in Hg; injection Hg as <-.
           exists (l ++ [t])%list. rewrite get_set_same. split; [reflexivity|].
           apply in_or_app; auto.
        -- exists l'. rewrite get_set, E. auto.
      * exists (l ++ [t])%list. rewrite get_set_same. split; [reflexivity|].
        apply in_or_app; right; left; reflexivity.
  - destruct (inherited c); [discriminate|]. injection H as <-. split.
    + intros (l' & Hg & Hin). rewrite get_set in Hg.
      destruct (String.eqb c c') eqn:E.
      * apply String.eqb_eq in E; subst c'. injection Hg as <-.
        destruct Hin as [<-|[]]. right; auto.
      * left; eauto.
    + intros [(l' & Hg & Hin)|[-> ->]].
      * destruct (String.eqb c c') eqn:E.
        -- apply String.eqb_eq in E; subst c'. rewrite G in Hg; discriminate.
        -- exists l'. rewrite get_set, E. auto.
      * exists [t]. rewrite get_set_same. split; [reflexivity|left; reflexivity].
Qed.

Lemma InGroup_nil c t : ~ InGroup [] c t.
Proof. intros (l & H & _). discriminate. Qed.

(** ** Categorizer: the grouping returned *)

Lemma gt_zero_parseFloatOfNumber n :
  gt n zero = true -> parseFloatOfNumber n = n.
Proof. destruct n; simpl; intros H; try reflexivity; discriminate. Qed.

Section CategorizerFacts.
Variable hostRegExp : string -> option (string -> bool).
Variable CATEGORIES : obj string.

Lemma categoryOf_positive allCats sortedKeywords d amount :
  gt amount zero = true ->
  categoryOf hostRegExp allCats sortedKeywords d amount = Normal "Income".
Proof. unfold categoryOf. intros ->. reflexivity. Qed.

(** When the pass returns, the groups hold what they held before and, for
    every row, its cleaned record under the category chosen for it. *)
Lemma forEach_categorizeRow allCats sortedKeywords data :
  forall g0 g,
    forEach (categorizeRow hostRegExp allCats sortedKeywords) data g0 = Normal g ->
    forall c t,
      InGroup g c t <->
      InGroup g0 c t \/
      exists row, In row data /\ t = cleaned row /\
                  rowCategory hostRegExp allCats sortedKeywords row = Normal c.
Proof.
  induction data as [|row data IH]; simpl; intros g0 g H c t.
  - injection H as <-. split; [auto|]. intros [H|(r & [] & _)]. exact H.
  - unfold bind at 1 in H.
    destruct (categorizeRow hostRegExp allCats sortedKeywords g0 row) as [g1|e] eqn:R;
      [|discriminate].
    unfold categorizeRow in R. unfold bind in R.
    destruct (categoryOf hostRegExp allCats sortedKeywords
                (strictClean (Description row)) (parseFloatOfNumber (Amount row)))
      as [cat|e] eqn:C; [|discriminate].
    rewrite (IH g1 g H c t), (pushTo_InGroup _ _ _ _ R c t). split.
    + intros [[Hg|[-> ->]]|(r & Hin & Ht & Hc)].
      * left; exact Hg.
      * right. exists row. split; [left; reflexivity|]. split; [reflexivity|exact C].
      * right. exists r. split; [right; exact Hin|]. split; assumption.
    + intros [Hg|(r & [<-|Hin] & Ht & Hc)].
      * left; left; exact Hg.
      * left; right. unfold rowCategory in Hc. rewrite C in Hc. injection Hc as <-.
        split; [reflexivity|exact Ht].
      * right. exists r. split; [exact Hin|]. split; assumption.
Qed.

Lemma categorizeTransactions_InGroup custom data g :
  categorizeTransactions hostRegExp CATEGORIES custom data = Normal g ->
  forall c t,
    InGroup g c t <->
    exists row, In row data /\ t = cleaned row /\
                rowCategory hostRegExp (spread CATEGORIES custom)
                            (sortByLengthDesc (keys (spread CATEGORIES custom)))
                            row = Normal c.
Proof.
  intros H c t. unfold categorizeTransactions in H.
  rewrite (forEach_categorizeRow _ _ _ _ _ H c t). split.
  - intros [Hn|Hr]; [destruct (InGroup_nil _ _ Hn)|exact Hr].
  - intros Hr; right; exact Hr.
Qed.

(** Rows that are all income are grouped without any pattern being built:
    the pass returns whatever the keywords are. *)
Lemma forEach_all_income allCats sortedKeywords data :
  (forall r, In r data -> gt (Amount r) zero = true) ->
  forall l0,
    forEach (categorizeRow hostRegExp allCats sortedKeywords) data [("Income", l0)]
    = Normal [("Income", (l0 ++ map cleaned data)%list)].
Proof.
  induction data as [|row data IH]; intros Hpos l0.
  - simpl. rewrite List.app_nil_r. reflexivity.
  - cbn [forEach]. unfold categorizeRow at 1.
    rewrite categoryOf_positive
      by (rewrite (gt_zero_parseFloatOfNumber _ (Hpos row (or_introl eq_refl)));
          apply Hpos; left; reflexivity).
    cbn [bind]. unfold pushTo. cbn [get]. rewrite String.eqb_refl.
    unfold set. cbn [get update]. rewrite String.eqb_refl. cbn [bind].
    rewrite IH by (intros r Hr; apply Hpos; right; exact Hr).
    rewrite <- List.app_assoc. reflexivity.
Qed.

Lemma categorizeTransactions_all_income custom data :
  (forall r, In r data -> gt (Amount r) zero = true) ->
  categorizeTransactions hostRegExp CATEGORIES custom data =
  Normal match data with
         | [] => []
         | _ => [("Income", map cleaned data)]
         end.
Proof.
  intros Hpos. unfold categorizeTransactions.
  destruct data as [|row data]; [reflexivity|].
  cbn [forEach]. unfold categorizeRow at 1.
  rewrite categoryOf_positive
    by (rewrite (gt_zero_parseFloatOfNumber _ (Hpos row (or_introl eq_refl)));
        apply Hpos; left; reflexivity).
  cbn [bind]. change (pushTo [] "Income" ?t) with (Normal [("Income", [t])]).
  cbn [bind]. rewrite forEach_all_income by (intros r Hr; apply Hpos; right; exact Hr).
  reflexivity.
Qed.

End CategorizerFacts.

(** C1.  A transaction whose Amount is strictly positive is given the
    category Income: the choice made for the row is Income for every
    keyword table, every keyword order and every pattern engine, so no
    keyword rule takes part in it; categorized alone, the row comes back
    under Income whatever the store holds; and in every grouping the
    categorizer returns, the row's record is listed under Income and under no
    other category. *)
Theorem C1_positive_amount_is_income :
  forall hostRegExp CATEGORIES custom (row : Transaction),
    gt (Amount row) zero = true ->
    (forall allCats sortedKeywords,
        categoryOf hostRegExp allCats sortedKeywords
                   (strictClean (Description row))
                   (parseFloatOfNumber (Amount row)) = Normal "Income")
    /\
    categorizeTransactions hostRegExp CATEGORIES custom [row]
    = Normal [("Income", [mkTransaction (Date row) (Amount row)
                                        (strictClean (Description row))])]
    /\
    (forall data g,
        In row data ->
        categorizeTransactions hostRegExp CATEGORIES custom data = Normal g ->
        let record := mkTransaction (Date row) (Amount row)
                                    (strictClean (Description row)) in
        InGroup g "Income" record /\
        forall c, InGroup g c record -> c = "Income").
Proof.
  intros host CATS custom row Hpos.
  assert (Hp : parseFloatOfNumber (Amount row) = Amount row)
    by (apply gt_zero_parseFloatOfNumber, Hpos).
  split; [|split].
  - intros allCats sorted. apply categoryOf_positive. rewrite Hp. exact Hpos.
  - rewrite categorizeTransactions_all_income
      by (intros r [<-|[]]; exact Hpos).
    unfold cleaned. simpl. rewrite Hp. reflexivity.
  - intros data g Hin Hret record. split.
    + apply (categorizeTransactions_InGroup _ _ _ _ _ Hret). exists row.
      split; [exact Hin|]. split.
      * unfold cleaned, record. rewrite Hp. reflexivity.
      * unfold rowCategory. apply categoryOf_positive. rewrite Hp. exact Hpos.
    + intros c Hc.
      apply (categorizeTransactions_InGroup _ _ _ _ _ Hret) in Hc.
      destruct Hc as (r & _ & Hrec & Hcat).
      unfold rowCategory in Hcat. rewrite categoryOf_positive in Hcat.
      * injection Hcat as <-. reflexivity.
      * unfold record, cleaned in Hrec. injection Hrec as _ Ha _.
        rewrite <- Ha. exact Hpos.
Qed.

(** A salary is income. *)
Lemma C1_witness :
  gt (Amount sampleSalary) zero = true /\
  categoryOf noHost sampleCategories
             (sortByLengthDesc (keys sampleCategories))
             (strictClean (Description sampleSalary))
             (parseFloatOfNumber (Amount sampleSalary)) = Normal "Income".
Proof.
  split; [reflexivity|].
  apply (proj1 (C1_positive_amount_is_income noHost [] [] sampleSalary eq_refl)).
Defined.

(** ** Categorizer: the keyword loop *)

Lemma insertByLength_perm k l : Permutation (insertByLength k l) (k :: l).
Proof.
  induction l as [|k' l IH]; simpl; [apply Permutation_refl|].
  destruct (length k <? length k').
  - eapply Permutation_trans; [apply perm_skip, IH|apply perm_swap].
  - apply Permutation_refl.
Qed.

Lemma sortByLengthDesc_perm l : Permutation (sortByLengthDesc l) l.
Proof.
  induction l as [|k l IH]; simpl; [constructor|].
  eapply Permutation_trans; [apply insertByLength_perm|apply perm_skip, IH].
Qed.

Lemma sortByLengthDesc_In l k : In k (sortByLengthDesc l) <-> In k l.
Proof.
  split; apply Permutation_in;
    [apply sortByLengthDesc_perm|apply Permutation_sym, sortByLengthDesc_perm].
Qed.

Lemma insertByLength_sorted k l :
  StronglySorted lengthDesc l -> StronglySorted lengthDesc (insertByLength k l).
Proof.
  induction l as [|k' l IH]; simpl; intros Hs.
  - constructor; constructor.
  - inversion Hs as [|? ? Hs' Hall]; subst.
    destruct (length k <? length k') eqn:E.
    + apply Nat.ltb_lt in E. constructor; [apply IH, Hs'|].
      apply Forall_forall. intros x Hx.
      apply (Permutation_in _ (insertByLength_perm k l)) in Hx.
      destruct Hx as [<-|Hx]; [unfold lengthDesc; lia|].
      rewrite Forall_forall in Hall. apply Hall, Hx.
    + apply Nat.ltb_ge in E. constructor; [exact Hs|].
      constructor; [exact E|].
      rewrite Forall_forall in *. intros x Hx. specialize (Hall x Hx).
      unfold lengthDesc in *. lia.
Qed.

Lemma sortByLengthDesc_sorted l : StronglySorted lengthDesc (sortByLengthDesc l).
Proof.
  induction l as [|k l IH]; simpl; [constructor|].
  apply insertByLength_sorted, IH.
Qed.

(** The sort is stable: keywords of one length keep the order they have in
    the store. *)
Lemma insertByLength_filter n k l :
  filter (fun x => length x =? n) (insertByLength k l) =
  if length k =? n then k :: filter (fun x => length x =? n) l
  else filter (fun x => length x =? n) l.
Proof.
  induction l as [|k' l IH]; simpl.
  - destruct (length k =? n); reflexivity.
  - destruct (length k <? length k') eqn:E; simpl.
    + rewrite IH. apply Nat.ltb_lt in E.
      destruct (length k =? n) eqn:Ek; [|reflexivity].
      apply Nat.eqb_eq in Ek.
      assert (En : (length k' =? n) = false) by (apply Nat.eqb_neq; lia).
      rewrite En. reflexivity.
    + destruct (length k =? n); reflexivity.
Qed.

Lemma sortByLengthDesc_stable n l :
  filter (fun x => length x =? n) (sortByLengthDesc l) =
  filter (fun x => length x =? n) l.
Proof.
  induction l as [|k l IH]; simpl; [reflexivity|].
  rewrite insertByLength_filter, IH. reflexivity.
Qed.

(** Every key of an object has a value. *)
Lemma get_keys (o : obj string) k : In k (keys o) -> exists v, get o k = Some v.
Proof.
  induction o as [|[k0 v0] o IH]; simpl; [intros []|].
  intros [<-|H].
  - rewrite String.eqb_refl. eauto.
  - destruct (String.eqb k0 k); [eauto|exact (IH H)].
Qed.

Section KeywordLoop.
Variable hostRegExp : string -> option (string -> bool).
Variable allCats : obj string.
Variable desc : string.

Lemma newRegExp_throws body e :
  newRegExp_wordBounded hostRegExp body = Throw e -> e = SyntaxError.
Proof.
  unfold newRegExp_wordBounded.
  destruct (sforall _ body); [destruct (balanced 0 body)|destruct (hostRegExp _)];
    intros H; try discriminate; injection H as <-; reflexivity.
Qed.

Lemma firstMatch_cons k rest :
  firstMatch hostRegExp allCats (k :: rest) desc =
  match keywordTest hostRegExp k desc with
  | Normal true => Normal (categoryAt allCats k)
  | Normal false => firstMatch hostRegExp allCats rest desc
  | Throw e => Throw e
  end.
Proof.
  simpl. unfold keywordTest, bind.
  destruct (newRegExp_wordBounded hostRegExp (toUpperCase k)) as [p|e];
    [destruct (p desc)|]; reflexivity.
Qed.

(** No keyword matches: the loop ends without a category. *)
Lemma firstMatch_none kws :
  (forall k, In k kws -> keywordTest hostRegExp k desc = Normal false) ->
  firstMatch hostRegExp allCats kws desc = Normal "Uncategorized".
Proof.
  induction kws as [|k rest IH]; intros H; [reflexivity|].
  rewrite firstMatch_cons, (H k (or_introl eq_refl)).
  apply IH. intros k' Hk'. apply H. right; exact Hk'.
Qed.

(** The loop stops at the first keyword that matches; on a list in
    descending length it is at least as long as every matching keyword. *)
Lemma firstMatch_longest kws k1 :
  StronglySorted lengthDesc kws ->
  In k1 kws ->
  keywordTest hostRegExp k1 desc = Normal true ->
  (forall k e, In k kws -> length k1 <= length k ->
               keywordTest hostRegExp k desc <> Throw e) ->
  exists k, In k kws /\ length k1 <= length k /\
            keywordTest hostRegExp k desc = Normal true /\
            firstMatch hostRegExp allCats kws desc = Normal (categoryAt allCats k).
Proof.
  induction kws as [|k0 rest IH]; intros Hs Hin Hm Hok; [destruct Hin|].
  inversion Hs as [|? ? Hs' Hall]; subst.
  assert (Hlen : length k1 <= length k0).
  { destruct Hin as [->|Hin]; [lia|].
    rewrite Forall_forall in Hall. apply (Hall k1 Hin). }
  rewrite firstMatch_cons.
  destruct (keywordTest hostRegExp k0 desc) as [[|]|e] eqn:T.
  - exists k0. repeat split; auto. left; reflexivity.
  - destruct Hin as [->|Hin]; [rewrite T in Hm; discriminate|].
    destruct (IH Hs' Hin Hm) as (k & Hk & Hl & Ht & Hr).
    + intros k e Hk. apply Hok. right; exact Hk.
    + exists k. repeat split; auto. right; exact Hk.
  - exfalso. apply (Hok k0 e (or_introl eq_refl) Hlen T).
Qed.

(** A keyword whose pattern does not compile stops the loop with its
    error when no keyword before it matches. *)
Lemma firstMatch_throws pre k post e :
  (forall k', In k' pre -> keywordTest hostRegExp k' desc = Normal false) ->
  keywordTest hostRegExp k desc = Throw e ->
  firstMatch hostRegExp allCats (pre ++ k :: post)%list desc = Throw e.
Proof.
  induction pre as [|k0 pre IH]; intros Hpre Hk.
  - simpl app. rewrite firstMatch_cons, Hk. reflexivity.
  - change ((k0 :: pre) ++ k :: post)%list with (k0 :: (pre ++ k :: post))%list.
    rewrite firstMatch_cons, (Hpre k0 (or_introl eq_refl)).
    apply IH; [|exact Hk]. intros k' Hk'. apply Hpre. right; exact Hk'.
Qed.

End KeywordLoop.

(** ** Keywords without pattern syntax *)

Lemma isSyntaxChar_toUpperChar c : isSyntaxChar (toUpperChar c) = isSyntaxChar c.
Proof. destruct c as [[] [] [] [] [] [] [] []]; reflexivity. Qed.

Lemma toUpperChar_idem c : toUpperChar (toUpperChar c) = toUpperChar c.
Proof. destruct c as [[] [] [] [] [] [] [] []]; reflexivity. Qed.

Lemma toUpperCase_idem s : toUpperCase (toUpperCase s) = toUpperCase s.
Proof.
  unfold toUpperCase. induction s as [|c s IH]; simpl; [reflexivity|].
  rewrite toUpperChar_idem, IH. reflexivity.
Qed.

Lemma plain_toUpperCase s : plain (toUpperCase s) = plain s.
Proof.
  unfold plain, toUpperCase. induction s as [|c s IH]; simpl; [reflexivity|].
  rewrite isSyntaxChar_toUpperChar, IH. reflexivity.
Qed.

Lemma isParen_syntax c : isParen c = true -> isSyntaxChar c = true.
Proof.
  unfold isParen, isSyntaxChar, eqc. intros H. apply orb_true_iff in H as [H|H];
    apply Ascii.eqb_eq in H; subst c; reflexivity.
Qed.

Lemma plain_facts s :
  plain s = true ->
  sforall (fun c => negb (isSyntaxChar c) || isParen c) s = true /\
  (forall d, balanced d s = (d =? 0)) /\
  sfilter (fun c => negb (isParen c)) s = s.
Proof.
  unfold plain. induction s as [|c s IH]; simpl; intros H.
  - repeat split; reflexivity.
  - apply andb_true_iff in H as [Hc H]. destruct (IH H) as (H1 & H2 & H3).
    assert (Hp : isParen c = false).
    { destruct (isParen c) eqn:P; [|reflexivity].
      apply isParen_syntax in P. rewrite P in Hc. discriminate. }
    rewrite Hc, H1, H3, Hp. simpl. repeat split.
    intros d. unfold isParen in Hp. apply orb_false_iff in Hp as [Ho Hc'].
    rewrite Ho, Hc'. apply H2.
Qed.

(** A keyword without pattern syntax is tested by the program itself: the
    pattern compiles, and it matches the descriptions in which the keyword
    stands as a whole word. *)
Lemma keywordTest_plain hostRegExp keyword desc :
  plain keyword = true ->
  exists b, keywordTest hostRegExp keyword desc = Normal b /\
            (b = true <-> wholeWord keyword desc).
Proof.
  intros Hp. rewrite <- plain_toUpperCase in Hp.
  destruct (plain_facts _ Hp) as (H1 & H2 & H3).
  unfold keywordTest, newRegExp_wordBounded. rewrite H1, H2, H3. simpl.
  eexists. split; [reflexivity|].
  rewrite test_true. unfold wholeWord. split.
  - intros (pre & m & post & -> & ps & HM).
    pose proof (Matches_concat _ _ _ _ _ HM) as E. apply app_inv_tail in E. subst m.
    inversion HM as [| | |r0 prev0 s0 ps0 rest0 Hb1 HM1|]; subst; clear HM.
    apply Matches_lit_i_inv in HM1 as (w & s' & ps' & Es & Hw & Hc & HM2).
    inversion HM2 as [| | |r1 prev1 s1 ps1 rest1 Hb2 HM3|]; subst; clear HM2.
    inversion HM3; subst; clear HM3.
    cbn [sconcat append] in Hc, Hb1 |- *. rewrite app_nil_r in Hc.
    rewrite Hc in Hb1 |- *.
    exists pre, w, post. rewrite toUpperCase_idem in Hw.
    repeat split; auto. unfold boundary. rewrite lastOr_app. exact Hb2.
  - intros (pre & m & post & -> & Hm & Hb1 & Hb2).
    exists pre, m, post. split; [reflexivity|].
    unfold boundary in Hb2. rewrite lastOr_app in Hb2.
    destruct (Matches_lit_i_intro (toUpperCase keyword) [WordB]
                m (lastOr None pre) post [""]%list post) as (ps & HP).
    + rewrite toUpperCase_idem. exact Hm.
    + constructor; [exact Hb2|constructor].
    + exists ("" :: ps)%list. constructor; [exact Hb1|exact HP].
Qed.

Lemma gt_parseFloatOfNumber n : gt (parseFloatOfNumber n) zero = gt n zero.
Proof. destruct n; reflexivity. Qed.

(** ** Categorizer: patterns that do not compile *)

Lemma in_split_first (x : string) (l : list string) :
  In x l -> exists pre post, l = (pre ++ x :: post)%list /\ ~ In x pre.
Proof.
  induction l as [|y l IH]; intros H; [destruct H|].
  destruct (string_dec y x) as [->|Hne].
  - exists [], l. split; [reflexivity|intros []].
  - destruct H as [->|H]; [destruct (Hne eq_refl)|].
    destruct (IH H) as (pre & post & -> & Hn).
    exists (y :: pre), post. split; [reflexivity|].
    intros [->|Hin]; [destruct (Hne eq_refl)|exact (Hn Hin)].
Qed.

Lemma StronglySorted_app_before (l1 l2 : list string) x y :
  StronglySorted lengthDesc (l1 ++ x :: l2)%list -> In y l1 -> lengthDesc y x.
Proof.
  induction l1 as [|z l1 IH]; simpl; intros Hs Hin; [destruct Hin|].
  inversion Hs as [|? ? Hs' Hall]; subst.
  destruct Hin as [->|Hin]; [|exact (IH Hs' Hin)].
  rewrite Forall_forall in Hall. apply Hall, in_or_app. right; left; reflexivity.
Qed.

(** A keyword of letters, digits and the like with a parenthesis left open
    or closed too early makes the choice for a row throw, when the Amount is
    not greater than 0 and no other keyword at least as long matches. *)
Lemma rowCategory_unbalanced_keyword hostRegExp allCats row kw :
  gt (Amount row) zero = false ->
  In kw (keys allCats) ->
  sforall (fun c => negb (isSyntaxChar c) || isParen c) (toUpperCase kw) = true ->
  balanced 0 (toUpperCase kw) = false ->
  (forall k, In k (keys allCats) -> k <> kw -> length kw <= length k ->
             keywordTest hostRegExp k (strictClean (Description row)) = Normal false) ->
  rowCategory hostRegExp allCats (sortByLengthDesc (keys allCats)) row
  = Throw SyntaxError.
Proof.
  intros Hamt Hin Hplain Hunb Hothers.
  unfold rowCategory, categoryOf. rewrite gt_parseFloatOfNumber, Hamt.
  assert (Hs := sortByLengthDesc_sorted (keys allCats)).
  destruct (in_split_first kw (sortByLengthDesc (keys allCats)))
    as (pre & post & Heq & Hnot); [apply sortByLengthDesc_In, Hin|].
  rewrite Heq in Hs |- *.
  apply firstMatch_throws.
  - intros k Hk. apply Hothers.
    + apply (sortByLengthDesc_In (keys allCats)). rewrite Heq.
      apply in_or_app; left; exact Hk.
    + intros ->. exact (Hnot Hk).
    + exact (StronglySorted_app_before _ _ _ _ Hs Hk).
  - unfold keywordTest, newRegExp_wordBounded. rewrite Hplain, Hunb. reflexivity.
Qed.

(** C2.  The keyword is put into the pattern as it is, and a keyword that
    is no pattern breaks the rule of the longest matching keyword.

    The rule holds of the keywords whose patterns compile.  For a
    transaction whose Amount is not greater than 0, when a keyword [k1]
    matches the cleaned description and no keyword at least as long has a
    pattern that fails to compile, the category is that of a matching
    keyword at least as long as [k1]: a shorter keyword never wins over a
    longer one that matches, and [k1] itself wins when no other keyword of
    its length or more matches, be it the only keyword that matches or
    the longest of several.  When every pattern compiles and none matches,
    the category is Uncategorized.  For a keyword without pattern syntax the
    pattern compiles and matches when the keyword stands in the description
    as a whole word, letters compared without regard to case.

    The rule fails on a keyword whose parentheses do not balance: its
    pattern does not compile, and when no other keyword at least as long
    matches, building it throws a SyntaxError in place of a category.  So
    with the custom table the handler saves after the reply "(ab", no
    keyword matches the coffee and the category is not Uncategorized; and
    with FOODS, WHOLE FOODS and a longer keyword with a parenthesis left
    open, the purchase is matched by the first two and the category is not
    the one of WHOLE FOODS.  In both cases there is no category at all. *)
Theorem C2_unescaped_keyword_breaks_keyword_rule :
  (forall hostRegExp CATEGORIES custom (row : Transaction),
     gt (Amount row) zero = false ->
     let allCats := spread CATEGORIES custom in
     let kws := keys allCats in
     let desc := strictClean (Description row) in
     let result := rowCategory hostRegExp allCats (sortByLengthDesc kws) row in
     (forall k1,
         In k1 kws ->
         keywordTest hostRegExp k1 desc = Normal true ->
         (forall k e, In k kws -> length k1 <= length k ->
                      keywordTest hostRegExp k desc <> Throw e) ->
         (exists k, In k kws /\ length k1 <= length k /\
                    keywordTest hostRegExp k desc = Normal true /\
                    result = Normal (categoryAt allCats k))
         /\
         ((forall k, In k kws -> length k1 <= length k -> k <> k1 ->
                     keywordTest hostRegExp k desc = Normal false) ->
          result = Normal (categoryAt allCats k1)))
     /\
     ((forall k, In k kws -> keywordTest hostRegExp k desc = Normal false) ->
      result = Normal "Uncategorized")
     /\
     (forall k, plain k = true ->
                exists b, keywordTest hostRegExp k desc = Normal b /\
                          (b = true <-> wholeWord k desc))
     /\
     (forall kw,
         In kw kws ->
         sforall (fun c => negb (isSyntaxChar c) || isParen c) (toUpperCase kw) = true ->
         balanced 0 (toUpperCase kw) = false ->
         keywordTest hostRegExp kw desc = Throw SyntaxError /\
         ((forall k, In k kws -> k <> kw -> length kw <= length k ->
                     keywordTest hostRegExp k desc = Normal false) ->
          result = Throw SyntaxError)))
  /\
  (forall hostRegExp,
     let allCats := spread [] parenStore in
     let desc := strictClean (Description sampleCoffee) in
     gt (Amount sampleCoffee) zero = false /\
     (forall k, In k (keys allCats) ->
                keywordTest hostRegExp k desc <> Normal true) /\
     rowCategory hostRegExp allCats (sortByLengthDesc (keys allCats)) sampleCoffee
     = Throw SyntaxError /\
     categorizeTransactions hostRegExp [] parenStore [sampleCoffee]
     = Throw SyntaxError)
  /\
  (forall hostRegExp,
     let allCats := spread organicStore [] in
     let desc := strictClean (Description samplePurchase) in
     gt (Amount samplePurchase) zero = false /\
     length "FOODS" < length "WHOLE FOODS" /\
     keywordTest hostRegExp "WHOLE FOODS" desc = Normal true /\
     keywordTest hostRegExp "FOODS" desc = Normal true /\
     categoryAt allCats "WHOLE FOODS" = "Groceries" /\
     rowCategory hostRegExp allCats (sortByLengthDesc (keys allCats)) samplePurchase
     = Throw SyntaxError /\
     categorizeTransactions hostRegExp organicStore [] [samplePurchase]
     = Throw SyntaxError).
Proof.
  split; [|split].
  - intros host CATS custom row Hamt allCats kws desc result.
    assert (Hres : result = firstMatch host allCats (sortByLengthDesc kws) desc).
    { unfold result, rowCategory, categoryOf.
      rewrite gt_parseFloatOfNumber, Hamt. reflexivity. }
    split; [|split; [|split]].
    + intros k1 H1 T1 Hok.
      assert (Hex : exists k, In k kws /\ length k1 <= length k /\
                              keywordTest host k desc = Normal true /\
                              result = Normal (categoryAt allCats k)).
      { destruct (firstMatch_longest host allCats desc (sortByLengthDesc kws) k1)
          as (k & Hk & Hl & Ht & Hr).
        - apply sortByLengthDesc_sorted.
        - apply sortByLengthDesc_In, H1.
        - exact T1.
        - intros k e Hk. apply Hok. apply sortByLengthDesc_In, Hk.
        - exists k. rewrite Hres. repeat split; auto.
          apply sortByLengthDesc_In, Hk. }
      split; [exact Hex|].
      intros Honly. destruct Hex as (k & Hk & Hl & Ht & Hr).
      destruct (string_dec k k1) as [->|Hne]; [exact Hr|].
      rewrite (Honly k Hk Hl Hne) in Ht. discriminate.
    + intros Hnone. rewrite Hres. apply firstMatch_none.
      intros k Hk. apply Hnone, sortByLengthDesc_In, Hk.
    + intros k Hp. apply keywordTest_plain, Hp.
    + intros kw Hin Hp Hb. split.
      * unfold keywordTest, newRegExp_wordBounded. rewrite Hp, Hb. reflexivity.
      * intros Hothers.
        exact (rowCategory_unbalanced_keyword host allCats row kw Hamt Hin Hp Hb Hothers).
  - intros host. cbv zeta. split; [reflexivity|]. split; [|split; reflexivity].
    intros k [<-|[]]. discriminate.
  - intros host. cbv zeta. repeat split; try reflexivity. vm_compute. lia.
Qed.

(** With FOODS and WHOLE FOODS alone, the purchase goes to the category of
    WHOLE FOODS; and the coffee, matched by neither, is Uncategorized. *)
Lemma C2_witness :
  (gt (Amount samplePurchase) zero = false /\
   rowCategory noHost (spread twoKeywords [])
               (sortByLengthDesc (keys (spread twoKeywords []))) samplePurchase
   = Normal "Groceries") /\
  (gt (Amount sampleCoffee) zero = false /\
   rowCategory noHost (spread twoKeywords [])
               (sortByLengthDesc (keys (spread twoKeywords []))) sampleCoffee
   = Normal "Uncategorized").
Proof.
  split; (split; [reflexivity|]).
  - refine (proj2 (proj1 (proj1 C2_unescaped_keyword_breaks_keyword_rule
                            noHost twoKeywords [] samplePurchase eq_refl)
                         "WHOLE FOODS" _ _ _) _).
    + right; left; reflexivity.
    + reflexivity.
    + intros k e [<-|[<-|[]]] _; vm_compute; discriminate.
    + intros k [<-|[<-|[]]] Hl Hne.
      * vm_compute in Hl. lia.
      * destruct (Hne eq_refl).
  - refine (proj1 (proj2 (proj1 C2_unescaped_keyword_breaks_keyword_rule
                            noHost twoKeywords [] sampleCoffee eq_refl)) _).
    intros k [<-|[<-|[]]]; reflexivity.
Defined.

(** C10.  The categorizer does not return for every reachable store.  The
    reply "(ab" to the prompt passes the filter of the handler, which commits
    the keyword (AB; the pattern built from it has an unclosed group, and
    with that store the categorizer throws a SyntaxError, whatever the
    pattern engine does elsewhere, on a row that reaches the keyword. *)
Theorem C10_unescaped_keyword_throws :
  exists st' custom,
    assignBtn_onclick parenPage freshState = (Displayed, st') /\
    customCategories st' = Some custom /\
    In "(AB" (keys custom) /\
    keywordOk "(AB" = true /\
    existsb isSyntaxChar (list_ascii_of_string "(AB") = true /\
    forall hostRegExp,
      categorizeTransactions hostRegExp sampleCategories custom [sampleCoffee]
      = Throw SyntaxError.
Proof.
  eexists. exists [("(AB", "Misc")].
  split; [reflexivity|]. split; [reflexivity|].
  split; [left; reflexivity|]. split; [reflexivity|]. split; [reflexivity|].
  intros host. reflexivity.
Qed.

(** ** Reassignment *)

Section Reassign.
Variable target : string.
Variable rows : list Checkbox.

Lemma selectedHas_true t :
  selectedHas rows t = true <-> exists r, In r rows /\ boxKey r = key t.
Proof.
  unfold selectedHas. rewrite existsb_exists. split.
  - intros (r & Hin & H). apply andb_true_iff in H as [H1 H2].
    apply String.eqb_eq in H1, H2. exists r. split; [exact Hin|].
    unfold boxKey, key. rewrite H1, H2. reflexivity.
  - intros (r & Hin & H). exists r. split; [exact Hin|].
    unfold boxKey, key in H. injection H as H1 H2.
    rewrite H1, H2, !String.eqb_refl. reflexivity.
Qed.

Lemma selectedHas_pushed r : In r rows -> selectedHas rows (pushed r) = true.
Proof. intros H. apply selectedHas_true. exists r. split; [exact H|reflexivity]. Qed.

(** The first loop returns unless the target names a member of
    [Object.prototype] and no group; it adds the pushed records to the
    group of the target. *)
Lemma pushSelected_spec :
  forall (sel : list Checkbox) g,
    inherited target = false \/ get g target <> None \/ sel = [] ->
    exists g1, pushSelected target sel g = Normal g1 /\
               (get g target <> None -> get g1 target <> None) /\
               forall c t, InGroup g1 c t <->
                           InGroup g c t \/ (c = target /\ exists r, In r sel /\ t = pushed r).
Proof.
  unfold pushSelected.
  induction sel as [|r sel IH]; intros g Hok.
  - exists g. split; [reflexivity|]. split; [auto|].
    intros c t. split; [auto|]. intros [H|(_ & r & [] & _)]. exact H.
  - simpl.
    assert (Hpush : exists g0, pushTo g target (pushed r) = Normal g0 /\
                               get g0 target <> None).
    { unfold pushTo. destruct (get g target) as [l|] eqn:G.
      - eexists. split; [reflexivity|]. rewrite get_set_same. discriminate.
      - destruct Hok as [Hi|[Hg|He]]; [|destruct (Hg eq_refl)|discriminate].
        rewrite Hi. eexists. split; [reflexivity|]. rewrite get_set_same. discriminate. }
    destruct Hpush as (g0 & Hp & Hg0). rewrite Hp. simpl.
    destruct (IH g0 (or_intror (or_introl Hg0))) as (g1 & Hf & Hk & Hin).
    exists g1. split; [exact Hf|]. split; [intros _; exact (Hk Hg0)|].
    intros c t. rewrite Hin, (pushTo_InGroup _ _ _ _ Hp c t). split.
    + intros [[H|[-> ->]]|(-> & r' & Hr' & ->)].
      * left; exact H.
      * right. split; [reflexivity|]. exists r. split; [left|]; reflexivity.
      * right. split; [reflexivity|]. exists r'. split; [right; exact Hr'|reflexivity].
    + intros [H|(-> & r' & [<-|Hr'] & ->)].
      * left; left; exact H.
      * left; right. split; reflexivity.
      * right. split; [reflexivity|]. exists r'. split; [exact Hr'|reflexivity].
Qed.

Lemma get_removeSelected (g : Groups) c :
  get (removeSelected target rows g) c =
  match get g c with
  | Some l => Some (if String.eqb c target then l
                    else filter (fun txn => negb (selectedHas rows txn)) l)
  | None => None
  end.
Proof.
  induction g as [|[k l] g IH]; simpl; [reflexivity|].
  destruct (String.eqb k target) eqn:Ek; simpl;
    destruct (String.eqb k c) eqn:Ec; try exact IH;
    apply String.eqb_eq in Ec; subst c; rewrite Ek; reflexivity.
Qed.

(** The second loop keeps the group of the target and, elsewhere, the
    transactions whose pair is not selected. *)
Lemma removeSelected_InGroup (g : Groups) c t :
  InGroup (removeSelected target rows g) c t <->
  InGroup g c t /\ (c = target \/ selectedHas rows t = false).
Proof.
  unfold InGroup. rewrite get_removeSelected. split.
  - intros (l' & Hg & Hin). destruct (get g c) as [l|]; [|discriminate].
    injection Hg as <-. destruct (String.eqb c target) eqn:E.
    + apply String.eqb_eq in E. split; [eauto|left; exact E].
    + apply filter_In in Hin as [Hin Hs]. split; [eauto|right].
      apply negb_true_iff, Hs.
  - intros ((l & Hg & Hin) & Hc). rewrite Hg.
    eexists. split; [reflexivity|].
    destruct (String.eqb c target) eqn:E; [exact Hin|].
    apply filter_In. split; [exact Hin|].
    destruct Hc as [->|Hs]; [rewrite String.eqb_refl in E; discriminate|].
    rewrite Hs. reflexivity.
Qed.

(** What the groups list after the two loops. *)
Lemma reassign_spec g :
  inherited target = false \/ get g target <> None \/ rows = [] ->
  exists g', reassign target rows g = Normal g' /\
             forall c t,
               InGroup g' c t <->
               (InGroup g c t \/ (c = target /\ exists r, In r rows /\ t = pushed r))
               /\ (c = target \/ selectedHas rows t = false).
Proof.
  intros Hok. destruct (pushSelected_spec rows g Hok) as (g1 & Hp & _ & Hin).
  exists (removeSelected target rows g1). unfold reassign. rewrite Hp.
  split; [reflexivity|]. intros c t.
  rewrite removeSelected_InGroup, Hin. reflexivity.
Qed.

(** It throws exactly when something is selected and the target names a
    member of [Object.prototype] and no group. *)
Lemma reassign_throws g e :
  reassign target rows g = Throw e <->
  e = TypeError /\ rows <> [] /\ inherited target = true /\ get g target = None.
Proof.
  split.
  - intros H.
    destruct (inherited target) eqn:Hi.
    + destruct (get g target) as [l|] eqn:G.
      * destruct (reassign_spec g) as (g' & Hr & _);
          [right; left; rewrite G; discriminate|]. rewrite Hr in H. discriminate.
      * destruct rows as [|r rs] eqn:R.
        -- discriminate.
        -- unfold reassign, pushSelected in H. simpl in H.
           unfold pushTo in H. rewrite G, Hi in H. simpl in H. injection H as <-.
           repeat split. discriminate.
    + destruct (reassign_spec g) as (g' & Hr & _); [left; exact Hi|].
      rewrite Hr in H. discriminate.
  - intros (-> & Hne & Hi & G).
    destruct rows as [|r rs] eqn:R; [destruct (Hne eq_refl)|].
    unfold reassign, pushSelected. simpl. unfold pushTo. rewrite G, Hi. reflexivity.
Qed.

End Reassign.

(** What a push and the first loop change in the groups. *)
Lemma get_pushTo g c t g' :
  pushTo g c t = Normal g' ->
  forall c', get g' c' = if String.eqb c c' then Some (groupOf g c ++ [t])%list
                         else get g c'.
Proof.
  unfold pushTo, groupOf. intros H c'.
  destruct (get g c) as [l|] eqn:G.
  - injection H as <-. rewrite get_set. reflexivity.
  - destruct (inherited c); [discriminate|]. injection H as <-.
    rewrite get_set. reflexivity.
Qed.

Section ReassignGroups.
Variable target : string.

Lemma get_pushSelected :
  forall (sel : list Checkbox) g g1,
    pushSelected target sel g = Normal g1 ->
    get g1 target = extended (get g target) (map pushed sel) /\
    forall c, c <> target -> get g1 c = get g c.
Proof.
  unfold pushSelected.
  induction sel as [|r sel IH]; intros g g1 H.
  - simpl in H. injection H as <-. split; [|reflexivity].
    unfold extended. simpl. destruct (get g target); [rewrite List.app_nil_r|]; reflexivity.
  - cbn [forEach] in H. unfold bind at 1 in H.
    destruct (pushTo g target (pushed r)) as [g0|e] eqn:P; [|discriminate].
    destruct (IH g0 g1 H) as [Ht Ho]. split.
    + rewrite Ht, (get_pushTo _ _ _ _ P target), String.eqb_refl.
      unfold groupOf, extended. cbn [map].
      destruct (get g target); [rewrite <- List.app_assoc|]; reflexivity.
    + intros c Hc. rewrite (Ho c Hc), (get_pushTo _ _ _ _ P c).
      destruct (String.eqb target c) eqn:E; [|reflexivity].
      apply String.eqb_eq in E. congruence.
Qed.

End ReassignGroups.

Lemma InGroup_single c l c' t : InGroup [(c, l)] c' t -> c' = c /\ In t l.
Proof.
  intros (l' & Hg & Hin). simpl in Hg.
  destruct (String.eqb c c') eqn:E; [|discriminate].
  apply String.eqb_eq in E. injection Hg as <-. auto.
Qed.

Lemma InGroup_cons c l (g : Groups) c' t :
  InGroup ((c, l) :: g) c' t -> (c' = c /\ In t l) \/ InGroup g c' t.
Proof.
  intros (l' & Hg & Hin). simpl in Hg.
  destruct (String.eqb c c') eqn:E.
  - apply String.eqb_eq in E. injection Hg as <-. left; auto.
  - right. exists l'. auto.
Qed.

(** The record the handler builds from the checkbox of a transaction is
    the transaction, the sign of a zero apart. *)
Lemma pushed_checkboxOf t :
  Amount t <> S754_zero true -> pushed (checkboxOf t) = t.
Proof.
  destruct t as [d a x]. unfold pushed, checkboxOf. simpl. intros H.
  f_equal. destruct a as [[|]| | |]; try reflexivity. destruct (H eq_refl).
Qed.

(** The categorizer stores no negative zero. *)
Lemma categorizeTransactions_noNegativeZero hostRegExp CATEGORIES custom data g :
  categorizeTransactions hostRegExp CATEGORIES custom data = Normal g ->
  noNegativeZero g.
Proof.
  intros H c t Hin.
  apply (categorizeTransactions_InGroup _ _ _ _ _ H) in Hin as (row & _ & -> & _).
  unfold cleaned. simpl. destruct (Amount row); discriminate.
Qed.

(** What the groups list after the reassignment of listed transactions
    that their pairs tell apart. *)
Lemma reassign_listed (g : Groups) (sel : list Transaction) (target : string) :
  onePlacePerPair g -> noNegativeZero g -> listed g sel ->
  inherited target = false \/ get g target <> None ->
  exists g',
    reassign target (map checkboxOf sel) g = Normal g' /\
    (forall t, (exists c, InGroup g c t) ->
               selectedHas (map checkboxOf sel) t = true <-> In t sel) /\
    get g' target = extended (get g target) sel /\
    forall c t,
      InGroup g' c t <->
      (InGroup g c t \/ (c = target /\ In t sel)) /\ (c = target \/ ~ In t sel).
Proof.
  intros Hpair Hzero Hsel Hok.
  destruct (reassign_spec target (map checkboxOf sel) g) as (g' & Hr & Hin).
  { destruct Hok as [H|H]; [left|right; left]; exact H. }
  assert (Hmap : map pushed (map checkboxOf sel) = sel).
  { rewrite map_map. rewrite <- (map_id sel) at 2. apply map_ext_in.
    intros s Hs. destruct (Hsel s Hs) as (c & Hc).
    apply pushed_checkboxOf, (Hzero c s Hc). }
  assert (Htarget : get g' target = extended (get g target) sel).
  { unfold reassign in Hr.
    destruct (pushSelected target (map checkboxOf sel) g) as [g1|e] eqn:P;
      [|discriminate].
    simpl in Hr. injection Hr as <-.
    destruct (get_pushSelected target _ _ _ P) as [Ht _].
    rewrite get_removeSelected, Ht, Hmap, String.eqb_refl.
    destruct (extended (get g target) sel); reflexivity. }
  assert (Hpushed : forall t, (exists r, In r (map checkboxOf sel) /\ t = pushed r)
                              <-> In t sel).
  { intros t. split.
    - intros (r & Hr' & ->). apply in_map_iff in Hr' as (s & <- & Hs).
      destruct (Hsel s Hs) as (c & Hc).
      rewrite (pushed_checkboxOf s (Hzero c s Hc)). exact Hs.
    - intros Ht. exists (checkboxOf t). split; [apply in_map, Ht|].
      destruct (Hsel t Ht) as (c & Hc).
      rewrite (pushed_checkboxOf t (Hzero c t Hc)). reflexivity. }
  assert (Hhas : forall t, (exists c, InGroup g c t) ->
                           selectedHas (map checkboxOf sel) t = true <-> In t sel).
  { intros t (c & Hc). rewrite selectedHas_true. split.
    - intros (r & Hr' & Hk). apply in_map_iff in Hr' as (s & <- & Hs).
      destruct (Hsel s Hs) as (c' & Hc').
      destruct (Hpair c' c s t Hc' Hc Hk) as [<- _]. exact Hs.
    - intros Ht. exists (checkboxOf t). split; [apply in_map, Ht|reflexivity]. }
  exists g'. split; [exact Hr|]. split; [exact Hhas|]. split; [exact Htarget|].
  intros c t. rewrite Hin, Hpushed.
  assert (Hl : InGroup g c t \/ c = target /\ In t sel -> exists c0, InGroup g c0 t).
  { intros [H|[_ H]]; [eauto|exact (Hsel t H)]. }
  split.
  - intros [H [Hc|Hs]]; (split; [exact H|]); [left; exact Hc|right].
    intros Ht. apply (Hhas t (Hl H)) in Ht. rewrite Ht in Hs. discriminate.
  - intros [H [Hc|Hs]]; (split; [exact H|]); [left; exact Hc|right].
    destruct (selectedHas (map checkboxOf sel) t) eqn:E; [|reflexivity].
    destruct (Hs (proj1 (Hhas t (Hl H)) E)).
Qed.

(** C3, as amended.  Let every (Date, Description) pair belong to one
    transaction, listed in one group, and no Amount be the negative zero;
    let the selection be of listed transactions and the target be a group
    or no member of [Object.prototype].  Then the reassignment returns, and
    every transaction that was in some group belongs to exactly one group
    afterwards: a selected transaction to the target, whose list is the
    old one followed by the selected transactions themselves, and any other
    transaction to the group it was in.  Nothing else is listed, and the two
    conditions hold again of the new groups. *)
Theorem C3_reassign_one_group_per_transaction :
  forall (g : Groups) (sel : list Transaction) (target : string),
    onePlacePerPair g ->
    noNegativeZero g ->
    listed g sel ->
    inherited target = false \/ get g target <> None ->
    exists g',
      reassign target (map checkboxOf sel) g = Normal g' /\
      (forall t, (exists c, InGroup g c t) ->
                 exists c, InGroup g' c t /\ forall c', InGroup g' c' t -> c' = c) /\
      (forall t, In t sel -> InGroup g' target t) /\
      (sel <> [] -> get g' target = Some (groupOf g target ++ sel)%list) /\
      (forall c t, InGroup g c t -> ~ In t sel -> InGroup g' c t) /\
      (forall c t, InGroup g' c t -> exists c0, InGroup g c0 t) /\
      onePlacePerPair g' /\
      noNegativeZero g'.
Proof.
  intros g sel target Hpair Hzero Hsel Hok.
  destruct (reassign_listed g sel target Hpair Hzero Hsel Hok)
    as (g' & Hr & Hhas & Htarget & Hin).
  exists g'. split; [exact Hr|].
  assert (Hone : forall t c c', InGroup g c t -> InGroup g c' t -> c = c').
  { intros t c c' H H'. exact (proj2 (Hpair c c' t t H H' eq_refl)). }
  assert (Hold : forall c t, InGroup g' c t -> exists c0, InGroup g c0 t).
  { intros c t H. apply Hin in H as [[H|[_ H]] _]; [eauto|exact (Hsel t H)]. }
  assert (Hwhere : forall c0 t, InGroup g c0 t ->
            (In t sel /\ forall c, InGroup g' c t <-> c = target) \/
            (~ In t sel /\ forall c, InGroup g' c t <-> c = c0)).
  { intros c0 t H0.
    destruct (selectedHas (map checkboxOf sel) t) eqn:E.
    - assert (Ht : In t sel) by (apply (Hhas t); eauto).
      left. split; [exact Ht|]. intros c. rewrite Hin. split.
      + intros [_ [Hc|Hn]]; [exact Hc|destruct (Hn Ht)].
      + intros ->. split; [right; auto|left; reflexivity].
    - assert (Ht : ~ In t sel).
      { intros Ht. apply (Hhas t) in Ht; [|eauto]. rewrite Ht in E. discriminate. }
      right. split; [exact Ht|]. intros c. rewrite Hin. split.
      + intros [[H|[_ H]] _]; [exact (Hone t c c0 H H0)|destruct (Ht H)].
      + intros ->. split; [left; exact H0|right; exact Ht]. }
  split; [|split; [|split; [|split; [|split; [exact Hold|split]]]]].
  - intros t (c0 & H0).
    destruct (Hwhere c0 t H0) as [[_ H]|[_ H]].
    + exists target. split; [apply H; reflexivity|]. intros c' H'. apply H, H'.
    + exists c0. split; [apply H; reflexivity|]. intros c' H'. apply H, H'.
  - intros t Ht. apply Hin. split; [right; auto|left; reflexivity].
  - intros Hne. rewrite Htarget. unfold extended, groupOf.
    destruct (get g target); [reflexivity|].
    destruct sel; [destruct (Hne eq_refl)|reflexivity].
  - intros c t H Ht. apply Hin. split; [left; exact H|right; exact Ht].
  - intros c c' t t' H H' Hk.
    destruct (Hold c t H) as (c0 & H0). destruct (Hold c' t' H') as (c0' & H0').
    destruct (Hpair c0 c0' t t' H0 H0' Hk) as [<- <-].
    split; [reflexivity|].
    destruct (Hwhere c0 t H0) as [[_ Hw]|[_ Hw]];
      apply Hw in H; apply Hw in H'; congruence.
  - intros c t H. destruct (Hold c t H) as (c0 & H0). exact (Hzero c0 t H0).
Qed.

(** C3 fails as stated.  A deposit and a withdrawal share their date and
    description; the categorizer lists the first under Income and the second
    under Transfers, each transaction in one group.  Moving the deposit alone
    to Savings removes the withdrawal from Transfers, and the withdrawal is
    then in no group. *)
Lemma C3_counterexample :
  categorizeTransactions noHost [("TRANSFER", "Transfers")] []
                         [transferIn; transferOut] = Normal transferGroups /\
  oneGroupPerTransaction transferGroups /\
  ~ staysInOneGroup transferGroups [transferInBox] "Savings".
Proof.
  split; [reflexivity|]. split.
  - intros t c c' H H'.
    apply InGroup_cons in H as [[-> Ht]|H]; apply InGroup_cons in H' as [[-> Ht']|H'];
      try reflexivity.
    + apply InGroup_single in H' as [-> Ht'].
      destruct Ht as [<-|[]]. destruct Ht' as [Ht'|[]]. discriminate Ht'.
    + apply InGroup_single in H as [-> Ht].
      destruct Ht as [<-|[]]. destruct Ht' as [Ht'|[]]. discriminate Ht'.
    + apply InGroup_single in H as [-> _]. apply InGroup_single in H' as [-> _].
      reflexivity.
  - intros H. unfold staysInOneGroup in H.
    destruct (H ltac:(discriminate) _ eq_refl transferOut) as (c & Hc & _).
    + exists "Transfers". exists [transferOut]. split; [reflexivity|left; reflexivity].
    + apply InGroup_cons in Hc as [[_ []]|Hc].
      apply InGroup_cons in Hc as [[_ []]|Hc].
      apply InGroup_single in Hc as [_ [Ht|[]]]. discriminate Ht.
Qed.

(** What is listed in the three sample groups. *)
Lemma InGroup_threeGroups c t :
  InGroup threeGroups c t ->
  (c = "Supermarket" /\ t = samplePurchase) \/
  (c = "Income" /\ t = sampleSalary) \/
  (c = "Uncategorized" /\ t = sampleCoffee).
Proof.
  intros H. apply InGroup_cons in H as [[-> [<-|[]]]|H]; [auto|].
  apply InGroup_cons in H as [[-> [<-|[]]]|H]; [auto|].
  apply InGroup_single in H as [-> [<-|[]]]. auto.
Qed.

(** The purchase, the salary and the coffee are in three groups; the
    coffee is moved to the group of the purchase.  It is listed there, the
    purchase as well, the salary stays under Income, and the coffee is no
    longer Uncategorized. *)
Lemma C3_witness :
  categorizeTransactions noHost sampleCategories []
                         [samplePurchase; sampleSalary; sampleCoffee]
  = Normal threeGroups /\
  exists g',
    reassign "Supermarket" (map checkboxOf [sampleCoffee]) threeGroups = Normal g' /\
    get g' "Supermarket" = Some [samplePurchase; sampleCoffee] /\
    InGroup g' "Supermarket" sampleCoffee /\
    InGroup g' "Supermarket" samplePurchase /\
    InGroup g' "Income" sampleSalary /\
    ~ InGroup g' "Uncategorized" sampleCoffee.
Proof.
  split; [reflexivity|].
  destruct (C3_reassign_one_group_per_transaction threeGroups [sampleCoffee] "Supermarket")
    as (g' & Hr & Hone & Hsel & Hlist & Hrest & _).
  - intros c c' t t' H H' Hk.
    apply InGroup_threeGroups in H as [[-> ->]|[[-> ->]|[-> ->]]];
      apply InGroup_threeGroups in H' as [[-> ->]|[[-> ->]|[-> ->]]];
      try (split; reflexivity); discriminate Hk.
  - intros c t H.
    apply InGroup_threeGroups in H as [[-> ->]|[[-> ->]|[-> ->]]]; discriminate.
  - intros t [<-|[]]. exists "Uncategorized".
    exists [sampleCoffee]. split; [reflexivity|left; reflexivity].
  - left; reflexivity.
  - exists g'. split; [exact Hr|].
    split; [exact (Hlist ltac:(discriminate))|].
    assert (Hc : InGroup g' "Supermarket" sampleCoffee) by (apply Hsel; left; reflexivity).
    split; [exact Hc|]. split; [|split].
    + apply Hrest.
      * exists [samplePurchase]. split; [reflexivity|left; reflexivity].
      * intros [H|[]]. discriminate H.
    + apply Hrest.
      * exists [sampleSalary]. split; [reflexivity|left; reflexivity].
      * intros [H|[]]. discriminate H.
    + intros Hu.
      destruct (Hone sampleCoffee) as (c & _ & Huniq).
      * exists "Uncategorized". exists [sampleCoffee].
        split; [reflexivity|left; reflexivity].
      * pose proof (Huniq _ Hc) as E1. pose proof (Huniq _ Hu) as E2.
        rewrite <- E2 in E1. discriminate E1.
Defined.


(** ** The keyword learner *)

Lemma test_re_allDigits k :
  test re_allDigits k = true <-> digits k /\ 1 <= length k.
Proof.
  unfold re_allDigits. rewrite test_Bol. split.
  - intros (ps & rest & H). inv_matches. rewrite app_nil_r. auto.
  - intros [Hd Hl]. exists [""; k; ""]%list, "".
    rewrite <- (app_nil_r k) at 1.
    constructor. apply M_Rep; [exact Hd|exact Hl|exact I|].
    constructor. constructor.
Qed.

(** The filter keeps the entries of three characters or more that are not
    made of digits only. *)
Lemma keywordOk_spec k :
  keywordOk k = true <-> 3 <= length k /\ ~ digits k.
Proof.
  unfold keywordOk. rewrite andb_true_iff, Nat.leb_le, negb_true_iff. split.
  - intros [Hl Ht]. split; [exact Hl|]. intros Hd.
    assert (T : test re_allDigits k = true) by (apply test_re_allDigits; split; [exact Hd|lia]).
    congruence.
  - intros [Hl Hn]. split; [exact Hl|].
    destruct (test re_allDigits k) eqn:T; [|reflexivity].
    apply test_re_allDigits in T as [Hd _]. destruct (Hn Hd).
Qed.

(** The keywords committed: the entries between the commas, trimmed and in
    upper case, that the filter keeps. *)
Lemma keywordsOf_spec rawInput k :
  In k (keywordsOf rawInput) <->
  exists entry, In entry (split "," rawInput) /\
                k = toUpperCase (trim entry) /\
                3 <= length k /\ ~ digits k.
Proof.
  unfold keywordsOf. rewrite filter_In, in_map_iff, keywordOk_spec. split.
  - intros [(e & <- & He) H]. exists e. tauto.
  - intros (e & He & -> & H). split; [exists e; auto|exact H].
Qed.

(** Where the handler rejects the action it changes nothing. *)
Lemma rejected_changes_nothing page st msg st' :
  assignBtn_onclick page st = (Alerted msg, st') -> st' = st.
Proof.
  unfold assignBtn_onclick.
  destruct (selectedRows page); [intros H; injection H as _ <-; reflexivity|].
  destruct (_ && _); [intros H; injection H as _ <-; reflexivity|].
  destruct (prompt_reply page) as [rawInput|]; [|intros H; injection H as _ <-; reflexivity].
  destruct (isEmpty rawInput); [intros H; injection H as _ <-; reflexivity|].
  destruct (reassign _ _ _); discriminate.
Qed.

(** It rejects a reply only when there is none or it is empty. *)
Lemma reply_rejected_iff page st c cs :
  selectedRows page = c :: cs ->
  (String.eqb (dropdown_value page) "New Category..."
   && isEmpty (trim (input_value page))) = false ->
  (exists st', assignBtn_onclick page st
               = (Alerted "You must enter at least one keyword.", st')) <->
  prompt_reply page = None \/ prompt_reply page = Some "".
Proof.
  intros Hsel Hnew. unfold assignBtn_onclick. rewrite Hsel, Hnew.
  destruct (prompt_reply page) as [[|x r]|]; simpl.
  - split; [auto|]. intros _. eauto.
  - split; [|intros [H|H]; discriminate].
    intros (st' & H). destruct (reassign _ _ _); discriminate.
  - split; [auto|]. intros _. eauto.
Qed.

(** A reply that is not empty is never rejected, whatever the filter keeps
    of it: with no keyword kept the custom table is written back with the
    content it had and the selection is moved all the same. *)
Lemma empty_filter_never_rejected page st c cs rawInput :
  selectedRows page = c :: cs ->
  (String.eqb (dropdown_value page) "New Category..."
   && isEmpty (trim (input_value page))) = false ->
  prompt_reply page = Some rawInput -> rawInput <> "" ->
  keywordsOf rawInput = [] ->
  let chosenCategory :=
    if String.eqb (dropdown_value page) "New Category..."
    then trim (input_value page) else dropdown_value page in
  assignBtn_onclick page st =
  match reassign chosenCategory (selectedRows page) (categorized st) with
  | Throw e => (Uncaught e, mkState (Some (getCustomCategories st)) (categorized st))
  | Normal g => (Displayed, mkState (Some (getCustomCategories st)) g)
  end.
Proof.
  intros Hsel Hnew Hreply Hne Hk. unfold assignBtn_onclick.
  rewrite Hsel, Hnew, Hreply, Hk.
  apply isEmpty_false in Hne. rewrite Hne. rewrite <- Hsel. reflexivity.
Qed.

(** C4, the code at the failing input.  The reply ab holds no keyword the
    filter keeps, and the handler does not reject it: it writes the custom
    table, which had never been written, and moves the selected purchase out
    of Uncategorized into the chosen category. *)
Theorem C4_empty_filter_is_not_rejected :
  keywordsOf "ab" = [] /\
  assignBtn_onclick shortReplyPage freshState
  = (Displayed,
     mkState (Some [])
             [("Uncategorized", []);
              ("Misc", [mkTransaction "2024-03-05" (parseFloat "-4.50")
                                      "ACME COFFEE SHOP"])]) /\
  customCategories freshState = None /\
  categorized freshState = [("Uncategorized", [sampleCoffee])].
Proof. repeat split; reflexivity. Qed.

(** ** The examples of the specification *)

Example normalizeDate_examples :
  normalizeDate (Some "3/4/2024") = "2024-03-04" /\
  normalizeDate (Some "2024-03-04") = "2024-03-04" /\
  normalizeDate (Some "N/A") = "N/A".
Proof. repeat split; reflexivity. Qed.

Example detectProfile_examples :
  detectProfile (Some ["Date"; "Transaction"; "Name"; "Memo"; "Amount"])
  = USBank_WithHeaders /\
  detectProfile (Some ["3/4/2024"; "-12.00"; "*"; ""; "COFFEE SHOP"])
  = YourBank_NoHeader_5Cols /\
  detectProfile (Some ["2024-03-04"; "DEBIT"; "ACME"; "RENT"; "-900.00"])
  = USBank_NoHeaderBody.
Proof. repeat split; reflexivity. Qed.

(** A salary row of the first bank, imported and categorized. *)
Example import_payroll :
  forall hostRegExp,
    categorizeTransactions hostRegExp sampleCategories []
      [mapRow YourBank_NoHeader_5Cols
              ["3/4/2024"; "1500.00"; "*"; ""; "PAYROLL DEPOSIT"]]
    = Normal [("Income",
               [mkTransaction "2024-03-04"
                              (S754_finite false 6597069766656000 (-42))
                              "PAYROLL DEPOSIT"])].
Proof. intros hostRegExp. reflexivity. Qed.

(** The uncategorized coffee purchase, moved to a new category Coffee with
    the keyword ACME COFFEE. *)
Example learn_coffee :
  assignBtn_onclick
    (mkPage [coffeeBox] "New Category..." " Coffee " (Some "acme coffee"))
    freshState
  = (Displayed,
     mkState (Some [("ACME COFFEE", "Coffee")])
             [("Uncategorized", []); ("Coffee", [sampleCoffee])]).
Proof. reflexivity. Qed.

(** With the keyword learned, the next import files the purchase under
    Coffee. *)
Example coffee_after_learning :
  forall hostRegExp,
    categorizeTransactions hostRegExp sampleCategories
                           [("ACME COFFEE", "Coffee")] [sampleCoffee]
    = Normal [("Coffee", [sampleCoffee])].
Proof. intros hostRegExp. reflexivity. Qed.

(** Where the dollar sign stands decides: the parentheses are looked for
    before it is stripped. *)
Example dollar_and_parentheses :
  normalizeAmount (Some "($12.00)") = S754_finite true 6755399441055744 (-49) /\
  normalizeAmount (Some "$(12.00)") = S754_finite false 6755399441055744 (-49).
Proof. split; reflexivity. Qed.

(* ===================================================================== *)
(** * Further properties of the program                                  *)
(* ===================================================================== *)

(** ** Numbers: rounding keeps the sign *)

Section RoundingSign.
Variables prec emax : Z.

Lemma shr_1_nonneg mrs : (0 <= shr_m mrs)%Z -> (0 <= shr_m (shr_1 mrs))%Z.
Proof.
  destruct mrs as [m r s]. simpl.
  destruct m as [|[p|p|]|p]; simpl; intros H; lia.
Qed.

Lemma iter_pos_shr_1_nonneg p :
  forall mrs, (0 <= shr_m mrs)%Z -> (0 <= shr_m (iter_pos shr_1 p mrs))%Z.
Proof.
  induction p as [p IH|p IH|]; intros mrs H; simpl.
  - apply IH, IH, shr_1_nonneg, H.
  - apply IH, IH, H.
  - apply shr_1_nonneg, H.
Qed.

Lemma shr_fexp_nonneg m e l :
  (0 <= m)%Z -> (0 <= shr_m (fst (shr_fexp prec emax m e l)))%Z.
Proof.
  intros H. unfold shr_fexp, shr.
  assert (H0 : (0 <= shr_m (shr_record_of_loc m l))%Z)
    by (destruct l as [|[]]; exact H).
  destruct (_ - e)%Z; simpl; try exact H0.
  apply iter_pos_shr_1_nonneg, H0.
Qed.

Lemma round_nearest_even_nonneg m l :
  (0 <= m)%Z -> (0 <= round_nearest_even m l)%Z.
Proof.
  intros H. unfold round_nearest_even.
  destruct l as [|[]]; try destruct (Z.even m); lia.
Qed.

(** Rounding a mantissa that is not negative gives a number of the sign
    asked for, never NaN. *)
Lemma binary_round_aux_signed sx mx ex lx :
  (0 <= mx)%Z -> signed sx (binary_round_aux prec emax sx mx ex lx).
Proof.
  intros H. unfold binary_round_aux.
  pose proof (shr_fexp_nonneg mx ex lx H) as H1.
  destruct (shr_fexp prec emax mx ex lx) as [mrs' e']. simpl in H1.
  pose proof (shr_fexp_nonneg _ e' loc_Exact
                (round_nearest_even_nonneg _ (loc_of_shr_record mrs') H1)) as H2.
  destruct (shr_fexp prec emax _ e' loc_Exact) as [mrs'' e'']. simpl in H2.
  destruct (shr_m mrs'') as [|m|m]; simpl; [reflexivity| |lia].
  destruct (e'' <=? emax - prec)%Z; reflexivity.
Qed.

Lemma binary_round_aux_withSign sx sy mx ex lx :
  withSign sy (binary_round_aux prec emax sx mx ex lx)
  = binary_round_aux prec emax sy mx ex lx.
Proof.
  unfold binary_round_aux.
  destruct (shr_fexp prec emax mx ex lx) as [mrs' e'].
  destruct (shr_fexp prec emax _ e' loc_Exact) as [mrs'' e''].
  destruct (shr_m mrs'') as [|m|m]; simpl; try reflexivity.
  destruct (e'' <=? emax - prec)%Z; reflexivity.
Qed.

Lemma binary_round_signed sx mx ex : signed sx (binary_round prec emax sx mx ex).
Proof.
  unfold binary_round. destruct (shl_align _ _ _) as [mz ez].
  apply binary_round_aux_signed. lia.
Qed.

Lemma binary_round_withSign sx sy mx ex :
  withSign sy (binary_round prec emax sx mx ex) = binary_round prec emax sy mx ex.
Proof.
  unfold binary_round. destruct (shl_align _ _ _) as [mz ez].
  apply binary_round_aux_withSign.
Qed.

Lemma SFdiv_core_binary_nonneg mx ex my ey :
  (0 <= fst (fst (SFdiv_core_binary prec emax (Zpos mx) ex (Zpos my) ey)))%Z.
Proof.
  unfold SFdiv_core_binary. cbv zeta.
  set (s := (ex - ey - _)%Z).
  set (m' := match s with Zpos _ => Z.shiftl (Zpos mx) s | Z0 => Zpos mx | Zneg _ => 0%Z end).
  assert (Hm : (0 <= m')%Z).
  { unfold m'. destruct s; try lia. apply Z.shiftl_nonneg. lia. }
  pose proof (Z_div_mod m' (Zpos my) ltac:(lia)) as Hd.
  destruct (Z.div_eucl m' (Zpos my)) as [q r]. simpl. nia.
Qed.

End RoundingSign.

Lemma ofDecimal_signed neg m e : signed neg (ofDecimal neg m e).
Proof.
  unfold ofDecimal. destruct m as [|p]; [reflexivity|].
  destruct (0 <=? e)%Z; [apply binary_round_signed|].
  unfold SFdiv.
  pose proof (SFdiv_core_binary_nonneg 53 1024 p 0 (Z.to_pos (10 ^ (- e))) 0) as H.
  destruct (SFdiv_core_binary 53 1024 (Z.pos p) 0 (Z.pos (Z.to_pos (10 ^ (- e)))) 0)
    as [[mz ez] lz]. simpl in H.
  rewrite xorb_false_r. apply binary_round_aux_signed, H.
Qed.

Lemma ofDecimal_withSign neg s m e : withSign s (ofDecimal neg m e) = ofDecimal s m e.
Proof.
  unfold ofDecimal. destruct m as [|p]; [reflexivity|].
  destruct (0 <=? e)%Z; [apply binary_round_withSign|].
  unfold SFdiv.
  destruct (SFdiv_core_binary 53 1024 (Z.pos p) 0 (Z.pos (Z.to_pos (10 ^ (- e)))) 0)
    as [[mz ez] lz].
  rewrite !xorb_false_r. apply binary_round_aux_withSign.
Qed.

Lemma signed_not_NaN s x : signed s x -> isNaN x = false.
Proof. destruct x; simpl; intros H; [reflexivity|reflexivity|destruct H|reflexivity]. Qed.

Lemma negAbs_withSign x : negAbs x = withSign true x.
Proof. destruct x; reflexivity. Qed.

Lemma isNaN_negAbs n : isNaN (negAbs n) = isNaN n.
Proof. destruct n; reflexivity. Qed.

Lemma le_negAbs_zero n : isNaN n = false -> num_le (negAbs n) zero = true.
Proof. destruct n as [s|s| |s m e]; simpl; intros H; try reflexivity; discriminate. Qed.

(** ** Strings without white space *)

Lemma sfilter_app p (a b : string) : sfilter p (a ++ b) = sfilter p a ++ sfilter p b.
Proof.
  induction a as [|c a IH]; simpl; [reflexivity|].
  destruct (p c); simpl; rewrite IH; reflexivity.
Qed.

Lemma sforall_impl (p q : ascii -> bool) (s : string) :
  (forall c, p c = true -> q c = true) -> sforall p s = true -> sforall q s = true.
Proof.
  intros H. induction s as [|c s IH]; simpl; [auto|]. intros Hs.
  apply andb_true_iff in Hs as [Hc Hs]. rewrite (H c Hc), (IH Hs). reflexivity.
Qed.

Lemma sfilter_ext_in (p q r : ascii -> bool) (s : string) :
  (forall c, r c = true -> p c = q c) -> sforall r s = true ->
  sfilter p s = sfilter q s.
Proof.
  intros H. induction s as [|c s IH]; simpl; [reflexivity|]. intros Hs.
  apply andb_true_iff in Hs as [Hc Hs]. rewrite (H c Hc), (IH Hs). reflexivity.
Qed.

Lemma trimEnd_no_ws (s : string) :
  sforall (fun c => negb (isWhiteSpace c)) s = true -> trimEnd s = s.
Proof.
  induction s as [|c s IH]; simpl; [reflexivity|]. intros H.
  apply andb_true_iff in H as [Hc H]. rewrite (IH H).
  destruct s; [|reflexivity].
  apply negb_true_iff in Hc. rewrite Hc. reflexivity.
Qed.

Lemma trim_no_ws (s : string) :
  sforall (fun c => negb (isWhiteSpace c)) s = true -> trim s = s.
Proof.
  intros H. unfold trim. rewrite trimStart_id.
  - apply trimEnd_no_ws, H.
  - destruct s as [|c s]; simpl in *; [exact I|].
    apply andb_true_iff in H as [Hc _]. apply negb_true_iff, Hc.
Qed.

Lemma isDigit_not_ws c : isDigit c = true -> negb (isWhiteSpace c) = true.
Proof. destruct c as [[] [] [] [] [] [] [] []]; intros H; try reflexivity; discriminate H. Qed.

Lemma isAmountChar_not_ws c : isAmountChar c = true -> negb (isWhiteSpace c) = true.
Proof. destruct c as [[] [] [] [] [] [] [] []]; intros H; try reflexivity; discriminate H. Qed.

Lemma isAmountChar_dot c : isAmountChar c = true -> dot c = true.
Proof. destruct c as [[] [] [] [] [] [] [] []]; intros H; try reflexivity; discriminate H. Qed.

Lemma isDigit_dot c : isDigit c = true -> dot c = true.
Proof. destruct c as [[] [] [] [] [] [] [] []]; intros H; try reflexivity; discriminate H. Qed.

(** ** parseFloat on digits *)

Lemma span_app (p : ascii -> bool) (a rest : string) :
  sforall p a = true ->
  match rest with String c _ => p c = false | EmptyString => True end ->
  span p (a ++ rest) = (a, rest).
Proof.
  intros Ha Hr. induction a as [|c a IH]; simpl in *.
  - destruct rest as [|c r]; [reflexivity|]. simpl. rewrite Hr. reflexivity.
  - apply andb_true_iff in Ha as [Hc Ha]. rewrite Hc, (IH Ha). reflexivity.
Qed.

Lemma signOf_digit c r : isDigit c = true -> signOf (String c r) = (false, String c r).
Proof. destruct c as [[] [] [] [] [] [] [] []]; intros H; try reflexivity; discriminate H. Qed.

Lemma startsWith_Infinity_digit c r :
  isDigit c = true -> startsWith "Infinity" (String c r) = false.
Proof. destruct c as [[] [] [] [] [] [] [] []]; intros H; try reflexivity; discriminate H. Qed.

Lemma isDigit_trimStart c r :
  isDigit c = true -> trimStart (String c r) = String c r.
Proof.
  intros H. apply trimStart_id. simpl.
  apply negb_true_iff, isDigit_not_ws, H.
Qed.

(** The text after the sign: digits, and a point with digits or nothing. *)
Lemma parseFloat_unsigned neg (ds : string) (frac : option string) :
  digits ds -> digits (fractionOf frac) ->
  let body := ds ++ match frac with Some fp => "." ++ fp | None => "" end in
  trimStart body = body -> signOf body = (false, body) ->
  startsWith "Infinity" body = false ->
  (let (ip, s1) := span isDigit body in
   let (fp, s2) :=
     match s1 with
     | String "." r => span isDigit r
     | _ => (EmptyString, s1)
     end in
   if isEmpty ip && isEmpty fp then NaN
   else ofDecimal neg (digitsVal (ip ++ fp))
                  (exponentOf s2 - Z.of_nat (length fp)))
  = if isEmpty ds && isEmpty (fractionOf frac) then NaN
    else ofDecimal neg (digitsVal (ds ++ fractionOf frac))
                   (- Z.of_nat (length (fractionOf frac))).
Proof.
  intros Hd Hf body _ _ _. unfold body.
  rewrite span_app; [|exact Hd|destruct frac; simpl; auto].
  destruct frac as [fp|]; simpl in *.
  - pose proof (span_app isDigit fp "" Hf I) as E. rewrite app_nil_r in E.
    rewrite E. simpl. reflexivity.
  - reflexivity.
Qed.

Lemma body_head (ds : string) (frac : option string) :
  digits ds ->
  let body := ds ++ match frac with Some fp => "." ++ fp | None => "" end in
  trimStart body = body /\ signOf body = (false, body) /\
  startsWith "Infinity" body = false.
Proof.
  intros Hd body. unfold body. destruct ds as [|c ds].
  - destruct frac; simpl; repeat split; reflexivity.
  - simpl in Hd. apply andb_true_iff in Hd as [Hc _]. simpl.
    split; [apply (isDigit_trimStart c _ Hc)|].
    split; [apply signOf_digit, Hc|apply startsWith_Infinity_digit, Hc].
Qed.

Lemma parseFloat_decimal (neg : bool) (ds : string) (frac : option string) :
  digits ds -> digits (fractionOf frac) ->
  parseFloat ((if neg then "-" else "") ++ ds ++
              match frac with Some fp => "." ++ fp | None => "" end)
  = if isEmpty ds && isEmpty (fractionOf frac) then NaN
    else ofDecimal neg (digitsVal (ds ++ fractionOf frac))
                   (- Z.of_nat (length (fractionOf frac))).
Proof.
  intros Hd Hf.
  destruct (body_head ds frac Hd) as (Ht & Hs & Hi).
  pose proof (parseFloat_unsigned neg ds frac Hd Hf Ht Hs Hi) as P.
  cbv zeta in P. unfold parseFloat. destruct neg.
  - assert (E1 : forall b : string, trimStart ("-" ++ b) = String "-" b) by reflexivity.
    assert (E2 : forall b : string, signOf (String "-" b) = (true, b)) by reflexivity.
    rewrite E1, E2. cbv iota beta. rewrite Hi. exact P.
  - assert (E1 : forall b : string, "" ++ b = b) by reflexivity.
    rewrite E1, Ht, Hs. cbv iota beta. rewrite Hi. exact P.
Qed.

(** ** normalizeAmount: what it returns *)

Lemma normalizeAmount_not_NaN raw : isNaN (normalizeAmount raw) = false.
Proof.
  destruct raw as [raw|]; [|reflexivity]. unfold normalizeAmount. cbv zeta.
  destruct (isNaN (parseFloat _)) eqn:En; [reflexivity|].
  destruct (test re_parenNeg (trim raw)); [rewrite isNaN_negAbs|]; exact En.
Qed.

(** X1.  normalizeAmount never returns NaN: a cell that does not parse
    gives 0.  It can return an infinity, as for a cell holding 1e999. *)
Theorem normalizeAmount_never_NaN :
  (forall raw, isNaN (normalizeAmount raw) = false) /\
  normalizeAmount (Some "1e999") = Infinity false.
Proof. split; [exact normalizeAmount_not_NaN|reflexivity]. Qed.

(** X2.  A cell that, trimmed, starts with an opening and ends with a
    closing parenthesis on one line is never read as a positive amount: the
    result is at most 0, so the categorizer never files it under Income
    for its sign. *)
Theorem normalizeAmount_parenthesised_not_positive :
  forall raw,
    wrappedOnOneLine (trim raw) ->
    num_le (normalizeAmount (Some raw)) zero = true /\
    gt (normalizeAmount (Some raw)) zero = false.
Proof.
  intros raw Hw. apply test_re_parenNeg in Hw.
  unfold normalizeAmount. cbv zeta. rewrite Hw.
  destruct (isNaN (parseFloat _)) eqn:En; [split; reflexivity|].
  split; [apply le_negAbs_zero, En|].
  destruct (parseFloat _) as [s|s| |s m e]; try reflexivity; discriminate.
Qed.

Lemma normalizeAmount_parenthesised_not_positive_witness :
  wrappedOnOneLine (trim " (12.00) ") /\
  gt (normalizeAmount (Some " (12.00) ")) zero = false.
Proof.
  assert (H : wrappedOnOneLine (trim " (12.00) "))
    by (exists "12.00"; split; reflexivity).
  split; [exact H|].
  exact (proj2 (normalizeAmount_parenthesised_not_positive " (12.00) " H)).
Defined.

Lemma sforall_amountText (p : ascii -> bool) paren neg a frac :
  p "("%char = true -> p ")"%char = true -> p "-"%char = true ->
  p "."%char = true ->
  sforall p a = true -> sforall p (fractionOf frac) = true ->
  sforall p (amountText paren neg a frac) = true.
Proof.
  intros H1 H2 H3 H4 Ha Hf. unfold amountText.
  assert (Hb : sforall p ((if neg then "-" else "") ++ a ++
                          match frac with Some fp => "." ++ fp | None => "" end) = true).
  { rewrite !sforall_app, Ha. destruct neg, frac as [fp|]; simpl in *;
      rewrite ?H3, ?H4, ?Hf; reflexivity. }
  destruct paren; [|exact Hb].
  set (body := (if neg then "-" else "") ++ _) in *.
  rewrite !sforall_app, Hb. simpl. rewrite H1, H2. reflexivity.
Qed.

Lemma stripped_amountText paren neg a frac :
  sforall isAmountChar a = true -> digits (fractionOf frac) ->
  stripped (amountText paren neg a frac)
  = (if neg then "-" else "") ++ sfilter isDigit a ++
    match frac with Some fp => "." ++ fp | None => "" end.
Proof.
  intros Ha Hf. unfold amountText, stripped.
  set (keep := fun c => negb (eqc c "," || eqc c "$" || eqc c "(" || eqc c ")")).
  assert (E : sfilter keep ((if neg then "-" else "") ++ a ++
                            match frac with Some fp => "." ++ fp | None => "" end)
              = (if neg then "-" else "") ++ sfilter isDigit a ++
                match frac with Some fp => "." ++ fp | None => "" end).
  { rewrite !sfilter_app. f_equal; [destruct neg; reflexivity|]. f_equal.
    - apply (sfilter_ext_in _ _ isAmountChar); [|exact Ha].
      intros c. destruct c as [[] [] [] [] [] [] [] []]; intros H; try reflexivity;
        discriminate H.
    - destruct frac as [fp|]; [|reflexivity]. simpl in Hf.
      change (sfilter keep ("." ++ fp)) with (String "." (sfilter keep fp)).
      simpl. f_equal. apply sfilter_id.
      apply (sforall_impl isDigit); [|exact Hf].
      intros c. destruct c as [[] [] [] [] [] [] [] []]; intros H; try reflexivity;
        discriminate H. }
  destruct paren; [|exact E].
  set (body := (if neg then "-" else "") ++ a ++ _) in *.
  rewrite !sfilter_app, E. simpl. rewrite app_nil_r. reflexivity.
Qed.

Lemma test_re_parenNeg_amountText paren neg a frac :
  sforall isAmountChar a = true -> digits (fractionOf frac) ->
  test re_parenNeg (amountText paren neg a frac) = paren.
Proof.
  intros Ha Hf. destruct paren.
  - apply test_re_parenNeg. unfold amountText. eexists. split; [reflexivity|].
    rewrite !sforall_app.
    rewrite (sforall_impl _ _ _ isAmountChar_dot Ha).
    destruct neg, frac as [fp|]; simpl in *;
      rewrite ?(sforall_impl _ _ _ isDigit_dot Hf); reflexivity.
  - apply not_true_false. intros T. apply test_re_parenNeg in T as (body & E & _).
    unfold amountText in E. destruct neg; [discriminate E|].
    destruct a as [|c a]; [destruct frac; discriminate E|].
    simpl in E, Ha. injection E as -> _. discriminate Ha.
Qed.

(** X3.  An amount written with digits, with commas and dollar signs among
    the digits of its integer part, with or without a point and fraction
    digits, a minus sign before it or parentheses around it, and at least
    one digit, is read as the binary64 number nearest to its decimal value:
    the commas and dollar signs count for nothing, and the minus sign and
    the parentheses each make it negative. *)
Theorem normalizeAmount_decimal :
  forall (paren neg : bool) (a : string) (frac : option string),
    sforall isAmountChar a = true ->
    digits (fractionOf frac) ->
    sfilter isDigit a ++ fractionOf frac <> "" ->
    normalizeAmount (Some (amountText paren neg a frac))
    = ofDecimal (neg || paren)
                (digitsVal (sfilter isDigit a ++ fractionOf frac))
                (- Z.of_nat (length (fractionOf frac))).
Proof.
  intros paren neg a frac Ha Hf Hne.
  assert (Hws : sforall (fun c => negb (isWhiteSpace c)) (amountText paren neg a frac) = true).
  { apply sforall_amountText; try reflexivity.
    - apply (sforall_impl _ _ _ isAmountChar_not_ws Ha).
    - apply (sforall_impl _ _ _ isDigit_not_ws Hf). }
  unfold normalizeAmount. cbv zeta.
  rewrite strip_spec, (trim_no_ws _ Hws), (stripped_amountText _ _ _ _ Ha Hf),
    (test_re_parenNeg_amountText _ _ _ _ Ha Hf).
  assert (Hds : digits (sfilter isDigit a)) by apply sforall_sfilter.
  assert (Hn : isEmpty (sfilter isDigit a) && isEmpty (fractionOf frac) = false).
  { destruct (sfilter isDigit a); [|reflexivity].
    destruct (fractionOf frac); [destruct (Hne eq_refl)|reflexivity]. }
  assert (Hs : isEmpty ((if neg then "-" else "") ++ sfilter isDigit a ++
                        match frac with Some fp => "." ++ fp | None => "" end) = false).
  { destruct neg; [reflexivity|]. simpl.
    destruct (sfilter isDigit a); [|reflexivity].
    destruct frac; [reflexivity|]. destruct (Hne eq_refl). }
  rewrite Hs, (parseFloat_decimal neg _ frac Hds Hf), Hn.
  rewrite (signed_not_NaN _ _ (ofDecimal_signed _ _ _)).
  destruct paren.
  - rewrite negAbs_withSign, ofDecimal_withSign, orb_true_r. reflexivity.
  - rewrite orb_false_r. reflexivity.
Qed.

(** One thousand two hundred and thirty-four dollars and fifty-six cents. *)
Lemma normalizeAmount_decimal_witness :
  normalizeAmount (Some "$1,234.56") = ofDecimal false 123456 (-2).
Proof.
  apply (normalizeAmount_decimal false false "$1,234" (Some "56"));
    [reflexivity|reflexivity|discriminate].
Defined.

(** ** normalizeDate: the four cases *)

Lemma padStart2_digits m :
  digits m -> 1 <= length m <= 2 ->
  digits (padStart2 m) /\ length (padStart2 m) = 2.
Proof.
  intros Hm Hl. unfold padStart2.
  destruct m as [|a [|b [|c r]]]; simpl in *; try lia; auto.
Qed.

Lemma isoShape_not_ws s :
  isoShape s -> sforall (fun c => negb (isWhiteSpace c)) s = true.
Proof.
  intros (y & m & d & -> & Hy & _ & Hm & _ & Hd & _).
  rewrite !sforall_app.
  rewrite (sforall_impl _ _ _ isDigit_not_ws Hy), (sforall_impl _ _ _ isDigit_not_ws Hm),
    (sforall_impl _ _ _ isDigit_not_ws Hd).
  reflexivity.
Qed.

Lemma isoShape_nonempty s : isoShape s -> isEmpty s = false.
Proof.
  intros (y & m & d & -> & _ & Ly & _). destruct y; [discriminate Ly|reflexivity].
Qed.

Lemma mdyShape_nonempty s m d y : mdyShape s m d y -> isEmpty s = false.
Proof.
  intros (-> & _ & Lm & _). destruct m; [simpl in Lm; lia|reflexivity].
Qed.

(** What normalizeDate returns, case by case. *)
Lemma normalizeDate_cases raw :
  (raw = "" /\ normalizeDate (Some raw) = "") \/
  (raw <> "" /\ isoShape (trim raw) /\ normalizeDate (Some raw) = trim raw) \/
  (raw <> "" /\ exists m d y,
      mdyShape (trim raw) m d y /\
      normalizeDate (Some raw) = y ++ "-" ++ padStart2 m ++ "-" ++ padStart2 d) \/
  (raw <> "" /\ ~ recognisedDate (trim raw) /\ normalizeDate (Some raw) = trim raw).
Proof.
  unfold normalizeDate. destruct (isEmpty raw) eqn:Er.
  - left. destruct raw; [auto|discriminate].
  - right. apply isEmpty_false in Er.
    destruct (test re_iso (trim raw)) eqn:Ti.
    + left. apply test_re_iso in Ti. auto.
    + right. destruct (exec re_mdy (trim raw)) as [ps|] eqn:X.
      * left. split; [exact Er|].
        apply exec_Bol in X as (rest & HM).
        apply Matches_re_mdy in HM as (m & d & y & Hs & -> & _).
        exists m, d, y. split; [exact Hs|reflexivity].
      * right. split; [exact Er|]. split; [|reflexivity].
        intros [Hi|(m & d & y & Hs)].
        -- apply test_re_iso in Hi. congruence.
        -- rewrite (exec_re_mdy _ _ _ _ Hs) in X. discriminate.
Qed.

Lemma mdy_result_iso m d y :
  digits m -> 1 <= length m <= 2 -> digits d -> 1 <= length d <= 2 ->
  digits y -> length y = 4 ->
  isoShape (y ++ "-" ++ padStart2 m ++ "-" ++ padStart2 d).
Proof.
  intros Hm Lm Hd Ld Hy Ly.
  destruct (padStart2_digits m Hm Lm) as [Hm' Lm'].
  destruct (padStart2_digits d Hd Ld) as [Hd' Ld'].
  exists y, (padStart2 m), (padStart2 d). repeat split; auto.
Qed.

Lemma normalizeDate_iso_fixed s : isoShape s -> normalizeDate (Some s) = s.
Proof.
  intros Hi. unfold normalizeDate.
  rewrite (isoShape_nonempty _ Hi), (trim_no_ws _ (isoShape_not_ws _ Hi)).
  apply test_re_iso in Hi. rewrite Hi. reflexivity.
Qed.

(** X4.  normalizeDate is idempotent: a date that went through it comes
    out of it unchanged, whatever the cell held. *)
Theorem normalizeDate_idempotent :
  forall raw, normalizeDate (Some (normalizeDate raw)) = normalizeDate raw.
Proof.
  intros [raw|]; [|reflexivity].
  destruct (normalizeDate_cases raw)
    as [[_ ->]|[(_ & Hi & ->)|[(_ & m & d & y & Hs & ->)|(_ & Hn & E)]]].
  - reflexivity.
  - apply normalizeDate_iso_fixed, Hi.
  - destruct Hs as (_ & Hm & Lm & Hd & Ld & Hy & Ly).
    apply normalizeDate_iso_fixed, mdy_result_iso; assumption.
  - rewrite E. unfold normalizeDate.
    destruct (isEmpty (trim raw)) eqn:Et.
    + destruct (trim raw); [reflexivity|discriminate].
    + rewrite trim_idem.
      destruct (test re_iso (trim raw)) eqn:Ti; [reflexivity|].
      destruct (exec re_mdy (trim raw)) as [ps|] eqn:X; [|reflexivity].
      exfalso. apply Hn. right.
      apply exec_Bol in X as (rest & HM).
      apply Matches_re_mdy in HM as (m & d & y & Hs & _). eauto.
Qed.

Lemma normalizeDate_recognised raw :
  isoShape (normalizeDate (Some raw)) <-> recognisedDate (trim raw).
Proof.
  destruct (normalizeDate_cases raw)
    as [[-> E]|[(_ & Hi & E)|[(_ & m & d & y & Hs & E)|(_ & Hn & E)]]]; rewrite E.
  - split.
    + intros H. apply isoShape_nonempty in H. discriminate.
    + intros [H|(m & d & y & H)].
      * apply isoShape_nonempty in H. discriminate.
      * apply mdyShape_nonempty in H. discriminate.
  - split; [left; exact Hi|intros _; exact Hi].
  - split; [intros _; right; eauto|]. intros _.
    destruct Hs as (_ & Hm & Lm & Hd & Ld & Hy & Ly).
    apply mdy_result_iso; assumption.
  - split; [left; assumption|]. intros H. destruct (Hn H).
Qed.

(** X5.  The date normalizeDate returns has the shape YYYY-MM-DD exactly
    when the cell, trimmed, had that shape or the shape M/D/YYYY with a
    month and a day of one or two digits: no other cell is turned into a
    date, and no recognised one is left in another shape. *)
Theorem normalizeDate_iso_iff :
  forall raw, isoShape (normalizeDate (Some raw)) <-> recognisedDate (trim raw).
Proof. exact normalizeDate_recognised. Qed.

(** ** cleanDesc: the shape of what it returns *)

Lemma adjacentWs_Contains s : adjacentWs s = true <-> Contains twoSpaces s.
Proof.
  split.
  - induction s as [|a s IH]; [discriminate|].
    destruct s as [|b r]; [discriminate|].
    change (adjacentWs (String a (String b r)))
      with ((isWhiteSpace a && isWhiteSpace b) || adjacentWs (String b r)).
    intros H. apply orb_true_iff in H as [H|H].
    + apply andb_true_iff in H as [Ha Hb].
      exists "", (String a (String b "")), r. split; [reflexivity|].
      exists a, b. auto.
    + destruct (IH H) as (pre & m & post & E & Hm).
      exists (String a pre), m, post. split; [simpl; rewrite E; reflexivity|exact Hm].
  - intros (pre & m & post & -> & a & b & -> & Ha & Hb).
    induction pre as [|c pre IH].
    + simpl. rewrite Ha, Hb. reflexivity.
    + change (String c pre ++ String a (String b "") ++ post)
        with (String c (pre ++ String a (String b "") ++ post)).
      destruct (pre ++ String a (String b "") ++ post) as [|x r] eqn:E;
        [destruct pre; discriminate E|].
      change (adjacentWs (String c (String x r)))
        with ((isWhiteSpace c && isWhiteSpace x) || adjacentWs (String x r)).
      rewrite IH. apply orb_true_r.
Qed.

Lemma wsHead_collapseRuns_true s : wsHead (collapseRuns true s) = false.
Proof.
  induction s as [|c s IH]; simpl; [reflexivity|].
  destruct (isWhiteSpace c) eqn:W; [exact IH|]. simpl. exact W.
Qed.

Lemma adjacentWs_cons c (s : string) :
  adjacentWs (String c s) = (isWhiteSpace c && wsHead s) || adjacentWs s.
Proof.
  destruct s as [|b r]; simpl; [rewrite andb_false_r; reflexivity|reflexivity].
Qed.

Lemma wsHead_collapseRuns_false (s : string) :
  wsHead s = false -> wsHead (collapseRuns false s) = false.
Proof.
  destruct s as [|c s]; simpl; [auto|]. intros W. rewrite W. simpl. exact W.
Qed.

(** After the collapse no two white-space characters stand in a row. *)
Lemma adjacentWs_collapseRuns s :
  forall inRun, adjacentWs (collapseRuns inRun s) = false.
Proof.
  induction s as [|c s IH]; intros inRun; [reflexivity|].
  cbn [collapseRuns].
  destruct (isWhiteSpace c) eqn:W.
  - destruct inRun; [apply IH|].
    destruct (wsHead s) eqn:H.
    + rewrite adjacentWs_cons, wsHead_collapseRuns_true, IH. reflexivity.
    + rewrite adjacentWs_cons, (wsHead_collapseRuns_false s H), IH.
      rewrite andb_false_r. reflexivity.
  - rewrite adjacentWs_cons, W, IH. reflexivity.
Qed.

Lemma trimStart_suffix s : exists a, s = a ++ trimStart s.
Proof.
  induction s as [|c s [a IH]]; simpl; [exists ""; reflexivity|].
  destruct (isWhiteSpace c).
  - exists (String c a). simpl. rewrite <- IH. reflexivity.
  - exists "". reflexivity.
Qed.

Lemma trimEnd_prefix s : exists b, s = trimEnd s ++ b.
Proof.
  induction s as [|c s [b IH]]; simpl; [exists ""; reflexivity|].
  destruct (trimEnd s) as [|c' s'] eqn:E.
  - destruct (isWhiteSpace c).
    + exists (String c s). reflexivity.
    + exists b. rewrite IH at 1. reflexivity.
  - exists b. rewrite IH at 1. reflexivity.
Qed.

(** The trimmed string stands inside the string. *)
Lemma trim_infix s : exists a b, s = a ++ trim s ++ b.
Proof.
  unfold trim. destruct (trimStart_suffix s) as [a Ha].
  destruct (trimEnd_prefix (trimStart s)) as [b Hb].
  exists a, b. rewrite <- Hb. exact Ha.
Qed.

Lemma Contains_infix text (a s b : string) :
  Contains text s -> Contains text (a ++ s ++ b).
Proof.
  intros (pre & m & post & -> & H).
  exists (a ++ pre), m, (post ++ b). split; [|exact H].
  rewrite !app_assoc. reflexivity.
Qed.

Lemma Contains_trim text s : Contains text (trim s) -> Contains text s.
Proof.
  intros H. destruct (trim_infix s) as (a & b & E). rewrite E.
  apply Contains_infix, H.
Qed.

Lemma isWhiteSpace_toUpperChar c : isWhiteSpace (toUpperChar c) = isWhiteSpace c.
Proof. destruct c as [[] [] [] [] [] [] [] []]; reflexivity. Qed.

Lemma adjacentWs_toUpperCase s : adjacentWs (toUpperCase s) = adjacentWs s.
Proof.
  unfold toUpperCase. induction s as [|a s IH]; [reflexivity|].
  destruct s as [|b r]; [reflexivity|].
  change (smap toUpperChar (String a (String b r)))
    with (String (toUpperChar a) (smap toUpperChar (String b r))).
  change (smap toUpperChar (String b r))
    with (String (toUpperChar b) (smap toUpperChar r)) at 1.
  change (adjacentWs (String (toUpperChar a) (String (toUpperChar b) (smap toUpperChar r))))
    with ((isWhiteSpace (toUpperChar a) && isWhiteSpace (toUpperChar b))
          || adjacentWs (smap toUpperChar (String b r))).
  rewrite IH, !isWhiteSpace_toUpperChar. reflexivity.
Qed.

Lemma trimStart_toUpperCase s : trimStart (toUpperCase s) = toUpperCase (trimStart s).
Proof.
  unfold toUpperCase. induction s as [|c s IH]; simpl; [reflexivity|].
  rewrite isWhiteSpace_toUpperChar. destruct (isWhiteSpace c); [exact IH|reflexivity].
Qed.

Lemma trimEnd_toUpperCase s : trimEnd (toUpperCase s) = toUpperCase (trimEnd s).
Proof.
  unfold toUpperCase. induction s as [|c s IH]; simpl; [reflexivity|].
  rewrite IH, isWhiteSpace_toUpperChar.
  destruct (trimEnd s); simpl; [destruct (isWhiteSpace c)|]; reflexivity.
Qed.

Lemma trim_toUpperCase s : trim (toUpperCase s) = toUpperCase (trim s).
Proof. unfold trim. rewrite trimStart_toUpperCase, trimEnd_toUpperCase. reflexivity. Qed.

Lemma toUpperChar_not_lower c : isLower (toUpperChar c) = false.
Proof. destruct c as [[] [] [] [] [] [] [] []]; reflexivity. Qed.

Lemma toUpperCase_no_lower s :
  sforall (fun c => negb (isLower c)) (toUpperCase s) = true.
Proof.
  unfold toUpperCase. induction s as [|c s IH]; simpl; [reflexivity|].
  rewrite toUpperChar_not_lower, IH. reflexivity.
Qed.

Lemma length_cleanDesc desc : length (cleanDesc desc) <= length (orEmpty desc).
Proof.
  unfold cleanDesc, toUpperCase. rewrite length_smap, replaceAll_spaces.
  pose proof (length_trim (collapseRuns false
                (replace re_card "" (replace re_purchase "" (orEmpty desc))))).
  pose proof (length_collapseRuns (replace re_card "" (replace re_purchase "" (orEmpty desc))) false).
  pose proof (length_replace re_card (replace re_purchase "" (orEmpty desc))).
  pose proof (length_replace re_purchase (orEmpty desc)). lia.
Qed.

Lemma cleanDesc_no_twoSpaces desc : ~ Contains twoSpaces (cleanDesc desc).
Proof.
  intros H. apply adjacentWs_Contains in H. unfold cleanDesc in H.
  rewrite adjacentWs_toUpperCase in H. apply adjacentWs_Contains, Contains_trim in H.
  rewrite replaceAll_spaces in H. apply adjacentWs_Contains in H.
  rewrite adjacentWs_collapseRuns in H. discriminate.
Qed.

Lemma cleanDesc_trimmed desc : trim (cleanDesc desc) = cleanDesc desc.
Proof. unfold cleanDesc. rewrite trim_toUpperCase, trim_idem. reflexivity. Qed.

(** X6.  The description cleanDesc returns has no lower-case letter a to
    z, no white space at either end and no two white-space characters in a
    row; and for a text of ASCII characters it is never longer than the
    text it was given. *)
Theorem cleanDesc_shape :
  forall desc,
    sforall (fun c => negb (isLower c)) (cleanDesc desc) = true /\
    toUpperCase (cleanDesc desc) = cleanDesc desc /\
    trim (cleanDesc desc) = cleanDesc desc /\
    ~ Contains twoSpaces (cleanDesc desc) /\
    (sforall isAscii (orEmpty desc) = true ->
     length (cleanDesc desc) <= length (orEmpty desc)).
Proof.
  intros desc.
  split; [apply toUpperCase_no_lower|].
  split; [apply toUpperCase_idem|].
  split; [apply cleanDesc_trimmed|].
  split; [apply cleanDesc_no_twoSpaces|intros _; apply length_cleanDesc].
Qed.

Lemma cleanDesc_shape_witness :
  sforall isAscii "Purchase authorized on 03/04  Acme  Coffee card 1234" = true /\
  length (cleanDesc (Some "Purchase authorized on 03/04  Acme  Coffee card 1234"))
  <= length "Purchase authorized on 03/04  Acme  Coffee card 1234".
Proof.
  split; [reflexivity|].
  exact (proj2 (proj2 (proj2 (proj2
           (cleanDesc_shape
              (Some "Purchase authorized on 03/04  Acme  Coffee card 1234")))))
           eq_refl).
Defined.

(** X7.  The description the row mapper stores goes through the stricter
    pass of the categorizer when the row is categorized.  That pass leaves
    it as it is exactly when it holds nothing but letters A to Z, digits and
    spaces and no occurrence of either boilerplate pattern is left in it;
    otherwise the description on display differs from the one stored. *)
Theorem strictClean_after_cleanDesc :
  forall desc,
    strictClean (cleanDesc desc) = cleanDesc desc <->
    sforall isAlnumSpace (cleanDesc desc) = true /\
    ~ Contains purchaseText (cleanDesc desc) /\
    ~ Contains cardText (cleanDesc desc).
Proof.
  intros desc. rewrite strictClean_fixed_iff. unfold finalForm. split.
  - intros (Ha & _ & Hp & Hc & _); auto.
  - intros (Ha & Hp & Hc). split; [exact Ha|].
    split; [apply cleanDesc_trimmed|]. split; [exact Hp|].
    split; [exact Hc|apply cleanDesc_no_twoSpaces].
Qed.

(** ** The row mapper *)

Lemma cell_unquoted r c0 :
  nth_error r 0 = Some c0 ->
  sforall (fun c => negb (eqc dquote c)) c0 = true ->
  cell r 0 = trim c0.
Proof.
  intros E H. rewrite cell_spec, E. cbn [orEmpty]. rewrite (sfilter_id _ _ H). reflexivity.
Qed.

Lemma mapRow_Date p r : Date (mapRow p r) = normalizeDate (nth_error r 0).
Proof. destruct p; reflexivity. Qed.

(** X8.  The profile detector and the row mapper agree on the date: when
    the first row is detected as a body row of either bank, on a first cell
    without double quotes, the Date the mapper gives that row has the shape
    YYYY-MM-DD. *)
Theorem detected_row_has_iso_date :
  forall r,
    firstCellUnquoted r ->
    detectProfile (Some r) = YourBank_NoHeader_5Cols \/
    detectProfile (Some r) = USBank_NoHeaderBody ->
    isoShape (Date (mapRow (detectProfile (Some r)) r)).
Proof.
  intros r Hq Hp. rewrite mapRow_Date.
  assert (Hrec : 3 <= List.length r /\ recognisedDate (cell r 0)).
  { unfold detectProfile in Hp.
    destruct (List.length r <? 3) eqn:L; [destruct Hp; discriminate|].
    apply Nat.ltb_ge in L. split; [exact L|].
    destruct (_ && _ && _ && _ && _); [destruct Hp; discriminate|].
    destruct (test re_mdy (cell r 0) && String.eqb (cell r 2) "*") eqn:Y.
    - apply andb_true_iff in Y as [Y _]. right. apply test_re_mdy, Y.
    - destruct (test re_iso (cell r 0) && (5 <=? List.length r)) eqn:U;
        [|destruct Hp; discriminate].
      apply andb_true_iff in U as [U _]. left. apply test_re_iso, U. }
  destruct Hrec as [L Hrec].
  destruct r as [|c0 r]; [simpl in L; lia|].
  rewrite (cell_unquoted (c0 :: r) c0 eq_refl (Hq c0 eq_refl)) in Hrec.
  simpl. apply normalizeDate_recognised, Hrec.
Qed.

Lemma detected_row_has_iso_date_witness :
  Date (mapRow (detectProfile (Some ["3/4/2024"; "-12.00"; "*"; ""; "COFFEE SHOP"]))
               ["3/4/2024"; "-12.00"; "*"; ""; "COFFEE SHOP"]) = "2024-03-04" /\
  isoShape (Date (mapRow (detectProfile (Some ["3/4/2024"; "-12.00"; "*"; ""; "COFFEE SHOP"]))
                         ["3/4/2024"; "-12.00"; "*"; ""; "COFFEE SHOP"])).
Proof.
  split; [reflexivity|].
  apply (detected_row_has_iso_date ["3/4/2024"; "-12.00"; "*"; ""; "COFFEE SHOP"]).
  - intros c0 E. injection E as <-. reflexivity.
  - left. reflexivity.
Defined.

(** X9.  The row mapper reads five cells and no more: a row that is too
    short is mapped as if its missing cells were empty, the empty row to the
    empty date, the amount 0 and the empty description, and whatever
    follows the fifth cell is ignored. *)
Theorem mapRow_five_cells :
  forall p r, mapRow p r = mapRow p (fiveCells r).
Proof.
  intros p r. unfold fiveCells.
  destruct r as [|c0 [|c1 [|c2 [|c3 [|c4 r]]]]]; destruct p; reflexivity.
Qed.

(** ** Dictionaries: keys and values *)

Section ObjMore.
Context {V : Type}.
Implicit Types (o : obj V) (k : string) (v : V).

Lemma In_keys_get o k : In k (keys o) <-> get o k <> None.
Proof.
  induction o as [|[k0 v0] o IH]; simpl.
  - split; [intros []|intros H; apply H; reflexivity].
  - destruct (String.eqb k0 k) eqn:E.
    + apply String.eqb_eq in E. split; [discriminate|auto].
    + apply String.eqb_neq in E. rewrite <- IH. split; [intros [H|H]; [contradiction|exact H]|auto].
Qed.

Lemma get_In o k v : get o k = Some v -> In (k, v) o.
Proof.
  induction o as [|[k0 v0] o IH]; simpl; [discriminate|].
  destruct (String.eqb k0 k) eqn:E.
  - apply String.eqb_eq in E. intros H. injection H as ->. left. subst. reflexivity.
  - intros H. right. exact (IH H).
Qed.

Lemma get_In_values o k v : get o k = Some v -> In v (values o).
Proof.
  intros H. apply get_In in H. unfold values.
  apply (in_map snd) in H. exact H.
Qed.

Lemma keys_update o k v : keys (update o k v) = keys o.
Proof.
  induction o as [|[k0 v0] o IH]; simpl; [reflexivity|].
  destruct (String.eqb k0 k); simpl; [reflexivity|rewrite IH; reflexivity].
Qed.

Lemma keys_insertIndex n o k v :
  Permutation (keys (insertIndex n k v o)) (k :: keys o).
Proof.
  induction o as [|[k0 v0] o IH]; simpl; [apply Permutation_refl|].
  destruct (arrayIndex k0) as [n'|]; [destruct (n' <? n)%N|]; simpl;
    try apply Permutation_refl.
  eapply Permutation_trans; [apply perm_skip, IH|apply perm_swap].
Qed.

Lemma keys_set o k v :
  Permutation (keys (set o k v))
              (match get o k with Some _ => keys o | None => k :: keys o end).
Proof.
  unfold set. destruct (get o k) eqn:G.
  - rewrite keys_update. apply Permutation_refl.
  - destruct (arrayIndex k); [apply keys_insertIndex|].
    unfold keys. rewrite map_app. simpl.
    apply Permutation_sym, Permutation_cons_append.
Qed.

(** Writing a key keeps each key once. *)
Lemma wellFormed_set o k v : wellFormed o -> wellFormed (set o k v).
Proof.
  unfold wellFormed. intros H.
  apply (Permutation_NoDup (Permutation_sym (keys_set o k v))).
  destruct (get o k) eqn:G; [exact H|].
  constructor; [|exact H]. intros Hin. apply In_keys_get in Hin. contradiction.
Qed.

Lemma In_keys_set o k v k' : In k' (keys (set o k v)) <-> k' = k \/ In k' (keys o).
Proof.
  rewrite !In_keys_get, get_set. destruct (String.eqb k k') eqn:E.
  - apply String.eqb_eq in E. split; [auto|discriminate].
  - apply String.eqb_neq in E. split; [auto|]. intros [H|H]; [congruence|exact H].
Qed.

Lemma Forall_values_update (P : V -> Prop) o k v :
  P v -> Forall P (values o) -> Forall P (values (update o k v)).
Proof.
  intros Hv. induction o as [|[k0 v0] o IH]; simpl; intros H; [constructor|].
  inversion H as [|? ? H0 H1]; subst.
  destruct (String.eqb k0 k); simpl; constructor; auto.
Qed.

Lemma Forall_values_insertIndex (P : V -> Prop) n o k v :
  P v -> Forall P (values o) -> Forall P (values (insertIndex n k v o)).
Proof.
  intros Hv. induction o as [|[k0 v0] o IH]; simpl; intros H; [repeat constructor; exact Hv|].
  inversion H as [|? ? H0 H1]; subst.
  destruct (arrayIndex k0) as [n'|]; [destruct (n' <? n)%N|]; simpl;
    repeat constructor; auto.
Qed.

Lemma Forall_values_set (P : V -> Prop) o k v :
  P v -> Forall P (values o) -> Forall P (values (set o k v)).
Proof.
  intros Hv H. unfold set. destruct (get o k).
  - apply Forall_values_update; assumption.
  - destruct (arrayIndex k); [apply Forall_values_insertIndex; assumption|].
    unfold values. rewrite map_app. apply Forall_app. split; [exact H|].
    repeat constructor. exact Hv.
Qed.

End ObjMore.

(** ** Groups: what a push changes *)

Lemma allListed_update (g : Groups) c l t :
  get g c = Some l ->
  Permutation (allListed (update g c (l ++ [t])%list)) (t :: allListed g).
Proof.
  unfold allListed. induction g as [|[k0 v0] g IH]; simpl; [discriminate|].
  destruct (String.eqb k0 c) eqn:E; simpl.
  - intros H. injection H as ->. rewrite <- List.app_assoc. simpl.
    apply Permutation_sym, Permutation_middle.
  - intros H. eapply Permutation_trans; [apply Permutation_app_head, (IH H)|].
    apply Permutation_sym, Permutation_middle.
Qed.

Lemma allListed_insertIndex n (g : Groups) c t :
  Permutation (allListed (insertIndex n c [t] g)) (t :: allListed g).
Proof.
  unfold allListed. induction g as [|[k0 v0] g IH]; simpl; [apply Permutation_refl|].
  destruct (arrayIndex k0) as [n'|]; [destruct (n' <? n)%N|]; simpl;
    try apply Permutation_refl.
  eapply Permutation_trans; [apply Permutation_app_head, IH|].
  apply Permutation_sym, Permutation_middle.
Qed.

(** A push adds the record to what the groups list, once. *)
Lemma allListed_pushTo g c t g' :
  pushTo g c t = Normal g' -> Permutation (allListed g') (t :: allListed g).
Proof.
  unfold pushTo. destruct (get g c) as [l|] eqn:G.
  - intros H. injection H as <-. unfold set. rewrite G.
    apply allListed_update, G.
  - destruct (inherited c); [discriminate|]. intros H. injection H as <-.
    unfold set. rewrite G. destruct (arrayIndex c); [apply allListed_insertIndex|].
    unfold allListed, values. rewrite map_app, concat_app. simpl.
    apply Permutation_sym, Permutation_cons_append.
Qed.

Lemma pushTo_wellFormed g c t g' :
  pushTo g c t = Normal g' -> wellFormed g -> wellFormed g'.
Proof.
  unfold pushTo. destruct (get g c); [|destruct (inherited c); [discriminate|]];
    intros H; injection H as <-; apply wellFormed_set.
Qed.

Lemma pushTo_nonempty g c t g' :
  pushTo g c t = Normal g' ->
  Forall (fun l => l <> []) (values g) -> Forall (fun l => l <> []) (values g').
Proof.
  unfold pushTo. destruct (get g c) as [l|]; [|destruct (inherited c); [discriminate|]];
    intros H; injection H as <-; apply Forall_values_set; try discriminate.
  destruct l; discriminate.
Qed.

(** ** Categorizer: the groups, exactly *)

Section Grouping.
Variable hostRegExp : string -> option (string -> bool).
Variable allCats : obj string.
Variable sortedKeywords : list string.

Lemma categorizeRow_Normal g row g' :
  categorizeRow hostRegExp allCats sortedKeywords g row = Normal g' ->
  exists cat, rowCategory hostRegExp allCats sortedKeywords row = Normal cat /\
              pushTo g cat (cleaned row) = Normal g'.
Proof.
  unfold categorizeRow, rowCategory, bind.
  destruct (categoryOf _ _ _ _ _) as [cat|e]; [|discriminate].
  intros H. exists cat. split; [reflexivity|exact H].
Qed.

Lemma forEach_categorizeRow_get data :
  forall g0 g,
    forEach (categorizeRow hostRegExp allCats sortedKeywords) data g0 = Normal g ->
    forall c, get g c = extended (get g0 c)
                         (map cleaned (rowsOf hostRegExp allCats sortedKeywords c data)).
Proof.
  induction data as [|row data IH]; intros g0 g H c.
  - simpl in H. injection H as <-. unfold extended. simpl.
    destruct (get g0 c); [rewrite List.app_nil_r|]; reflexivity.
  - cbn [forEach] in H. unfold bind at 1 in H.
    destruct (categorizeRow hostRegExp allCats sortedKeywords g0 row) as [g1|e] eqn:R;
      [|discriminate].
    apply categorizeRow_Normal in R as (cat & Hc & Hp).
    rewrite (IH g1 g H c), (get_pushTo _ _ _ _ Hp c).
    unfold rowsOf. cbn [filter]. rewrite Hc. cbn [hasCategory].
    destruct (String.eqb cat c) eqn:E; [|reflexivity].
    apply String.eqb_eq in E. subst cat. unfold groupOf, extended. cbn [map].
    destruct (get g0 c); [rewrite <- List.app_assoc|]; reflexivity.
Qed.

Lemma forEach_categorizeRow_listed data :
  forall g0 g,
    forEach (categorizeRow hostRegExp allCats sortedKeywords) data g0 = Normal g ->
    wellFormed g0 -> Forall (fun l => l <> []) (values g0) ->
    Permutation (allListed g) (allListed g0 ++ map cleaned data) /\
    wellFormed g /\ Forall (fun l => l <> []) (values g).
Proof.
  induction data as [|row data IH]; intros g0 g H Hw Hn.
  - simpl in H. injection H as <-. simpl. rewrite List.app_nil_r.
    split; [apply Permutation_refl|auto].
  - cbn [forEach] in H. unfold bind at 1 in H.
    destruct (categorizeRow hostRegExp allCats sortedKeywords g0 row) as [g1|e] eqn:R;
      [|discriminate].
    apply categorizeRow_Normal in R as (cat & Hc & Hp).
    destruct (IH g1 g H (pushTo_wellFormed _ _ _ _ Hp Hw) (pushTo_nonempty _ _ _ _ Hp Hn))
      as (P & W & N).
    split; [|auto].
    eapply Permutation_trans; [exact P|]. simpl.
    eapply Permutation_trans;
      [apply Permutation_app_tail, (allListed_pushTo _ _ _ _ Hp)|].
    simpl. apply Permutation_middle.
Qed.

(** The loop returns exactly when the choice for every row returns and is
    no member of [Object.prototype]. *)
Lemma forEach_categorizeRow_returns data :
  forall g0,
    (forall c, get g0 c <> None -> inherited c = false) ->
    ((exists g, forEach (categorizeRow hostRegExp allCats sortedKeywords) data g0 = Normal g)
     <->
     forall row, In row data ->
       exists c, rowCategory hostRegExp allCats sortedKeywords row = Normal c /\
                 inherited c = false).
Proof.
  induction data as [|row data IH]; intros g0 Hinv.
  - split; [intros _ row []|]. intros _. exists g0. reflexivity.
  - cbn [forEach]. unfold bind at 1.
    destruct (categorizeRow hostRegExp allCats sortedKeywords g0 row) as [g1|e] eqn:R.
    + destruct (categorizeRow_Normal _ _ _ R) as (cat & Hc & Hp).
      assert (Hcat : inherited cat = false).
      { unfold pushTo in Hp. destruct (get g0 cat) eqn:G.
        - apply Hinv. rewrite G. discriminate.
        - destruct (inherited cat); [discriminate|reflexivity]. }
      assert (Hinv1 : forall c, get g1 c <> None -> inherited c = false).
      { intros c. rewrite (get_pushTo _ _ _ _ Hp c).
        destruct (String.eqb cat c) eqn:E; [|apply Hinv].
        apply String.eqb_eq in E. subst c. intros _. exact Hcat. }
      rewrite (IH g1 Hinv1). split.
      * intros Hall r [<-|Hr]; [exists cat; auto|exact (Hall r Hr)].
      * intros Hall r Hr. apply Hall. right. exact Hr.
    + split; [intros (g & H); discriminate|].
      intros Hall. exfalso.
      destruct (Hall row (or_introl eq_refl)) as (c & Hc & Hi).
      unfold categorizeRow, rowCategory in *. rewrite Hc in R. cbn [bind] in R.
      unfold pushTo in R. destruct (get g0 c); [discriminate|].
      rewrite Hi in R. discriminate.
Qed.

Lemma firstMatch_result kws desc c :
  firstMatch hostRegExp allCats kws desc = Normal c ->
  c = "Uncategorized" \/ exists k, In k kws /\ c = categoryAt allCats k.
Proof.
  induction kws as [|k kws IH]; simpl.
  - intros H. injection H as <-. left. reflexivity.
  - unfold bind. destruct (newRegExp_wordBounded hostRegExp (toUpperCase k)) as [p|e];
      [|discriminate].
    destruct (p desc).
    + intros H. injection H as <-. right. exists k. split; [left|]; reflexivity.
    + intros H. destruct (IH H) as [->|(k' & Hk & ->)]; [left; reflexivity|].
      right. exists k'. split; [right; exact Hk|reflexivity].
Qed.

End Grouping.

Lemma categoryAt_values (o : obj string) k :
  In k (keys o) -> In (categoryAt o k) (values o).
Proof.
  intros H. unfold categoryAt. destruct (get o k) as [v|] eqn:G.
  - apply (get_In_values _ _ _ G).
  - apply In_keys_get in H. contradiction.
Qed.

(** X10.  When the categorizer returns, the group of a category lists the
    records of exactly the rows given that category, in the order of the
    rows and a row that comes twice listed twice; a category no row was
    given has no group. *)
Theorem categorizeTransactions_groups :
  forall hostRegExp CATEGORIES custom data g,
    categorizeTransactions hostRegExp CATEGORIES custom data = Normal g ->
    let allCats := spread CATEGORIES custom in
    forall c,
      get g c =
      match rowsOf hostRegExp allCats (sortByLengthDesc (keys allCats)) c data with
      | [] => None
      | rows => Some (map cleaned rows)
      end.
Proof.
  intros host CATS custom data g H allCats c.
  unfold categorizeTransactions in H.
  rewrite (forEach_categorizeRow_get _ _ _ _ _ _ H c). unfold extended. simpl.
  destruct (rowsOf _ _ _ c data); reflexivity.
Qed.

Lemma categorizeTransactions_groups_witness :
  exists g,
    categorizeTransactions noHost sampleCategories [] [samplePurchase; sampleSalary]
    = Normal g /\
    get g "Income" = Some [cleaned sampleSalary] /\
    get g "Dining" = None.
Proof.
  eexists. split; [reflexivity|].
  split;
    [exact (categorizeTransactions_groups noHost sampleCategories []
              [samplePurchase; sampleSalary] _ eq_refl "Income")
    |exact (categorizeTransactions_groups noHost sampleCategories []
              [samplePurchase; sampleSalary] _ eq_refl "Dining")].
Defined.

(** X11.  When the categorizer returns, nothing is lost and nothing is
    made up: the groups together list the records of the rows, one for one;
    no category has two groups; no group is empty; and every group is named
    Income, Uncategorized or by a category of the merged table. *)
Theorem categorizeTransactions_partition :
  forall hostRegExp CATEGORIES custom data g,
    categorizeTransactions hostRegExp CATEGORIES custom data = Normal g ->
    Permutation (allListed g) (map cleaned data) /\
    wellFormed g /\
    Forall (fun l => l <> []) (values g) /\
    forall c, In c (keys g) ->
              c = "Income" \/ c = "Uncategorized" \/
              In c (values (spread CATEGORIES custom)).
Proof.
  intros host CATS custom data g H.
  pose proof H as H0. unfold categorizeTransactions in H0.
  destruct (forEach_categorizeRow_listed _ _ _ _ _ _ H0) as (P & W & N);
    [constructor|constructor|].
  split; [exact P|]. split; [exact W|]. split; [exact N|].
  intros c Hc. apply In_keys_get in Hc.
  rewrite (forEach_categorizeRow_get _ _ _ _ _ _ H0 c) in Hc.
  unfold extended in Hc. cbn [get] in Hc.
  destruct (rowsOf _ _ _ c data) as [|row rows] eqn:F; [destruct (Hc eq_refl)|].
  assert (Hin : In row (rowsOf host (spread CATS custom)
                               (sortByLengthDesc (keys (spread CATS custom))) c data))
    by (rewrite F; left; reflexivity).
  apply filter_In in Hin as [_ Hcat].
  unfold rowCategory, categoryOf in Hcat.
  destruct (gt _ zero).
  - cbn [hasCategory] in Hcat. apply String.eqb_eq in Hcat. left. symmetry. exact Hcat.
  - destruct (firstMatch _ _ _ _) as [c'|e] eqn:FM; [|discriminate].
    cbn [hasCategory] in Hcat. apply String.eqb_eq in Hcat. subst c'.
    apply firstMatch_result in FM as [->|(k & Hk & ->)]; [auto|].
    right. right. apply categoryAt_values.
    apply (sortByLengthDesc_In (keys (spread CATS custom))), Hk.
Qed.

Lemma categorizeTransactions_partition_witness :
  exists g,
    categorizeTransactions noHost sampleCategories [] [samplePurchase; sampleSalary]
    = Normal g /\
    Permutation (allListed g) (map cleaned [samplePurchase; sampleSalary]).
Proof.
  eexists. split; [reflexivity|].
  exact (proj1 (categorizeTransactions_partition noHost sampleCategories []
                  [samplePurchase; sampleSalary] _ eq_refl)).
Defined.

(** X12.  The categorizer returns a grouping exactly when the choice of a
    category returns for every row and no row is given a category named
    like a member of [Object.prototype] (constructor, toString, ...): one
    row whose keyword loop throws, or one such category, and no row of the
    batch is grouped. *)
Theorem categorizeTransactions_returns_iff :
  forall hostRegExp CATEGORIES custom data,
    let allCats := spread CATEGORIES custom in
    (exists g, categorizeTransactions hostRegExp CATEGORIES custom data = Normal g)
    <->
    (forall row, In row data ->
       exists c, rowCategory hostRegExp allCats (sortByLengthDesc (keys allCats)) row
                 = Normal c /\ inherited c = false).
Proof.
  intros host CATS custom data allCats. unfold categorizeTransactions.
  apply forEach_categorizeRow_returns. intros c H. destruct (H eq_refl).
Qed.

(** ** The merged table: the custom entries come last and win *)

Section Spread.
Context {V : Type}.
Implicit Types (o a b : obj V) (k : string).

Lemma get_app a b k :
  get (a ++ b)%list k = match get a k with Some v => Some v | None => get b k end.
Proof.
  induction a as [|[k0 v0] a IH]; simpl; [reflexivity|].
  destruct (String.eqb k0 k); [reflexivity|exact IH].
Qed.

Lemma get_fold_set (l : obj V) :
  forall o k,
    get (fold_left (fun o kv => set o (fst kv) (snd kv)) l o) k =
    match get (rev l) k with Some v => Some v | None => get o k end.
Proof.
  induction l as [|[k0 v0] l IH]; intros o k; [reflexivity|].
  cbn [fold_left rev fst snd]. rewrite IH, get_app, get_set. cbn [get].
  destruct (get (rev l) k); [reflexivity|].
  destruct (String.eqb k0 k); reflexivity.
Qed.

Lemma get_rev o k : wellFormed o -> get (rev o) k = get o k.
Proof.
  unfold wellFormed. induction o as [|[k0 v0] o IH]; intros H; [reflexivity|].
  simpl in H. inversion H as [|? ? Hn Hd]; subst.
  cbn [rev get]. rewrite get_app, (IH Hd). cbn [get].
  destruct (String.eqb k0 k) eqn:E.
  - apply String.eqb_eq in E. subst k0.
    destruct (get o k) eqn:G; [|reflexivity].
    exfalso. apply Hn, In_keys_get. rewrite G. discriminate.
  - destruct (get o k); reflexivity.
Qed.

Lemma get_spread a b k :
  wellFormed a -> wellFormed b ->
  get (spread a b) k = match get b k with Some v => Some v | None => get a k end.
Proof.
  intros Ha Hb. unfold spread. rewrite get_fold_set, rev_app_distr, get_app.
  rewrite (get_rev _ _ Ha), (get_rev _ _ Hb).
  destruct (get b k); [reflexivity|]. destruct (get a k); reflexivity.
Qed.

Lemma wellFormed_fold_set (l : obj V) :
  forall o, wellFormed o ->
            wellFormed (fold_left (fun o kv => set o (fst kv) (snd kv)) l o).
Proof.
  induction l as [|kv l IH]; intros o H; [exact H|].
  simpl. apply IH, wellFormed_set, H.
Qed.

Lemma wellFormed_spread a b : wellFormed (spread a b).
Proof. apply wellFormed_fold_set. constructor. Qed.

Lemma In_keys_app a b k : In k (keys (a ++ b)%list) <-> In k (keys a) \/ In k (keys b).
Proof. unfold keys. rewrite map_app. apply in_app_iff. Qed.

Lemma In_keys_spread a b k : In k (keys (spread a b)) <-> In k (keys a) \/ In k (keys b).
Proof.
  unfold spread. rewrite In_keys_get, get_fold_set. cbn [get].
  rewrite <- In_keys_app.
  assert (E : In k (keys (a ++ b)%list) <-> In k (keys (rev (a ++ b)))).
  { unfold keys. rewrite map_rev. apply in_rev. }
  rewrite E, In_keys_get.
  destruct (get (rev (a ++ b)) k); tauto.
Qed.

End Spread.

(** X13.  In the table getAllCategories returns, a keyword of the custom
    table has the category the custom table gives it, also when the base
    table has that keyword with another category, and a keyword of the base
    table alone keeps its category; the keywords are those of either table,
    each once.  The categorizer merges the two tables in the same way. *)
Theorem getAllCategories_lookup :
  forall CATEGORIES st,
    wellFormed CATEGORIES -> wellFormed (getCustomCategories st) ->
    (forall k,
        get (getAllCategories CATEGORIES st) k =
        match get (getCustomCategories st) k with
        | Some c => Some c
        | None => get CATEGORIES k
        end) /\
    (forall k, In k (keys (getAllCategories CATEGORIES st)) <->
               In k (keys CATEGORIES) \/ In k (keys (getCustomCategories st))) /\
    wellFormed (getAllCategories CATEGORIES st).
Proof.
  intros CATS st Hb Hc. unfold getAllCategories. cbv zeta.
  split; [intros k; apply get_spread; assumption|].
  split; [intros k; apply In_keys_spread|apply wellFormed_spread].
Qed.

Lemma getAllCategories_lookup_witness :
  get (getAllCategories sampleCategories
         (mkState (Some [("FOODS", "Eating out"); ("ACME COFFEE", "Coffee")]) []))
      "FOODS" = Some "Eating out" /\
  get (getAllCategories sampleCategories
         (mkState (Some [("FOODS", "Eating out"); ("ACME COFFEE", "Coffee")]) []))
      "WHOLE FOODS" = Some "Groceries".
Proof.
  assert (Hb : wellFormed sampleCategories).
  { repeat constructor; simpl; intuition discriminate. }
  assert (Hc : wellFormed (getCustomCategories
                 (mkState (Some [("FOODS", "Eating out"); ("ACME COFFEE", "Coffee")]) []))).
  { repeat constructor; simpl; intuition discriminate. }
  pose proof (proj1 (getAllCategories_lookup sampleCategories _ Hb Hc)) as H.
  split; [exact (H "FOODS")|exact (H "WHOLE FOODS")].
Defined.

(** ** The handler: what a click that is not rejected does *)

Lemma get_learned kws v :
  forall custom k,
    get (learned custom kws v) k =
    if existsb (String.eqb k) kws then Some v else get custom k.
Proof.
  unfold learned. induction kws as [|kw kws IH]; intros custom k; [reflexivity|].
  cbn [fold_left existsb]. rewrite IH, get_set.
  destruct (existsb (String.eqb k) kws); [rewrite orb_true_r; reflexivity|].
  rewrite orb_false_r, String.eqb_sym. reflexivity.
Qed.

Lemma In_keys_learned kws v custom k :
  In k (keys (learned custom kws v)) <-> In k (keys custom) \/ In k kws.
Proof.
  rewrite !In_keys_get, get_learned.
  destruct (existsb (String.eqb k) kws) eqn:E.
  - apply existsb_exists in E as (x & Hx & E). apply String.eqb_eq in E. subst x.
    split; [auto|discriminate].
  - split; [auto|]. intros [H|H]; [exact H|].
    assert (T : existsb (String.eqb k) kws = true)
      by (apply existsb_exists; exists k; split; [exact H|apply String.eqb_refl]).
    congruence.
Qed.

Lemma wellFormed_learned kws v :
  forall custom, wellFormed custom -> wellFormed (learned custom kws v).
Proof.
  unfold learned. induction kws as [|kw kws IH]; intros custom H; [exact H|].
  simpl. apply IH, wellFormed_set, H.
Qed.

(** A click ends with an alert and the state as it was, or the reply was
    not empty: the keywords kept from it are written to the custom table,
    and the selection is moved unless the move throws. *)
Lemma assignBtn_onclick_run page st :
  (exists msg, assignBtn_onclick page st = (Alerted msg, st)) \/
  (exists reply,
      prompt_reply page = Some reply /\ reply <> "" /\ selectedRows page <> [] /\
      let custom' := learned (getCustomCategories st) (keywordsOf reply)
                             (chosenCategoryOf page) in
      assignBtn_onclick page st =
      match reassign (chosenCategoryOf page) (selectedRows page) (categorized st) with
      | Throw e => (Uncaught e, mkState (Some custom') (categorized st))
      | Normal g => (Displayed, mkState (Some custom') g)
      end).
Proof.
  unfold assignBtn_onclick, chosenCategoryOf.
  destruct (selectedRows page) as [|r rows] eqn:S; [left; eauto|].
  destruct (String.eqb (dropdown_value page) "New Category...") eqn:N.
  - destruct (isEmpty (trim (input_value page))) eqn:I; [left; simpl; eauto|].
    simpl. destruct (prompt_reply page) as [reply|]; [|left; eauto].
    destruct (isEmpty reply) eqn:R; [left; eauto|].
    right. exists reply. apply isEmpty_false in R.
    split; [reflexivity|]. split; [exact R|]. split; [discriminate|].
    cbv zeta. unfold saveCustomCategories, learned. simpl.
    destruct (reassign _ _ _); reflexivity.
  - simpl. destruct (prompt_reply page) as [reply|]; [|left; eauto].
    destruct (isEmpty reply) eqn:R; [left; eauto|].
    right. exists reply. apply isEmpty_false in R.
    split; [reflexivity|]. split; [exact R|]. split; [discriminate|].
    cbv zeta. unfold saveCustomCategories, learned. simpl.
    destruct (reassign _ _ _); reflexivity.
Qed.

Lemma assignBtn_onclick_accepted page st out st' :
  assignBtn_onclick page st = (out, st') ->
  (forall msg, out <> Alerted msg) ->
  exists reply,
    prompt_reply page = Some reply /\ reply <> "" /\ selectedRows page <> [] /\
    customCategories st' =
    Some (learned (getCustomCategories st) (keywordsOf reply) (chosenCategoryOf page)) /\
    match reassign (chosenCategoryOf page) (selectedRows page) (categorized st) with
    | Throw e => out = Uncaught e /\ categorized st' = categorized st
    | Normal g => out = Displayed /\ categorized st' = g
    end.
Proof.
  intros H Hout.
  destruct (assignBtn_onclick_run page st) as [(msg & Hm)|(reply & Hr & Hne & Hs & Hrun)].
  - rewrite Hm in H. injection H as <- _. destruct (Hout msg eq_refl).
  - exists reply. split; [exact Hr|]. split; [exact Hne|]. split; [exact Hs|].
    cbv zeta in Hrun. rewrite Hrun in H.
    destruct (reassign _ _ _); injection H as <- <-; auto.
Qed.

(** X14.  After a click that is not rejected, the custom table gives the
    chosen category to each keyword kept from the reply, replacing the
    category it had, and to every other keyword what it gave before; this
    also when the move of the selection throws afterwards. *)
Theorem assignBtn_onclick_learns :
  forall page st out st',
    assignBtn_onclick page st = (out, st') ->
    (forall msg, out <> Alerted msg) ->
    exists reply,
      prompt_reply page = Some reply /\
      forall k,
        get (getCustomCategories st') k =
        if existsb (String.eqb k) (keywordsOf reply)
        then Some (chosenCategoryOf page)
        else get (getCustomCategories st) k.
Proof.
  intros page st out st' H Hout.
  destruct (assignBtn_onclick_accepted _ _ _ _ H Hout) as (reply & Hr & _ & _ & Hc & _).
  exists reply. split; [exact Hr|]. intros k.
  unfold getCustomCategories at 1. rewrite Hc. apply get_learned.
Qed.

Lemma assignBtn_onclick_learns_witness :
  exists st',
    assignBtn_onclick coffeePage freshState = (Displayed, st') /\
    get (getCustomCategories st') "ACME COFFEE" = Some "Coffee".
Proof.
  eexists. split; [reflexivity|].
  destruct (assignBtn_onclick_learns coffeePage freshState Displayed _ eq_refl)
    as (reply & Hr & Hk); [discriminate|].
  injection Hr as <-. exact (Hk "ACME COFFEE").
Defined.

(** ** Learning a keyword and categorizing with it *)

(** X15.  A keyword learned by a click is used by the categorizer from then
    on: for a keyword without pattern syntax kept from the reply, a row
    whose Amount is not greater than 0 and whose cleaned description has the
    keyword as a whole word is given the chosen category, provided no other
    keyword of the merged table at least as long matches or fails to
    compile. *)
Theorem learned_keyword_categorizes :
  forall hostRegExp CATEGORIES page st out st' reply k row,
    wellFormed CATEGORIES -> wellFormed (getCustomCategories st) ->
    assignBtn_onclick page st = (out, st') ->
    (forall msg, out <> Alerted msg) ->
    prompt_reply page = Some reply ->
    In k (keywordsOf reply) -> plain k = true ->
    gt (Amount row) zero = false ->
    wholeWord k (strictClean (Description row)) ->
    let allCats := getAllCategories CATEGORIES st' in
    (forall k', In k' (keys allCats) -> k' <> k -> length k <= length k' ->
                keywordTest hostRegExp k' (strictClean (Description row)) = Normal false) ->
    rowCategory hostRegExp allCats (sortByLengthDesc (keys allCats)) row
    = Normal (chosenCategoryOf page).
Proof.
  intros host CATS page st out st' reply k row Hb Hc H Hout Hr Hk Hp Hamt Hw allCats Hothers.
  destruct (assignBtn_onclick_accepted _ _ _ _ H Hout) as (reply' & Hr' & _ & _ & Hcust & _).
  rewrite Hr in Hr'. injection Hr' as <-.
  assert (Hex : existsb (String.eqb k) (keywordsOf reply) = true)
    by (apply existsb_exists; exists k; split; [exact Hk|apply String.eqb_refl]).
  assert (Hget : get allCats k = Some (chosenCategoryOf page)).
  { unfold allCats, getAllCategories. cbv zeta.
    rewrite get_spread; [|exact Hb|].
    - unfold getCustomCategories. rewrite Hcust, get_learned, Hex. reflexivity.
    - unfold getCustomCategories at 1. rewrite Hcust. apply wellFormed_learned, Hc. }
  assert (Hin : In k (keys allCats)) by (apply In_keys_get; rewrite Hget; discriminate).
  destruct (keywordTest_plain host k (strictClean (Description row)) Hp) as (b & Hb' & Hiff).
  assert (Ht : keywordTest host k (strictClean (Description row)) = Normal true).
  { rewrite Hb'. f_equal. apply Hiff, Hw. }
  unfold rowCategory, categoryOf. rewrite gt_parseFloatOfNumber, Hamt.
  destruct (firstMatch_longest host allCats (strictClean (Description row))
              (sortByLengthDesc (keys allCats)) k) as (k2 & Hk2 & Hl & Ht2 & Hres).
  - apply sortByLengthDesc_sorted.
  - apply sortByLengthDesc_In, Hin.
  - exact Ht.
  - intros k' e Hk' Hlen. apply (proj1 (sortByLengthDesc_In _ _)) in Hk'.
    destruct (string_dec k' k) as [->|Hne]; [rewrite Ht; discriminate|].
    rewrite (Hothers k' Hk' Hne Hlen). discriminate.
  - apply (proj1 (sortByLengthDesc_In _ _)) in Hk2.
    destruct (string_dec k2 k) as [->|Hne].
    + rewrite Hres. unfold categoryAt. rewrite Hget. reflexivity.
    + rewrite (Hothers k2 Hk2 Hne Hl) in Ht2. discriminate.
Qed.

Lemma wholeWord_ACME_COFFEE : wholeWord "ACME COFFEE" "ACME COFFEE SHOP".
Proof. exists "", "ACME COFFEE", " SHOP". repeat split. Qed.

Lemma learned_keyword_categorizes_witness :
  exists st',
    assignBtn_onclick coffeePage freshState = (Displayed, st') /\
    rowCategory noHost (getAllCategories sampleCategories st')
                (sortByLengthDesc (keys (getAllCategories sampleCategories st')))
                sampleCoffee
    = Normal "Coffee".
Proof.
  eexists. split; [reflexivity|].
  refine (learned_keyword_categorizes noHost sampleCategories coffeePage freshState
            Displayed _ "acme coffee" "ACME COFFEE" sampleCoffee
            _ _ eq_refl _ eq_refl _ eq_refl eq_refl wholeWord_ACME_COFFEE _).
  - repeat constructor; simpl; intuition discriminate.
  - constructor.
  - discriminate.
  - left. reflexivity.
  - intros k' Hk' Hne Hl.
    destruct Hk' as [<-|[<-|[<-|[<-|[]]]]].
    + vm_compute in Hl. lia.
    + reflexivity.
    + reflexivity.
    + destruct (Hne eq_refl).
Defined.

(** ** The keywords of the custom table *)

Lemma split_no_sep sep s :
  forall e, In e (split sep s) -> sforall (fun c => negb (Ascii.eqb c sep)) e = true.
Proof.
  induction s as [|c s IH]; intros e; simpl.
  - intros [<-|[]]. reflexivity.
  - destruct (Ascii.eqb c sep) eqn:E.
    + intros [<-|H]; [reflexivity|exact (IH e H)].
    + destruct (split sep s) as [|w ws].
      * intros [<-|[]]. simpl. rewrite E. reflexivity.
      * intros [<-|H]; [|apply IH; right; exact H].
        simpl. rewrite E. simpl. apply IH. left. reflexivity.
Qed.

Lemma toUpperCase_no_comma s :
  sforall (fun c => negb (eqc c ",")) s = true ->
  sforall (fun c => negb (eqc c ",")) (toUpperCase s) = true.
Proof.
  unfold toUpperCase. induction s as [|c s IH]; simpl; [auto|]. intros H.
  apply andb_true_iff in H as [Hc H]. rewrite (IH H), andb_true_r.
  destruct c as [[] [] [] [] [] [] [] []]; try reflexivity; discriminate Hc.
Qed.

(** Every keyword kept from a reply is a good keyword. *)
Lemma keywordsOf_good reply k : In k (keywordsOf reply) -> goodKeyword k.
Proof.
  intros H. apply keywordsOf_spec in H as (e & He & -> & Hl & Hd).
  unfold goodKeyword. split; [apply toUpperCase_idem|].
  split; [rewrite trim_toUpperCase, trim_idem; reflexivity|].
  split; [exact Hl|]. split; [exact Hd|].
  apply toUpperCase_no_comma, sforall_trim.
  exact (split_no_sep "," reply e He).
Qed.

(** X16.  The custom table keeps its shape through every click, rejected
    or not: if its keywords are in upper case, trimmed, of three characters
    or more, not all digits and free of commas, they still are afterwards;
    no keyword is ever removed from it; and no keyword comes to stand twice
    in it. *)
Theorem assignBtn_onclick_keeps_keywords :
  forall page st out st',
    assignBtn_onclick page st = (out, st') ->
    ((forall k, In k (keys (getCustomCategories st)) -> goodKeyword k) ->
     forall k, In k (keys (getCustomCategories st')) -> goodKeyword k) /\
    (forall k, In k (keys (getCustomCategories st)) ->
               In k (keys (getCustomCategories st'))) /\
    (wellFormed (getCustomCategories st) -> wellFormed (getCustomCategories st')).
Proof.
  intros page st out st' H.
  assert (Hcases : st' = st \/
                   exists reply, getCustomCategories st' =
                                 learned (getCustomCategories st) (keywordsOf reply)
                                         (chosenCategoryOf page)).
  { destruct (assignBtn_onclick_run page st) as [(msg & Hm)|(reply & _ & _ & _ & Hrun)].
    - rewrite Hm in H. injection H as _ <-. left. reflexivity.
    - right. exists reply. cbv zeta in Hrun. rewrite Hrun in H.
      destruct (reassign _ _ _); injection H as _ <-; reflexivity. }
  destruct Hcases as [->|(reply & E)]; [auto|]. rewrite E.
  split; [|split].
  - intros Hgood k Hk. apply In_keys_learned in Hk as [Hk|Hk];
      [exact (Hgood k Hk)|exact (keywordsOf_good reply k Hk)].
  - intros k Hk. apply In_keys_learned. left. exact Hk.
  - apply wellFormed_learned.
Qed.

Lemma assignBtn_onclick_keeps_keywords_witness :
  exists st',
    assignBtn_onclick coffeePage freshState = (Displayed, st') /\
    forall k, In k (keys (getCustomCategories st')) -> goodKeyword k.
Proof.
  eexists. split; [reflexivity|].
  apply (proj1 (assignBtn_onclick_keeps_keywords coffeePage freshState Displayed _ eq_refl)).
  intros k [].
Defined.

(** ** Reassignment: the groups, exactly *)

(** X17.  After a reassignment the group of the target lists what it
    listed, then one record for each selected box, in the order of the
    selection: a transaction selected in the target group itself is listed
    there once more.  Every other group lists what it listed without the
    transactions whose date and description are those of a selected box,
    and stays, empty if need be; there is no other group. *)
Theorem reassign_groups :
  forall (g : Groups) (rows : list Checkbox) (target : string),
    rows <> [] ->
    inherited target = false \/ get g target <> None ->
    exists g',
      reassign target rows g = Normal g' /\
      get g' target = Some (groupOf g target ++ map pushed rows)%list /\
      (forall c, c <> target ->
                 get g' c = option_map (filter (fun txn => negb (selectedHas rows txn)))
                                       (get g c)) /\
      (forall c, In c (keys g') <-> c = target \/ In c (keys g)).
Proof.
  intros g rows target Hne Hok.
  destruct (pushSelected_spec target rows g) as (g1 & Hp & _ & _).
  { destruct Hok as [H|H]; [left|right; left]; exact H. }
  destruct (get_pushSelected target rows g g1 Hp) as [Ht Ho].
  exists (removeSelected target rows g1). unfold reassign. rewrite Hp.
  split; [reflexivity|].
  assert (Htarget : get (removeSelected target rows g1) target
                    = Some (groupOf g target ++ map pushed rows)%list).
  { rewrite get_removeSelected, Ht, String.eqb_refl. unfold extended, groupOf.
    destruct (get g target); [reflexivity|].
    destruct rows; [destruct (Hne eq_refl)|reflexivity]. }
  assert (Hother : forall c, c <> target ->
            get (removeSelected target rows g1) c
            = option_map (filter (fun txn => negb (selectedHas rows txn))) (get g c)).
  { intros c Hc. rewrite get_removeSelected, (Ho c Hc).
    destruct (get g c); [|reflexivity]. simpl.
    destruct (String.eqb c target) eqn:E; [|reflexivity].
    apply String.eqb_eq in E. contradiction. }
  split; [exact Htarget|]. split; [exact Hother|].
  intros c. rewrite !In_keys_get.
  destruct (string_dec c target) as [->|Hc].
  - rewrite Htarget. split; [auto|discriminate].
  - rewrite (Hother c Hc). destruct (get g c); simpl.
    + split; [intros _; right; discriminate|discriminate].
    + split; [auto|]. intros [H|H]; [contradiction|exact H].
Qed.

Lemma reassign_groups_witness :
  exists g',
    reassign "Coffee" [coffeeBox] (categorized freshState) = Normal g' /\
    get g' "Coffee" = Some [sampleCoffee] /\
    get g' "Uncategorized" = Some [].
Proof.
  destruct (reassign_groups (categorized freshState) [coffeeBox] "Coffee")
    as (g' & Hr & Ht & Ho & _); [discriminate|left; reflexivity|].
  exists g'. split; [exact Hr|]. split; [exact Ht|].
  exact (Ho "Uncategorized" ltac:(discriminate)).
Defined.

(** X18.  A target category named like a member of [Object.prototype]
    (constructor, toString, ...) that has no group yet cannot be moved to:
    the click ends with an uncaught TypeError, after the keywords of the
    reply were written to the custom table and before any group is
    touched. *)
Theorem assignBtn_onclick_inherited_target :
  forall page st reply,
    selectedRows page <> [] ->
    prompt_reply page = Some reply -> reply <> "" ->
    inherited (chosenCategoryOf page) = true ->
    get (categorized st) (chosenCategoryOf page) = None ->
    assignBtn_onclick page st =
    (Uncaught TypeError,
     mkState (Some (learned (getCustomCategories st) (keywordsOf reply)
                            (chosenCategoryOf page)))
             (categorized st)).
Proof.
  intros page st reply Hsel Hr Hne Hi Hg.
  assert (Hthrow : reassign (chosenCategoryOf page) (selectedRows page) (categorized st)
                   = Throw TypeError).
  { apply reassign_throws. auto. }
  destruct (assignBtn_onclick_run page st) as [(msg & Hm)|(reply' & Hr' & _ & _ & Hrun)].
  - exfalso. unfold assignBtn_onclick in Hm.
    destruct (selectedRows page) as [|r rows]; [destruct (Hsel eq_refl)|].
    unfold chosenCategoryOf in Hi.
    destruct (String.eqb (dropdown_value page) "New Category...") eqn:N.
    + destruct (isEmpty (trim (input_value page))) eqn:I.
      * destruct (trim (input_value page)); [vm_compute in Hi; discriminate Hi|discriminate I].
      * simpl in Hm. rewrite Hr in Hm. apply isEmpty_false in Hne. rewrite Hne in Hm.
        destruct (reassign (trim (input_value page)) (r :: rows) (categorized st));
          discriminate Hm.
    + simpl in Hm. rewrite Hr in Hm. apply isEmpty_false in Hne. rewrite Hne in Hm.
      destruct (reassign (dropdown_value page) (r :: rows) (categorized st));
        discriminate Hm.
  - rewrite Hr in Hr'. injection Hr' as <-. cbv zeta in Hrun.
    rewrite Hrun, Hthrow. reflexivity.
Qed.

Lemma assignBtn_onclick_inherited_target_witness :
  assignBtn_onclick constructorPage freshState =
  (Uncaught TypeError,
   mkState (Some [("ACME COFFEE", "constructor")]) (categorized freshState)).
Proof.
  apply (assignBtn_onclick_inherited_target constructorPage freshState "acme coffee");
    try reflexivity; discriminate.
Defined.

(** ** The suggested phrases *)

Lemma split_nonempty sep s : split sep s <> [].
Proof.
  destruct s as [|c s]; simpl; [discriminate|].
  destruct (Ascii.eqb c sep); [discriminate|].
  destruct (split sep s); discriminate.
Qed.

Lemma join_cons sep x y (l : list string) :
  join sep (x :: y :: l) = x ++ sep ++ join sep (y :: l).
Proof. reflexivity. Qed.

(** Splitting at a character and joining with it gives the text back. *)
Lemma join_split sep s : join (String sep "") (split sep s) = s.
Proof.
  induction s as [|c s IH]; [reflexivity|].
  cbn [split]. destruct (Ascii.eqb c sep) eqn:E.
  - apply Ascii.eqb_eq in E. subst c.
    destruct (split sep s) as [|w ws] eqn:S; [destruct (split_nonempty _ _ S)|].
    rewrite join_cons, IH. reflexivity.
  - destruct (split sep s) as [|w ws] eqn:S; [destruct (split_nonempty _ _ S)|].
    destruct ws as [|w' ws].
    + simpl in IH |- *. rewrite IH. reflexivity.
    + rewrite join_cons in IH |- *. rewrite <- IH. reflexivity.
Qed.

(** The first words joined are the start of all the words joined, and a
    separator or nothing follows them. *)
Lemma join_firstn_prefix sep (l : list string) :
  forall n, exists rest,
    join sep l = join sep (firstn (S n) l) ++ rest /\
    (rest = "" \/ exists rest', rest = sep ++ rest').
Proof.
  induction l as [|x l IH]; intros n.
  - exists "". split; [reflexivity|left; reflexivity].
  - destruct l as [|y l].
    + exists "". cbn [firstn]. rewrite firstn_nil. simpl. rewrite app_nil_r.
      split; [reflexivity|left; reflexivity].
    + destruct n as [|n].
      * exists (sep ++ join sep (y :: l)). cbn [firstn]. rewrite join_cons.
        split; [reflexivity|right; eauto].
      * destruct (IH n) as (rest & E & Hr). exists rest.
        change (firstn (S (S n)) (x :: y :: l)) with (x :: y :: firstn n l).
        change (firstn (S n) (y :: l)) with (y :: firstn n l) in E.
        rewrite !join_cons, E, !app_assoc. split; [reflexivity|exact Hr].
Qed.

Lemma spaces_app (a b : string) : spaces (a ++ b) = spaces a + spaces b.
Proof. unfold spaces. rewrite sfilter_app, length_app. reflexivity. Qed.

Lemma spaces_none (s : string) :
  sforall (fun c => negb (Ascii.eqb c " ")) s = true -> spaces s = 0.
Proof.
  unfold spaces. induction s as [|c s IH]; [reflexivity|].
  cbn [sforall sfilter]. intros H.
  apply andb_true_iff in H as [Hc H]. apply negb_true_iff in Hc.
  unfold eqc. rewrite Ascii.eqb_sym, Hc. exact (IH H).
Qed.

Lemma spaces_join (l : list string) :
  (forall w, In w l -> spaces w = 0) -> spaces (join " " l) = List.length l - 1.
Proof.
  induction l as [|x l IH]; intros H; [reflexivity|].
  destruct l as [|y l].
  - simpl. apply H. left. reflexivity.
  - rewrite join_cons, !spaces_app, IH by (intros w Hw; apply H; right; exact Hw).
    rewrite (H x (or_introl eq_refl)). simpl. lia.
Qed.

Lemma In_firstn {A} n (l : list A) x : In x (firstn n l) -> In x l.
Proof.
  intros H. rewrite <- (firstn_skipn n l). apply in_or_app. left. exact H.
Qed.

(** The phrase is the start of the description, up to its third space or
    to its end. *)
Lemma phraseOf_prefix desc :
  exists rest,
    desc = phraseOf desc ++ rest /\
    (rest = "" \/ exists rest', rest = " " ++ rest') /\
    spaces (phraseOf desc) <= 2.
Proof.
  unfold phraseOf.
  destruct (join_firstn_prefix " " (split " " desc) 2) as (rest & E & Hr).
  exists rest. change " " with (String " "%char "") in E at 1.
  rewrite join_split in E. split; [exact E|]. split; [exact Hr|].
  rewrite spaces_join.
  - pose proof (firstn_le_length 3 (split " " desc)). lia.
  - intros w Hw. apply spaces_none.
    apply (split_no_sep " " desc). exact (In_firstn _ _ _ Hw).
Qed.

Lemma spaces_split desc : spaces desc = List.length (split " " desc) - 1.
Proof.
  rewrite <- (join_split " " desc) at 1.
  apply spaces_join. intros w Hw. apply spaces_none, (split_no_sep " " desc), Hw.
Qed.

(** X19.  The phrase the handler draws from a description is its first
    three words: the description starts with it, a space or nothing follows
    it there, and it holds at most two spaces.  A description of three words
    or fewer is its own phrase. *)
Theorem phraseOf_first_three_words :
  forall desc,
    (exists rest,
        desc = phraseOf desc ++ rest /\
        (rest = "" \/ exists rest', rest = " " ++ rest')) /\
    spaces (phraseOf desc) <= 2 /\
    (spaces desc <= 2 -> phraseOf desc = desc).
Proof.
  intros desc. destruct (phraseOf_prefix desc) as (rest & E & Hr & Hs).
  split; [exists rest; auto|]. split; [exact Hs|].
  intros Hd. rewrite spaces_split in Hd. unfold phraseOf.
  rewrite firstn_all2 by lia.
  exact (join_split " " desc).
Qed.

Lemma phraseOf_first_three_words_witness :
  phraseOf "ACME COFFEE SHOP 0412" = "ACME COFFEE SHOP" /\
  phraseOf "ACME COFFEE" = "ACME COFFEE".
Proof.
  split; [reflexivity|].
  apply (proj2 (proj2 (phraseOf_first_three_words "ACME COFFEE"))).
  vm_compute. lia.
Defined.

(** ** Counting the phrases *)

Lemma get_countPhrase pc phrase pc' :
  countPhrase pc phrase = Some pc' ->
  forall p, get pc' p =
            if String.eqb phrase p
            then Some (match get pc phrase with Some n => n | None => 0 end + 1)
            else get pc p.
Proof.
  unfold countPhrase. intros H p. destruct (get pc phrase) as [n|] eqn:G.
  - injection H as <-. rewrite get_set. reflexivity.
  - destruct (inherited phrase); [discriminate|]. injection H as <-.
    rewrite get_set. reflexivity.
Qed.

Lemma countPhrase_wellFormed pc phrase pc' :
  countPhrase pc phrase = Some pc' -> wellFormed pc -> wellFormed pc'.
Proof.
  unfold countPhrase. destruct (get pc phrase); [|destruct (inherited phrase); [discriminate|]];
    intros H; injection H as <-; apply wellFormed_set.
Qed.

Lemma fold_countRow_None rows : fold_left countRow rows None = None.
Proof. induction rows as [|r rows IH]; [reflexivity|exact IH]. Qed.

Lemma occurrences_cons p r rows :
  occurrences p (r :: rows) =
  (if String.eqb (phraseOf (desc r)) p then 1 else 0) + occurrences p rows.
Proof.
  unfold occurrences. cbn [filter].
  destruct (String.eqb (phraseOf (desc r)) p); reflexivity.
Qed.

(** The count of a phrase after the loop: what it was, and one for each
    box of that phrase, when the phrase passes the test. *)
Lemma fold_countRow_get rows :
  forall pc0 pc,
    fold_left countRow rows (Some pc0) = Some pc ->
    (wellFormed pc0 -> wellFormed pc) /\
    forall p,
      get pc p =
      if phraseOk p && (0 <? occurrences p rows)
      then Some (match get pc0 p with Some n => n | None => 0 end + occurrences p rows)
      else get pc0 p.
Proof.
  induction rows as [|r rows IH]; intros pc0 pc H.
  - simpl in H. injection H as <-. split; [auto|]. intros p.
    rewrite andb_false_r. reflexivity.
  - cbn [fold_left] in H.
    destruct (countRow (Some pc0) r) as [pc1|] eqn:R;
      [|rewrite fold_countRow_None in H; discriminate].
    destruct (IH pc1 pc H) as [W G]. unfold countRow in R.
    destruct (phraseOk (phraseOf (desc r))) eqn:Ok.
    + split; [intros W0; apply W, (countPhrase_wellFormed _ _ _ R W0)|].
      intros p. rewrite G, (get_countPhrase _ _ _ R p), occurrences_cons.
      destruct (String.eqb (phraseOf (desc r)) p) eqn:E.
      * apply String.eqb_eq in E. subst p. rewrite Ok. cbn [andb].
        destruct (occurrences (phraseOf (desc r)) rows) as [|n]; simpl.
        -- reflexivity.
        -- f_equal. lia.
      * reflexivity.
    + injection R as <-. split; [exact W|]. intros p.
      rewrite G, occurrences_cons.
      destruct (String.eqb (phraseOf (desc r)) p) eqn:E; [|reflexivity].
      apply String.eqb_eq in E. subst p. rewrite Ok. reflexivity.
Qed.

Lemma phraseCountsOf_get rows pc :
  phraseCountsOf rows = Some pc ->
  wellFormed pc /\
  forall p, get pc p = if phraseOk p && (0 <? occurrences p rows)
                       then Some (occurrences p rows) else None.
Proof.
  intros H. destruct (fold_countRow_get rows [] pc H) as [W G].
  split; [apply W; constructor|exact G].
Qed.

(** A phrase of letters A to Z, digits and spaces names no member of
    [Object.prototype]. *)
Lemma inherited_alnum p : sforall isAlnumSpace p = true -> inherited p = false.
Proof.
  intros H. apply not_true_false. intros Hi.
  unfold inherited in Hi. apply existsb_exists in Hi as (n & Hn & E).
  apply String.eqb_eq in E. subst n.
  repeat (destruct Hn as [<-|Hn]; [discriminate H|]). destruct Hn.
Qed.

Lemma phraseOf_alnum desc :
  sforall isAlnumSpace desc = true -> sforall isAlnumSpace (phraseOf desc) = true.
Proof.
  intros H. destruct (phraseOf_prefix desc) as (rest & E & _).
  rewrite E, sforall_app in H. apply andb_true_iff in H as [H _]. exact H.
Qed.

Lemma fold_countRow_returns rows :
  (forall r, In r rows -> sforall isAlnumSpace (desc r) = true) ->
  forall pc0, exists pc, fold_left countRow rows (Some pc0) = Some pc.
Proof.
  induction rows as [|r rows IH]; intros Ha pc0; [exists pc0; reflexivity|].
  cbn [fold_left]. unfold countRow at 2.
  destruct (phraseOk (phraseOf (desc r)));
    [|apply IH; intros r' Hr'; apply Ha; right; exact Hr'].
  unfold countPhrase.
  rewrite (inherited_alnum _ (phraseOf_alnum _ (Ha r (or_introl eq_refl)))).
  destruct (get pc0 (phraseOf (desc r)));
    apply IH; intros r' Hr'; apply Ha; right; exact Hr'.
Qed.

(** ** The sort by count *)

Lemma insertByCount_perm e l : Permutation (insertByCount e l) (e :: l).
Proof.
  induction l as [|e' l IH]; simpl; [apply Permutation_refl|].
  destruct (snd e <? snd e').
  - eapply Permutation_trans; [apply perm_skip, IH|apply perm_swap].
  - apply Permutation_refl.
Qed.

Lemma sortByCountDesc_perm l : Permutation (sortByCountDesc l) l.
Proof.
  induction l as [|e l IH]; simpl; [constructor|].
  eapply Permutation_trans; [apply insertByCount_perm|apply perm_skip, IH].
Qed.

Lemma insertByCount_sorted e l :
  StronglySorted (fun a b : string * nat => snd b <= snd a) l ->
  StronglySorted (fun a b : string * nat => snd b <= snd a) (insertByCount e l).
Proof.
  induction l as [|e' l IH]; simpl; intros Hs.
  - constructor; constructor.
  - inversion Hs as [|? ? Hs' Hall]; subst.
    destruct (snd e <? snd e') eqn:E.
    + apply Nat.ltb_lt in E. constructor; [apply IH, Hs'|].
      apply Forall_forall. intros x Hx.
      apply (Permutation_in _ (insertByCount_perm e l)) in Hx.
      destruct Hx as [<-|Hx]; [lia|].
      rewrite Forall_forall in Hall. apply Hall, Hx.
    + apply Nat.ltb_ge in E. constructor; [exact Hs|].
      constructor; [exact E|].
      rewrite Forall_forall in *. intros x Hx. specialize (Hall x Hx). lia.
Qed.

Lemma sortByCountDesc_sorted l :
  StronglySorted (fun a b : string * nat => snd b <= snd a) (sortByCountDesc l).
Proof.
  induction l as [|e l IH]; simpl; [constructor|].
  apply insertByCount_sorted, IH.
Qed.

Lemma StronglySorted_app_inv {A} (R : A -> A -> Prop) (l1 l2 : list A) :
  StronglySorted R (l1 ++ l2)%list ->
  StronglySorted R l1 /\ forall x y, In x l1 -> In y l2 -> R x y.
Proof.
  induction l1 as [|a l1 IH]; simpl; intros H.
  - split; [constructor|intros x y []].
  - inversion H as [|? ? Hs Hall]; subst. destruct (IH Hs) as [S1 C].
    rewrite Forall_forall in Hall. split.
    + constructor; [exact S1|]. apply Forall_forall. intros x Hx.
      apply Hall, in_or_app. left. exact Hx.
    + intros x y [<-|Hx] Hy; [apply Hall, in_or_app; right; exact Hy|exact (C x y Hx Hy)].
Qed.

Lemma StronglySorted_map {A B} (f : A -> B) (R : B -> B -> Prop) (l : list A) :
  StronglySorted (fun a b => R (f a) (f b)) l -> StronglySorted R (map f l).
Proof.
  induction 1 as [|a l Hs IH Hall]; simpl; constructor; [exact IH|].
  rewrite Forall_forall in *. intros y Hy. apply in_map_iff in Hy as (x & <- & Hx).
  apply Hall, Hx.
Qed.

Lemma StronglySorted_weaken {A} (R R' : A -> A -> Prop) (l : list A) :
  (forall x y, In x l -> In y l -> R x y -> R' x y) ->
  StronglySorted R l -> StronglySorted R' l.
Proof.
  intros H Hs. induction Hs as [|a l Hs IH Hall]; constructor.
  - apply IH. intros x y Hx Hy. apply H; right; assumption.
  - rewrite Forall_forall in *. intros y Hy.
    apply H; [left; reflexivity|right; exact Hy|exact (Hall y Hy)].
Qed.

Lemma NoDup_app_l {A} (l1 l2 : list A) : NoDup (l1 ++ l2)%list -> NoDup l1.
Proof.
  induction l1 as [|a l1 IH]; simpl; intros H; [constructor|].
  inversion H as [|? ? Hn Hd]; subst. constructor; [|exact (IH Hd)].
  intros Hin. apply Hn, in_or_app. left. exact Hin.
Qed.

Lemma get_of_In {V} (o : obj V) k v : wellFormed o -> In (k, v) o -> get o k = Some v.
Proof.
  unfold wellFormed. induction o as [|[k0 v0] o IH]; simpl; intros Hw Hin; [destruct Hin|].
  inversion Hw as [|? ? Hn Hd]; subst.
  destruct Hin as [E|Hin].
  - injection E as -> ->. rewrite String.eqb_refl. reflexivity.
  - destruct (String.eqb k0 k) eqn:E; [|exact (IH Hd Hin)].
    apply String.eqb_eq in E. subst k0. exfalso. apply Hn.
    apply (in_map fst) in Hin. exact Hin.
Qed.

Lemma topPhrases_facts :
  forall rows,
    (forall r, In r rows -> sforall isAlnumSpace (desc r) = true) ->
    exists top,
      topPhrases rows = Some top /\
      List.length top <= 5 /\
      NoDup top /\
      (forall p, In p top ->
                 phraseOk p = true /\ exists r, In r rows /\ p = phraseOf (desc r)) /\
      StronglySorted (countDesc rows) top /\
      (forall p q, In p top -> ~ In q top -> phraseOk q = true ->
                   occurrences q rows <= occurrences p rows) /\
      (List.length top < 5 ->
       forall q, phraseOk q = true -> 0 < occurrences q rows -> In q top).
Proof.
  intros rows Ha. unfold topPhrases.
  destruct (fold_countRow_returns rows Ha []) as (pc & Hpc).
  change (fold_left countRow rows (Some [])) with (phraseCountsOf rows) in Hpc.
  rewrite Hpc. destruct (phraseCountsOf_get rows pc Hpc) as [W G].
  set (sorted := sortByCountDesc pc).
  assert (P : Permutation sorted pc) by apply sortByCountDesc_perm.
  assert (Hentry : forall p n, In (p, n) sorted ->
                               phraseOk p = true /\ 0 < n /\ n = occurrences p rows).
  { intros p n Hin. apply (Permutation_in _ P) in Hin.
    apply (get_of_In _ _ _ W) in Hin. rewrite G in Hin.
    destruct (phraseOk p); [|discriminate]. cbn [andb] in Hin.
    destruct (0 <? occurrences p rows) eqn:Z; [|discriminate].
    apply Nat.ltb_lt in Z. injection Hin as <-. auto. }
  assert (Hkeys : NoDup (map fst sorted)).
  { apply (Permutation_NoDup (l := keys pc)); [|exact W].
    apply Permutation_sym, Permutation_map, P. }
  assert (Hsplit : map fst sorted
                   = (firstn 5 (map fst sorted) ++ skipn 5 (map fst sorted))%list)
    by (symmetry; apply firstn_skipn).
  assert (Hs : StronglySorted (countDesc rows) (map fst sorted)).
  { apply StronglySorted_map.
    apply (StronglySorted_weaken (fun a b : string * nat => snd b <= snd a));
      [|apply sortByCountDesc_sorted].
    intros [p n] [q m] Hp Hq Hle. simpl in *. unfold countDesc.
    destruct (Hentry p n Hp) as (_ & _ & <-).
    destruct (Hentry q m Hq) as (_ & _ & <-). exact Hle. }
  rewrite Hsplit in Hs, Hkeys.
  destruct (StronglySorted_app_inv _ _ _ Hs) as [Hs1 Hcross].
  eexists. split; [reflexivity|].
  split; [apply firstn_le_length|].
  split; [exact (NoDup_app_l _ _ Hkeys)|].
  assert (Hcounted : forall q, phraseOk q = true -> 0 < occurrences q rows ->
                               In q (map fst sorted)).
  { intros q Hok Hocc.
    assert (Hg : get pc q = Some (occurrences q rows)).
    { rewrite G, Hok. apply Nat.ltb_lt in Hocc. rewrite Hocc. reflexivity. }
    apply get_In in Hg. apply (Permutation_in _ (Permutation_sym P)) in Hg.
    apply (in_map fst) in Hg. exact Hg. }
  split; [|split; [exact Hs1|split]].
  - intros p Hp. apply In_firstn in Hp. apply in_map_iff in Hp as ([p' n] & <- & Hin).
    destruct (Hentry p' n Hin) as (Hok & Hpos & Hn). split; [exact Hok|]. simpl.
    unfold occurrences in Hn.
    destruct (filter (fun input => String.eqb (phraseOf (desc input)) p') rows)
      as [|r l] eqn:F; [simpl in Hn; lia|].
    assert (Hr : In r (filter (fun input => String.eqb (phraseOf (desc input)) p') rows))
      by (rewrite F; left; reflexivity).
    apply filter_In in Hr as [Hr E]. apply String.eqb_eq in E.
    exists r. auto.
  - intros p q Hp Hq Hok.
    destruct (occurrences q rows) as [|n] eqn:O; [lia|]. rewrite <- O.
    assert (Hin : In q (map fst sorted)) by (apply Hcounted; [exact Hok|lia]).
    rewrite Hsplit in Hin. apply in_app_or in Hin as [Hin|Hin]; [contradiction|].
    exact (Hcross p q Hp Hin).
  - intros Hlen q Hok Hocc.
    rewrite length_firstn in Hlen.
    rewrite firstn_all2 by lia. apply Hcounted; assumption.
Qed.


(** X20.  For a selection of transactions as the page shows them
    (descriptions of letters A to Z, digits and spaces), the handler
    suggests at most five phrases, no phrase twice; each is the first three
    words of a selected description, of four characters or more and not all
    digits; they stand by falling number of selected descriptions that
    start with them, and no phrase left out passes the test and is counted
    more often than one that is suggested; with fewer than five suggested,
    none is left out. *)
Theorem topPhrases_most_frequent :
  forall rows,
    (forall r, In r rows -> sforall isAlnumSpace (desc r) = true) ->
    exists top,
      topPhrases rows = Some top /\
      List.length top <= 5 /\
      NoDup top /\
      (forall p, In p top ->
                 phraseOk p = true /\ exists r, In r rows /\ p = phraseOf (desc r)) /\
      StronglySorted (countDesc rows) top /\
      (forall p q, In p top -> ~ In q top -> phraseOk q = true ->
                   occurrences q rows <= occurrences p rows) /\
      (List.length top < 5 ->
       forall q, phraseOk q = true -> 0 < occurrences q rows -> In q top).
Proof. exact topPhrases_facts. Qed.

Lemma topPhrases_most_frequent_witness :
  exists top,
    topPhrases [mkCheckbox "SHELL OIL 0412" "2024-03-01" zero;
                coffeeBox;
                mkCheckbox "ACME COFFEE SHOP" "2024-03-09" zero] = Some top /\
    top = ["ACME COFFEE SHOP"; "SHELL OIL 0412"] /\
    StronglySorted
      (countDesc [mkCheckbox "SHELL OIL 0412" "2024-03-01" zero;
                  coffeeBox;
                  mkCheckbox "ACME COFFEE SHOP" "2024-03-09" zero]) top.
Proof.
  destruct (topPhrases_most_frequent
              [mkCheckbox "SHELL OIL 0412" "2024-03-01" zero;
               coffeeBox;
               mkCheckbox "ACME COFFEE SHOP" "2024-03-09" zero])
    as (top & Ht & _ & _ & _ & Hs & _).
  - intros r [<-|[<-|[<-|[]]]]; reflexivity.
  - exists top. split; [exact Ht|]. split; [|exact Hs].
    vm_compute in Ht. injection Ht as <-. reflexivity.
Defined.

(** ** The dropdown *)

Lemma uniq_In l :
  forall seen x, In x (uniq seen l) <-> In x l /\ ~ In x seen.
Proof.
  induction l as [|y l IH]; intros seen x; simpl; [tauto|].
  destruct (existsb (String.eqb y) seen) eqn:E.
  - apply existsb_exists in E as (z & Hz & E). apply String.eqb_eq in E. subst z.
    rewrite IH. split; [tauto|]. intros [[<-|H] Hn]; [contradiction|auto].
  - assert (Hy : ~ In y seen).
    { intros Hy. assert (T : existsb (String.eqb y) seen = true)
        by (apply existsb_exists; exists y; split; [exact Hy|apply String.eqb_refl]).
      congruence. }
    simpl. rewrite IH. simpl. split.
    + intros [<-|[H Hn]]; [auto|]. split; [auto|]. intros Hs. apply Hn. right. exact Hs.
    + intros [[<-|H] Hn]; [auto|].
      destruct (string_dec y x) as [->|Hne]; [auto|].
      right. split; [exact H|]. intros [->|Hs]; [apply Hne; reflexivity|exact (Hn Hs)].
Qed.

Lemma uniq_NoDup l : forall seen, NoDup (uniq seen l).
Proof.
  induction l as [|y l IH]; intros seen; simpl; [constructor|].
  destruct (existsb (String.eqb y) seen); [apply IH|].
  constructor; [|apply IH]. intros H. apply uniq_In in H as [_ Hn].
  apply Hn. left. reflexivity.
Qed.

(** X21.  The dropdown offers every category of the merged table and the
    entry New Category..., each once and nothing else; with an empty table
    that entry is the only one. *)
Theorem populateDropdown_options :
  forall CATEGORIES st,
    NoDup (populateDropdown CATEGORIES st) /\
    (forall c, In c (populateDropdown CATEGORIES st) <->
               In c (values (getAllCategories CATEGORIES st)) \/ c = "New Category...") /\
    (getAllCategories CATEGORIES st = [] ->
     populateDropdown CATEGORIES st = ["New Category..."]).
Proof.
  intros CATS st. unfold populateDropdown.
  split; [apply uniq_NoDup|]. split.
  - intros c. rewrite uniq_In, in_app_iff. simpl. split.
    + intros [[H|[<-|[]]] _]; auto.
    + intros [H| ->]; split; auto.
  - intros ->. reflexivity.
Qed.

Lemma populateDropdown_options_witness :
  populateDropdown [] (mkState None []) = ["New Category..."].
Proof.
  apply (proj2 (proj2 (populateDropdown_options [] (mkState None [])))). reflexivity.
Defined.

(** ** The order of the groups on display *)

Section DisplayOrder.
Variable localeCompare : string -> string -> Z.

Lemma insertCategory_perm c l :
  Permutation (insertCategory localeCompare c l) (c :: l).
Proof.
  induction l as [|c' l IH]; simpl; [apply Permutation_refl|].
  destruct (0 <? compareCategories localeCompare c c')%Z.
  - eapply Permutation_trans; [apply perm_skip, IH|apply perm_swap].
  - apply Permutation_refl.
Qed.

Lemma sortCategories_perm l : Permutation (sortCategories localeCompare l) l.
Proof.
  induction l as [|c l IH]; simpl; [constructor|].
  eapply Permutation_trans; [apply insertCategory_perm|apply perm_skip, IH].
Qed.

Lemma insertCategory_Uncategorized l :
  insertCategory localeCompare "Uncategorized" l = (l ++ ["Uncategorized"])%list.
Proof.
  induction l as [|c' l IH]; [reflexivity|].
  cbn [insertCategory]. unfold compareCategories at 1.
  rewrite String.eqb_refl. cbn. rewrite IH. reflexivity.
Qed.

Lemma insertCategory_before_Uncategorized c l :
  c <> "Uncategorized" ->
  exists l', insertCategory localeCompare c (l ++ ["Uncategorized"])%list
             = (l' ++ ["Uncategorized"])%list.
Proof.
  intros Hc. induction l as [|c' l (l' & IH)].
  - exists [c]. cbn. unfold compareCategories.
    apply String.eqb_neq in Hc. rewrite Hc. reflexivity.
  - cbn [app insertCategory].
    destruct (0 <? compareCategories localeCompare c c')%Z.
    + exists (c' :: l'). rewrite IH. reflexivity.
    + exists (c :: c' :: l). reflexivity.
Qed.

Lemma sortCategories_no_Uncategorized l :
  ~ In "Uncategorized" l -> ~ In "Uncategorized" (sortCategories localeCompare l).
Proof.
  intros H Hin. apply H. exact (Permutation_in _ (sortCategories_perm l) Hin).
Qed.

Lemma sortCategories_Uncategorized_last l :
  NoDup l -> In "Uncategorized" l ->
  exists l', sortCategories localeCompare l = (l' ++ ["Uncategorized"])%list.
Proof.
  induction l as [|c l IH]; intros Hd Hin; [destruct Hin|].
  inversion Hd as [|? ? Hn Hd']; subst. cbn [sortCategories fold_right].
  change (fold_right (insertCategory localeCompare) [] l)
    with (sortCategories localeCompare l).
  destruct (string_dec c "Uncategorized") as [->|Hc].
  - exists (sortCategories localeCompare l). apply insertCategory_Uncategorized.
  - destruct Hin as [->|Hin]; [destruct (Hc eq_refl)|].
    destruct (IH Hd' Hin) as (l' & E). rewrite E.
    apply insertCategory_before_Uncategorized, Hc.
Qed.

End DisplayOrder.

(** X22.  The groups are drawn each once, whatever the collation order of
    the host, and the group Uncategorized, when there is one, is drawn
    last. *)
Theorem displayedCategories_Uncategorized_last :
  forall localeCompare (categorized : Groups),
    wellFormed categorized ->
    Permutation (displayedCategories localeCompare categorized) (keys categorized) /\
    (In "Uncategorized" (keys categorized) ->
     exists before,
       displayedCategories localeCompare categorized
       = (before ++ ["Uncategorized"])%list /\
       ~ In "Uncategorized" before).
Proof.
  intros lc g W. unfold displayedCategories.
  split; [apply sortCategories_perm|].
  intros Hin. destruct (sortCategories_Uncategorized_last lc (keys g) W Hin) as (l' & E).
  exists l'. split; [exact E|].
  assert (Hd : NoDup (sortCategories lc (keys g))).
  { apply (Permutation_NoDup (Permutation_sym (sortCategories_perm lc (keys g)))), W. }
  rewrite E in Hd. intros Hl.
  apply NoDup_remove_2 in Hd. apply Hd. rewrite List.app_nil_r. exact Hl.
Qed.

Lemma displayedCategories_Uncategorized_last_witness :
  exists before,
    displayedCategories (fun _ _ => 0%Z)
      [("Uncategorized", [sampleCoffee]); ("Income", [sampleSalary])]
    = (before ++ ["Uncategorized"])%list.
Proof.
  destruct (displayedCategories_Uncategorized_last (fun _ _ => 0%Z)
              [("Uncategorized", [sampleCoffee]); ("Income", [sampleSalary])])
    as [_ H].
  - repeat constructor; simpl; intuition discriminate.
  - destruct H as (before & E & _); [left; reflexivity|].
    exists before. exact E.
Defined.

(** ** The sums of the summary *)

Lemma binary_normalize_not_NaN prec emax m e sz :
  isNaN (binary_normalize prec emax m e sz) = false.
Proof.
  destruct m as [|p|p]; simpl; [reflexivity| |];
    apply (signed_not_NaN _ _ (binary_round_signed prec emax _ p e)).
Qed.

Lemma add_positive a b :
  signed false a -> gt b zero = true -> signed false (num_add a b).
Proof.
  intros Ha Hb.
  destruct b as [sb|sb| |sb mb eb]; try discriminate Hb;
    destruct sb; try discriminate Hb;
    destruct a as [sa|sa| |sa ma ea]; simpl in Ha; try contradiction; subst;
    try reflexivity.
  unfold num_add, SFadd. cbv zeta. unfold cond_Zopp.
  change (Z.pos ?x + Z.pos ?y)%Z with (Z.pos (x + y)).
  apply binary_round_signed.
Qed.

Lemma add_negative a b :
  a = zero \/ signed true a -> num_lt b zero = true -> signed true (num_add a b).
Proof.
  intros Ha Hb.
  destruct b as [sb|sb| |sb mb eb]; try discriminate Hb;
    destruct sb; try discriminate Hb;
    destruct a as [sa|sa| |sa ma ea]; destruct Ha as [Ha|Ha];
    try discriminate Ha; simpl in Ha; try contradiction;
    try (injection Ha as Ha); subst; try reflexivity.
  unfold num_add, SFadd. cbv zeta. unfold cond_Zopp.
  change (- Z.pos ?x + - Z.pos ?y)%Z with (Z.neg (x + y)).
  apply binary_round_signed.
Qed.

Lemma addToSummary_signs s txn : summarySigns s -> summarySigns (addToSummary s txn).
Proof.
  intros [Hi He]. unfold addToSummary, summarySigns.
  destruct (gt (Amount txn) zero) eqn:G; destruct (num_lt (Amount txn) zero) eqn:L; simpl.
  - split; [apply add_positive; assumption|right; apply add_negative; assumption].
  - split; [apply add_positive; assumption|exact He].
  - split; [exact Hi|right; apply add_negative; assumption].
  - split; assumption.
Qed.

Lemma fold_addToSummary_signs l :
  forall s, summarySigns s -> summarySigns (fold_left addToSummary l s).
Proof.
  induction l as [|t l IH]; intros s H; [exact H|].
  simpl. apply IH, addToSummary_signs, H.
Qed.

Lemma summaryOf_signs categories g : summarySigns (summaryOf categories g).
Proof.
  unfold summaryOf.
  assert (H0 : summarySigns (mkSummary zero zero)) by (split; [reflexivity|left; reflexivity]).
  revert H0. generalize (mkSummary zero zero).
  induction categories as [|c cs IH]; intros s H; [exact H|].
  simpl. apply IH, fold_addToSummary_signs, H.
Qed.

Lemma signed_false_le x : signed false x -> num_le zero x = true.
Proof.
  destruct x as [s|s| |s m e]; simpl; intros H; try contradiction; subst; reflexivity.
Qed.

Lemma signed_true_le x : signed true x -> num_le x zero = true.
Proof.
  destruct x as [s|s| |s m e]; simpl; intros H; try contradiction; subst; reflexivity.
Qed.

Lemma add_NaN a b :
  signed false a -> b = zero \/ signed true b -> isNaN (num_add a b) = true ->
  a = Infinity false /\ b = Infinity true.
Proof.
  intros Ha Hb.
  destruct a as [sa|sa| |sa ma ea]; simpl in Ha; try contradiction; subst;
    destruct b as [sb|sb| |sb mb eb]; destruct Hb as [Hb|Hb];
    try discriminate Hb; simpl in Hb; try contradiction;
    try (injection Hb as Hb); subst; try discriminate;
    try (intros _; split; reflexivity).
  unfold num_add, SFadd. cbv zeta. rewrite binary_normalize_not_NaN. discriminate.
Qed.

(** X23.  In the summary under the tables, Total Income is a number that
    is not negative and Total Expenses one that is not positive, and neither
    is NaN, whatever the Amounts on display are, NaN among them; the Net is
    NaN only when the income is plus infinity and the expenses are minus
    infinity. *)
Theorem summary_signs :
  forall localeCompare (categorized : Groups),
    let summary := summaryOf (displayedCategories localeCompare categorized)
                             categorized in
    isNaN (income summary) = false /\ num_le zero (income summary) = true /\
    isNaN (expenses summary) = false /\ num_le (expenses summary) zero = true /\
    (isNaN (net summary) = true ->
     income summary = Infinity false /\ expenses summary = Infinity true).
Proof.
  intros lc g summary.
  destruct (summaryOf_signs (displayedCategories lc g) g) as [Hi He].
  fold summary in Hi, He.
  split; [apply (signed_not_NaN _ _ Hi)|]. split; [apply signed_false_le, Hi|].
  split; [destruct He as [->|He]; [reflexivity|apply (signed_not_NaN _ _ He)]|].
  split; [destruct He as [->|He]; [reflexivity|apply signed_true_le, He]|].
  apply add_NaN; assumption.
Qed.

Lemma summary_signs_witness :
  isNaN (net (summaryOf (displayedCategories (fun _ _ => 0%Z)
                           [("Income", [mkTransaction "2024-03-01" (Infinity false) "A"]);
                            ("Fees", [mkTransaction "2024-03-02" (Infinity true) "B"])])
                        [("Income", [mkTransaction "2024-03-01" (Infinity false) "A"]);
                         ("Fees", [mkTransaction "2024-03-02" (Infinity true) "B"])]))
  = true /\
  income (summaryOf (displayedCategories (fun _ _ => 0%Z)
                       [("Income", [mkTransaction "2024-03-01" (Infinity false) "A"]);
                        ("Fees", [mkTransaction "2024-03-02" (Infinity true) "B"])])
                    [("Income", [mkTransaction "2024-03-01" (Infinity false) "A"]);
                     ("Fees", [mkTransaction "2024-03-02" (Infinity true) "B"])])
  = Infinity false.
Proof.
  split; [reflexivity|].
  apply (proj2 (proj2 (proj2 (proj2
           (summary_signs (fun _ _ => 0%Z)
              [("Income", [mkTransaction "2024-03-01" (Infinity false) "A"]);
               ("Fees", [mkTransaction "2024-03-02" (Infinity true) "B"])]))))).
  reflexivity.
Defined.

(** ** handleCSV *)

Lemma mapRow_Amount_not_NaN p r : isNaN (Amount (mapRow p r)) = false.
Proof. destruct p; simpl; apply normalizeAmount_not_NaN. Qed.

Lemma detectProfile_not_header previewData :
  ~ headerPreview previewData ->
  detectProfile (hd_error previewData) <> USBank_WithHeaders.
Proof.
  intros Hn H. apply Hn. destruct (hd_error previewData) as [row|] eqn:E.
  - apply detectProfile_header in H as [L Hh]. exists row. auto.
  - discriminate H.
Qed.

Lemma detectProfile_headerPreview previewData :
  headerPreview previewData ->
  detectProfile (hd_error previewData) = USBank_WithHeaders.
Proof.
  intros (row & E & L & Hh). rewrite E. apply detectProfile_header. auto.
Qed.

(** X24.  An import of a file without rows raises the alert and does
    nothing else.  Otherwise the rows of the file are mapped one by one, in
    their order, by the row mapper of the detected profile: all of them, or
    all but the first when the first row of the preview is the header of the
    second bank.  Every mapped Amount is a number, not NaN.  The mapped rows
    are what the categorizer is given, and when it returns, the groups put
    on display list the records of the mapped rows, one for one: as many as
    the file has data rows. *)
Theorem handleCSV_imports_every_row :
  forall hostRegExp CATEGORIES previewData fullData st,
    let profile := detectProfile (hd_error previewData) in
    (handleCSV hostRegExp CATEGORIES previewData fullData st = NoRows <->
     fullData = []) /\
    forall mapped result,
      handleCSV hostRegExp CATEGORIES previewData fullData st = Imported mapped result ->
      (headerPreview previewData ->
       mapped = map (mapRow USBank_WithHeaders) (tl fullData)) /\
      (~ headerPreview previewData ->
       mapped = map (mapRow profile) fullData) /\
      List.length mapped = dataRows profile fullData /\
      (forall t, In t mapped -> isNaN (Amount t) = false) /\
      result = categorizeTransactions hostRegExp CATEGORIES
                                      (getCustomCategories st) mapped /\
      forall g, result = Normal g ->
                Permutation (allListed g) (map cleaned mapped) /\
                List.length (allListed g) = dataRows profile fullData.
Proof.
  intros host CATS preview full st profile. unfold handleCSV. cbv zeta. split.
  - destruct full; split; intros H; try reflexivity; discriminate.
  - intros mapped result H. destruct full as [|row full]; [discriminate|].
    fold profile in H. injection H as <- <-.
    assert (L : List.length
                  (map (mapRow profile)
                       match profile with
                       | USBank_WithHeaders => tl (row :: full)
                       | _ => row :: full
                       end)
                = dataRows profile (row :: full)).
    { rewrite length_map. unfold dataRows. destruct profile; simpl; lia. }
    split; [|split; [|split; [exact L|split; [|split; [reflexivity|]]]]].
    + intros Hh. apply detectProfile_headerPreview in Hh.
      fold profile in Hh. rewrite Hh. reflexivity.
    + intros Hn. apply detectProfile_not_header in Hn. fold profile in Hn.
      destruct profile; try reflexivity. destruct (Hn eq_refl).
    + intros t Ht. apply in_map_iff in Ht as (r & <- & _). apply mapRow_Amount_not_NaN.
    + intros g Hg. unfold categorizeTransactions in Hg.
      destruct (forEach_categorizeRow_listed _ _ _ _ _ _ Hg) as (P & _);
        [constructor|constructor|].
      simpl in P. split; [exact P|].
      rewrite <- L, (Permutation_length P). apply length_map.
Qed.

Lemma handleCSV_imports_every_row_witness :
  exists mapped g,
    handleCSV noHost sampleCategories
      [["Date"; "Transaction"; "Name"; "Memo"; "Amount"]]
      [["Date"; "Transaction"; "Name"; "Memo"; "Amount"];
       ["2024-03-04"; "DEBIT"; "WHOLE FOODS"; "MARKET 0412"; "-54.10"]]
      (mkState None [])
    = Imported mapped (Normal g) /\
    mapped = [samplePurchase] /\
    Permutation (allListed g) [samplePurchase].
Proof.
  eexists. eexists. split; [reflexivity|].
  destruct (proj2 (handleCSV_imports_every_row noHost sampleCategories
              [["Date"; "Transaction"; "Name"; "Memo"; "Amount"]]
              [["Date"; "Transaction"; "Name"; "Memo"; "Amount"];
               ["2024-03-04"; "DEBIT"; "WHOLE FOODS"; "MARKET 0412"; "-54.10"]]
              (mkState None [])) _ _ eq_refl)
    as (Hh & _ & _ & _ & _ & Hg).
  split.
  - apply Hh. exists ["Date"; "Transaction"; "Name"; "Memo"; "Amount"].
    split; [reflexivity|]. split; [simpl; lia|]. repeat split.
  - exact (proj1 (Hg _ eq_refl)).
Defined.

(** ** The suggestion, taken as the reply *)

Lemma snoc_cases (s : string) :
  s = "" \/ exists a c, s = a ++ String c "".
Proof.
  induction s as [|x s [->|(a & c & ->)]]; [left; reflexivity| |].
  - right. exists "", x. reflexivity.
  - right. exists (String x a), c. reflexivity.
Qed.

Lemma trimEnd_snoc_ws a c :
  isWhiteSpace c = true -> trimEnd (a ++ String c "") = trimEnd a.
Proof.
  intros Hc. induction a as [|x a IH]; simpl; [rewrite Hc; reflexivity|].
  rewrite IH. reflexivity.
Qed.

Lemma trimEnd_snoc a c :
  isWhiteSpace c = false -> trimEnd (a ++ String c "") = a ++ String c "".
Proof.
  intros Hc. induction a as [|x a IH]; simpl; [rewrite Hc; reflexivity|].
  rewrite IH. destruct (a ++ String c "") eqn:E; [destruct a; discriminate E|reflexivity].
Qed.

Lemma trim_fixed_ends s :
  trim s = s -> notStartsWs s /\ trimEnd s = s.
Proof.
  intros H.
  assert (Hs : notStartsWs s).
  { rewrite <- H. unfold trim. apply trimEnd_notStartsWs, trimStart_notStartsWs. }
  split; [exact Hs|]. unfold trim in H. rewrite (trimStart_id s Hs) in H. exact H.
Qed.

Lemma trimEnd_fixed_snoc a c :
  trimEnd (a ++ String c "") = a ++ String c "" -> isWhiteSpace c = false.
Proof.
  intros H. destruct (isWhiteSpace c) eqn:W; [|reflexivity]. exfalso.
  rewrite (trimEnd_snoc_ws a c W) in H.
  pose proof (length_trimEnd a) as L. rewrite H, length_app in L. simpl in L. lia.
Qed.

Lemma split_no_sep_id sep s :
  sforall (fun c => negb (Ascii.eqb c sep)) s = true -> split sep s = [s].
Proof.
  induction s as [|c s IH]; simpl; [reflexivity|]. intros H.
  apply andb_true_iff in H as [Hc H]. apply negb_true_iff in Hc.
  rewrite Hc, (IH H). reflexivity.
Qed.

Lemma isAlnumSpace_no_comma c : isAlnumSpace c = true -> negb (Ascii.eqb c ",") = true.
Proof. destruct c as [[] [] [] [] [] [] [] []]; intros H; try reflexivity; discriminate H. Qed.

Lemma isAlnumSpace_plain c : isAlnumSpace c = true -> negb (isSyntaxChar c) = true.
Proof. destruct c as [[] [] [] [] [] [] [] []]; intros H; try reflexivity; discriminate H. Qed.

Lemma isAlnumSpace_word c :
  isAlnumSpace c = true -> isWhiteSpace c = false -> isWordChar c = true.
Proof.
  destruct c as [[] [] [] [] [] [] [] []]; intros H W; try reflexivity;
    try discriminate H; discriminate W.
Qed.

(** The phrase of a description in final form, taken as a keyword. *)
Lemma phrase_as_keyword desc :
  sforall isAlnumSpace desc = true -> trim desc = desc ->
  ~ Contains twoSpaces desc ->
  phraseOk (phraseOf desc) = true ->
  keywordsOf (phraseOf desc) = [phraseOf desc] /\
  plain (phraseOf desc) = true /\
  wholeWord (phraseOf desc) desc.
Proof.
  intros Ha Ht Hn Hok.
  destruct (phraseOf_prefix desc) as (rest & E & Hr & _).
  set (p := phraseOf desc) in *.
  assert (Hpa : sforall isAlnumSpace p = true) by apply phraseOf_alnum, Ha.
  assert (Hlen : 4 <= length p).
  { unfold phraseOk in Hok. apply andb_true_iff in Hok as [Hl _].
    apply Nat.leb_le, Hl. }
  destruct (trim_fixed_ends desc Ht) as [Hstart Hend].
  (* the first character *)
  destruct p as [|c0 p'] eqn:Ep; [simpl in Hlen; lia|].
  assert (Hc0 : isWhiteSpace c0 = false).
  { rewrite E in Hstart. exact Hstart. }
  (* the last character *)
  destruct (snoc_cases (String c0 p')) as [Hemp|(a & c & Ea)]; [discriminate Hemp|].
  assert (Hc : isWhiteSpace c = false).
  { destruct Hr as [->|(rest' & ->)].
    - rewrite app_nil_r in E. rewrite E, Ea in Hend. exact (trimEnd_fixed_snoc a c Hend).
    - destruct (isWhiteSpace c) eqn:W; [|reflexivity]. exfalso. apply Hn.
      exists a, (String c (String " " "")), rest'. split.
      + rewrite E, Ea, !app_assoc. reflexivity.
      + exists c, " "%char. auto. }
  assert (Hca : isAlnumSpace c = true).
  { rewrite Ea, sforall_app in Hpa. apply andb_true_iff in Hpa as [_ Hpa].
    simpl in Hpa. rewrite andb_true_r in Hpa. exact Hpa. }
  assert (Hc0a : isAlnumSpace c0 = true).
  { simpl in Hpa. apply andb_true_iff in Hpa as [Hpa _]. exact Hpa. }
  assert (Htrim : trim (String c0 p') = String c0 p').
  { unfold trim. rewrite (trimStart_id (String c0 p') Hc0).
    rewrite Ea. apply trimEnd_snoc, Hc. }
  split; [|split].
  - unfold keywordsOf.
    rewrite (split_no_sep_id "," (String c0 p')
               (sforall_impl _ _ _ isAlnumSpace_no_comma Hpa)).
    cbn [map]. rewrite Htrim, (toUpperCase_id _ Hpa). cbn [filter].
    assert (Hk : keywordOk (String c0 p') = true).
    { unfold keywordOk. unfold phraseOk in Hok.
      apply andb_true_iff in Hok as [_ Hd]. rewrite Hd, andb_true_r.
      apply Nat.leb_le. lia. }
    rewrite Hk. reflexivity.
  - exact (sforall_impl _ _ _ isAlnumSpace_plain Hpa).
  - exists "", (String c0 p'), rest. split; [exact E|]. split; [reflexivity|].
    unfold boundary. split.
    + simpl. apply (isAlnumSpace_word c0 Hc0a Hc0).
    + change ("" ++ String c0 p') with (String c0 p').
      rewrite Ea, lastOr_app. simpl.
      rewrite (isAlnumSpace_word c Hca Hc).
      destruct Hr as [->|(rest' & ->)]; reflexivity.
Qed.

(** X25.  When the descriptions of the selected transactions are in their
    final form (letters A to Z, digits and single spaces, no space at either
    end), the text the prompt is filled with, if any, can be accepted as it
    is: the keyword filter keeps it whole as the one keyword; it has no
    pattern syntax; and it stands as a whole word at the start of the
    description of a selected transaction, which it will therefore match
    when the categorizer runs again. *)
Theorem promptDefault_is_a_keyword :
  forall rows top,
    (forall r, In r rows ->
               sforall isAlnumSpace (desc r) = true /\ trim (desc r) = desc r /\
               ~ Contains twoSpaces (desc r)) ->
    topPhrases rows = Some top -> top <> [] ->
    keywordsOf (promptDefault top) = [promptDefault top] /\
    plain (promptDefault top) = true /\
    exists r, In r rows /\ wholeWord (promptDefault top) (desc r).
Proof.
  intros rows top Hrows Ht Hne.
  destruct (topPhrases_facts rows) as (top' & Ht' & _ & _ & Hin & _).
  { intros r Hr. apply (Hrows r Hr). }
  rewrite Ht in Ht'. injection Ht' as <-.
  destruct top as [|p top]; [destruct (Hne eq_refl)|]. cbn [promptDefault].
  destruct (Hin p (or_introl eq_refl)) as (Hok & r & Hr & ->).
  destruct (Hrows r Hr) as (Ha & Htr & Hn).
  destruct (phrase_as_keyword (desc r) Ha Htr Hn Hok) as (Hk & Hp & Hw).
  split; [exact Hk|]. split; [exact Hp|]. exists r. auto.
Qed.

Lemma promptDefault_is_a_keyword_witness :
  keywordsOf (promptDefault ["ACME COFFEE SHOP"]) = ["ACME COFFEE SHOP"].
Proof.
  refine (proj1 (promptDefault_is_a_keyword [coffeeBox] ["ACME COFFEE SHOP"] _ eq_refl _)).
  - intros r [<-|[]]. split; [reflexivity|]. split; [reflexivity|].
    intros H. apply test_re_spaces in H. discriminate H.
  - discriminate.
Defined.

(** ** Errors and rejections *)

(** X26.  A keyword with a parenthesis left open or closed too early (and
    no other pattern syntax) breaks every import that reaches it: when some
    row of the batch has an Amount not greater than 0 and no other keyword
    at least as long matches its description, the categorizer throws and no
    row of the batch is grouped. *)
Theorem unbalanced_keyword_stops_categorization :
  forall hostRegExp CATEGORIES custom data row kw,
    let allCats := spread CATEGORIES custom in
    In row data ->
    gt (Amount row) zero = false ->
    In kw (keys allCats) ->
    sforall (fun c => negb (isSyntaxChar c) || isParen c) (toUpperCase kw) = true ->
    balanced 0 (toUpperCase kw) = false ->
    (forall k, In k (keys allCats) -> k <> kw -> length kw <= length k ->
               keywordTest hostRegExp k (strictClean (Description row)) = Normal false) ->
    exists e, categorizeTransactions hostRegExp CATEGORIES custom data = Throw e.
Proof.
  intros host CATS custom data row kw allCats Hin Hamt Hkw Hp Hb Hothers.
  pose proof (rowCategory_unbalanced_keyword host allCats row kw Hamt Hkw Hp Hb Hothers)
    as Hthrow.
  destruct (categorizeTransactions host CATS custom data) as [g|e] eqn:R; [|eauto].
  exfalso. unfold categorizeTransactions in R.
  assert (Hret : exists g, forEach (categorizeRow host allCats
                                      (sortByLengthDesc (keys allCats))) data [] = Normal g)
    by (exists g; exact R).
  assert (Hinv : forall c, get ([] : Groups) c <> None -> inherited c = false)
    by (intros c H; destruct (H eq_refl)).
  destruct (proj1 (forEach_categorizeRow_returns host allCats
                     (sortByLengthDesc (keys allCats)) data [] Hinv) Hret row Hin)
    as (c & Hc & _).
  rewrite Hthrow in Hc. discriminate.
Qed.

Lemma unbalanced_keyword_stops_categorization_witness :
  exists e,
    categorizeTransactions noHost sampleCategories [("(AB", "Misc")]
                           [sampleSalary; sampleCoffee] = Throw e.
Proof.
  apply (unbalanced_keyword_stops_categorization noHost sampleCategories
           [("(AB", "Misc")] [sampleSalary; sampleCoffee] sampleCoffee "(AB").
  - right. left. reflexivity.
  - reflexivity.
  - right. right. right. left. reflexivity.
  - reflexivity.
  - reflexivity.
  - intros k [<-|[<-|[<-|[<-|[]]]]] Hne Hl.
    + reflexivity.
    + reflexivity.
    + reflexivity.
    + destruct (Hne eq_refl).
Defined.

(** X27.  The handler rejects a click, with an alert and the state left as
    it was, in four cases and no other: nothing is selected; a new category
    is asked for and the name typed is empty or blank; the prompt is
    dismissed; the reply is empty.  A reply of blanks is not rejected: the
    name is trimmed before it is tested, the reply is not. *)
Theorem assignBtn_onclick_rejects :
  forall page st,
    (forall msg st', assignBtn_onclick page st = (Alerted msg, st') -> st' = st) /\
    ((exists msg st', assignBtn_onclick page st = (Alerted msg, st')) <->
     selectedRows page = [] \/
     (dropdown_value page = "New Category..." /\ trim (input_value page) = "") \/
     prompt_reply page = None \/ prompt_reply page = Some "").
Proof.
  intros page st. split.
  - intros msg st' H.
    destruct (assignBtn_onclick_run page st) as [(m & Hm)|(reply & _ & _ & _ & Hrun)].
    + rewrite Hm in H. injection H as _ <-. reflexivity.
    + cbv zeta in Hrun. rewrite Hrun in H. destruct (reassign _ _ _); discriminate.
  - unfold assignBtn_onclick.
    destruct (selectedRows page) as [|r rows]; [split; [auto|eauto]|].
    destruct (String.eqb (dropdown_value page) "New Category...") eqn:N.
    + apply String.eqb_eq in N.
      destruct (isEmpty (trim (input_value page))) eqn:I; cbn [andb].
      * split; [|eauto]. intros _. right. left. split; [exact N|].
        destruct (trim (input_value page)); [reflexivity|discriminate].
      * assert (Hi : trim (input_value page) <> "") by (apply isEmpty_false, I).
        destruct (prompt_reply page) as [[|x reply]|]; cbn [isEmpty].
        -- split; [auto|eauto].
        -- split.
           ++ intros (msg & st' & H). destruct (reassign _ _ _); discriminate.
           ++ intros [H|[[_ H]|[H|H]]]; try discriminate; contradiction.
        -- split; [auto|eauto].
    + apply String.eqb_neq in N. cbn [andb].
      destruct (prompt_reply page) as [[|x reply]|]; cbn [isEmpty].
      * split; [auto|eauto].
      * split.
        -- intros (msg & st' & H). destruct (reassign _ _ _); discriminate.
        -- intros [H|[[H _]|[H|H]]]; try discriminate; contradiction.
      * split; [auto|eauto].
Qed.

Lemma assignBtn_onclick_rejects_witness :
  (exists msg st',
      assignBtn_onclick (mkPage [coffeeBox] "New Category..." "   " (Some "acme")) freshState
      = (Alerted msg, st')) /\
  ~ (exists msg st',
        assignBtn_onclick (mkPage [coffeeBox] "Misc" "" (Some "   ")) freshState
        = (Alerted msg, st')).
Proof.
  split.
  - apply (proj2 (assignBtn_onclick_rejects _ freshState)).
    right. left. split; reflexivity.
  - intros H.
    apply (proj2 (assignBtn_onclick_rejects _ freshState)) in H.
    destruct H as [H|[[H _]|[H|H]]]; discriminate H.
Defined.

(** ** What is on display *)

Lemma parseFloatOfNumber_idem n :
  parseFloatOfNumber (parseFloatOfNumber n) = parseFloatOfNumber n.
Proof. destruct n; reflexivity. Qed.

(** X28.  Every transaction in the groups the categorizer returns has a
    description of letters A to Z, digits and spaces with no space at
    either end, and goes through the page unchanged: the record the
    handler builds from the checkbox drawn for it is the transaction
    itself. *)
Theorem categorizeTransactions_records :
  forall hostRegExp CATEGORIES custom data g,
    categorizeTransactions hostRegExp CATEGORIES custom data = Normal g ->
    forall c t,
      InGroup g c t ->
      sforall isAlnumSpace (Description t) = true /\
      trim (Description t) = Description t /\
      pushed (checkboxOf t) = t.
Proof.
  intros host CATS custom data g H c t Hin.
  apply (categorizeTransactions_InGroup _ _ _ _ _ H) in Hin as (row & _ & -> & _).
  unfold cleaned, pushed, checkboxOf. simpl.
  split; [apply strictClean_alphabet|]. split; [apply strictClean_trimmed|].
  rewrite parseFloatOfNumber_idem. reflexivity.
Qed.

Lemma categorizeTransactions_records_witness :
  exists g,
    categorizeTransactions noHost sampleCategories [] [sampleCoffee] = Normal g /\
    pushed (checkboxOf sampleCoffee) = sampleCoffee.
Proof.
  eexists. split; [reflexivity|].
  refine (proj2 (proj2 (categorizeTransactions_records noHost sampleCategories []
            [sampleCoffee] _ eq_refl "Uncategorized" sampleCoffee _))).
  exists [sampleCoffee]. split; [reflexivity|left; reflexivity].
Defined.

